(** * Batch research orchestration of Syntellix AI

    A shallow embedding of the orchestration code of [src/App.tsx]
    ([handleStartResearch], [handlePause], [handleResume], [handleCancel])
    and of the research task invoker ([researchEntity] of the Gemini
    service), together with the properties the specification states
    about them.

    Conventions of the embedding.
    - A JavaScript string is the list of its UTF-16 code units.
    - A [CsvRow] ([Record<string, string>]) is a plain object, as the
      parsers build it: the list of its own entries in [Object.entries]
      order, with [Object.prototype] as prototype.  Reading a property
      yields the own value, else the value inherited from
      [Object.prototype], else [undefined].  The rule that lists
      array-index keys first is outside the model: the order of the
      entries only decides the order of the parts of the context string.
    - React state is a record; [setX] calls are applied in program order,
      functional updaters to the current value.
    - An [async] function runs atomically between two [await]s; the run is
      a machine whose steps are the events of the JavaScript event loop. *)

From Stdlib Require Import String Ascii NArith ZArith QArith Qround.
From stdpp Require Import base option list gmap.

Local Open Scope nat_scope.
Local Open Scope list_scope.

(** ** Strings *)

Module JsString.

Abbreviation jsstring := (list N).

(** Code units of an ASCII literal. *)
Definition js (s : string) : jsstring :=
  List.map N_of_ascii (list_ascii_of_string s).

(** ECMAScript [WhiteSpace] and [LineTerminator] code points: the
    characters [String.prototype.trim] strips. *)
Definition is_ws (c : N) : bool :=
  (N.eqb c 0x0009 || N.eqb c 0x000A || N.eqb c 0x000B || N.eqb c 0x000C
   || N.eqb c 0x000D || N.eqb c 0x0020 || N.eqb c 0x00A0 || N.eqb c 0x1680
   || (N.leb 0x2000 c && N.leb c 0x200A)
   || N.eqb c 0x2028 || N.eqb c 0x2029 || N.eqb c 0x202F
   || N.eqb c 0x205F || N.eqb c 0x3000 || N.eqb c 0xFEFF)%bool.

Fixpoint trimStart (s : jsstring) : jsstring :=
  match s with
  | c :: s' => if is_ws c then trimStart s' else s
  | [] => []
  end.

Definition trimEnd (s : jsstring) : jsstring := rev (trimStart (rev s)).

(** [String.prototype.trim] *)
Definition trim (s : jsstring) : jsstring := trimEnd (trimStart s).

(** [Array.prototype.join] on an array of strings. *)
Fixpoint join (sep : jsstring) (l : list jsstring) : jsstring :=
  match l with
  | [] => []
  | [x] => x
  | x :: rest => x ++ sep ++ join sep rest
  end.

(** [s !== ''] *)
Definition nonempty (s : jsstring) : bool :=
  match s with [] => false | _ :: _ => true end.

End JsString.
Import JsString.

(** ** Completions: a JavaScript evaluation returns or throws *)

Inductive JsError := TypeError | ErrorMsg (msg : jsstring).

Inductive Completion (A : Type) :=
| Normal (a : A)
| Throw (e : JsError).
Arguments Normal {A} a.
Arguments Throw {A} e.

Definition cbind {A B} (c : Completion A) (f : A -> Completion B) : Completion B :=
  match c with
  | Normal a => f a
  | Throw e => Throw e
  end.

Notation "'let!' x ':=' c1 'in' c2" := (cbind c1 (fun x => c2))
  (at level 10, x name, c1 at level 100, c2 at level 200).

(** [Array.prototype.filter] with a callback that may throw. *)
Fixpoint filterC {A} (p : A -> Completion bool) (l : list A) : Completion (list A) :=
  match l with
  | [] => Normal []
  | x :: rest =>
      let! b := p x in
      let! kept := filterC p rest in
      Normal (if b then x :: kept else kept)
  end.

(** [for (...) { ... push ... }] over a list, with a body that may throw. *)
Fixpoint concatMapC {A B} (f : A -> Completion (list B)) (l : list A)
  : Completion (list B) :=
  match l with
  | [] => Normal []
  | x :: rest =>
      let! ys := f x in
      let! zs := concatMapC f rest in
      Normal (ys ++ zs)
  end.

(** The evaluation returns. *)
Definition returns {A} (c : Completion A) : bool :=
  match c with
  | Normal _ => true
  | Throw _ => false
  end.

(** What an evaluation pushes: nothing if it throws. *)
Definition pushed {A} (c : Completion (list A)) : list A :=
  match c with
  | Normal xs => xs
  | Throw _ => []
  end.

(** What the loop has pushed when it ends or its body throws. *)
Fixpoint pushedC {A B} (f : A -> Completion (list B)) (l : list A) : list B :=
  match l with
  | [] => []
  | x :: rest =>
      match f x with
      | Normal ys => ys ++ pushedC f rest
      | Throw _ => []
      end
  end.

(** ** Data model ([src/types.ts]) *)

(** The properties of [Object.prototype]: eleven functions and the
    accessor [__proto__], which on a plain object yields
    [Object.prototype] itself. *)
Inductive ProtoProperty :=
| proto_constructor
| proto_defineGetter
| proto_defineSetter
| proto_hasOwnProperty
| proto_lookupGetter
| proto_lookupSetter
| proto_isPrototypeOf
| proto_propertyIsEnumerable
| proto_toString
| proto_valueOf
| proto_proto
| proto_toLocaleString.

Definition proto_properties : list ProtoProperty :=
  [proto_constructor; proto_defineGetter; proto_defineSetter;
   proto_hasOwnProperty; proto_lookupGetter; proto_lookupSetter;
   proto_isPrototypeOf; proto_propertyIsEnumerable; proto_toString;
   proto_valueOf; proto_proto; proto_toLocaleString].

Definition proto_name (p : ProtoProperty) : jsstring :=
  match p with
  | proto_constructor => js "constructor"
  | proto_defineGetter => js "__defineGetter__"
  | proto_defineSetter => js "__defineSetter__"
  | proto_hasOwnProperty => js "hasOwnProperty"
  | proto_lookupGetter => js "__lookupGetter__"
  | proto_lookupSetter => js "__lookupSetter__"
  | proto_isPrototypeOf => js "isPrototypeOf"
  | proto_propertyIsEnumerable => js "propertyIsEnumerable"
  | proto_toString => js "toString"
  | proto_valueOf => js "valueOf"
  | proto_proto => js "__proto__"
  | proto_toLocaleString => js "toLocaleString"
  end.

(** [String(value)] of the inherited value: the source text of a built-in
    function as the engine prints it ([constructor] is the function
    [Object]), and [[object Object]] for the prototype object. *)
Definition proto_string (p : ProtoProperty) : jsstring :=
  match p with
  | proto_constructor => js "function Object() { [native code] }"
  | proto_proto => js "[object Object]"
  | _ => js "function " ++ proto_name p ++ js "() { [native code] }"
  end.

(** The property of [Object.prototype] named [col], if there is one. *)
Definition inherited (col : jsstring) : option ProtoProperty :=
  List.find (fun p => bool_decide (proto_name p = col)) proto_properties.

(** The value of a property read [row[col]]: [undefined], an own string,
    or the function or object inherited from [Object.prototype]. *)
Inductive JsVal := Undefined | Str (s : jsstring) | Inherited (p : ProtoProperty).

(** [CsvRow = Record<string, string>], in [Object.entries] order. *)
Abbreviation CsvRow := (list (jsstring * jsstring)).

Inductive ProcessingStatus := IDLE | PROCESSING | PAUSED | COMPLETED.

Record ResearchTask := {
  id : jsstring;
  newColumnName : jsstring;
  prompt : jsstring
}.

(** [rowLimit?: number]: absent, or a number (integral in the model; the
    control panel always passes 0). *)
Record ResearchConfig := {
  targetColumns : list jsstring;
  tasks : list ResearchTask;
  useThinkingModel : bool;
  rowLimit : option Z
}.

Record Source := { title : jsstring; uri : jsstring }.

Record ResearchResult := { text : jsstring; sources : list Source }.

#[global] Instance ProcessingStatus_eq_dec : EqDecision ProcessingStatus.
Proof. solve_decision. Defined.
#[global] Instance ResearchTask_eq_dec : EqDecision ResearchTask.
Proof. solve_decision. Defined.
#[global] Instance ResearchConfig_eq_dec : EqDecision ResearchConfig.
Proof. solve_decision. Defined.
#[global] Instance Source_eq_dec : EqDecision Source.
Proof. solve_decision. Defined.
#[global] Instance ResearchResult_eq_dec : EqDecision ResearchResult.
Proof. solve_decision. Defined.

(** ** Rows as objects *)

Module Row.

(** [row[col]]: the own property, else the property of the prototype. *)
Fixpoint get (row : CsvRow) (col : jsstring) : JsVal :=
  match row with
  | [] =>
      match inherited col with
      | Some p => Inherited p
      | None => Undefined
      end
  | (k, v) :: rest => if decide (k = col) then Str v else get rest col
  end.

(** [{ ...row, [col]: value }]: an own key keeps its place, a new key is
    added last. *)
Fixpoint set (row : CsvRow) (col value : jsstring) : CsvRow :=
  match row with
  | [] => [(col, value)]
  | (k, v) :: rest =>
      if decide (k = col) then (k, value) :: rest
      else (k, v) :: set rest col value
  end.

(** [Object.keys(row)] *)
Definition keys (row : CsvRow) : list jsstring := List.map fst row.

End Row.

(** ** Entity resolver ([handleStartResearch], lines 162-173) *)

(** [ToBoolean] of a property value. *)
Definition truthy (val : JsVal) : bool :=
  match val with
  | Undefined => false
  | Str s => nonempty s
  | Inherited _ => true
  end.

(** [val.trim()]: a method call on [undefined] throws, and so does the
    call of a method the value does not have. *)
Definition call_trim (val : JsVal) : Completion jsstring :=
  match val with
  | Undefined => Throw TypeError
  | Str s => Normal (trim s)
  | Inherited _ => Throw TypeError
  end.

(** [val => val && val.trim() !== ''] *)
Definition entity_filter (val : JsVal) : Completion bool :=
  if truthy val then
    let! t := call_trim val in
    Normal (nonempty t)
  else Normal false.

(** The string an array element contributes to [join]. *)
Definition join_elem (val : JsVal) : jsstring :=
  match val with
  | Undefined => []
  | Str s => s
  | Inherited p => proto_string p
  end.

(** [config.targetColumns.map(col => row[col]).filter(...).join(' ')] *)
Definition entityName (config : ResearchConfig) (row : CsvRow) : Completion jsstring :=
  let vals := List.map (fun col => Row.get row col) (targetColumns config) in
  let! kept := filterC entity_filter vals in
  Normal (join (js " ") (List.map join_elem kept)).

(** [config.targetColumns.includes(key)] *)
Definition includes (l : list jsstring) (key : jsstring) : bool :=
  bool_decide (key ∈ l).

(** [config.tasks.find(t => t.newColumnName === key)], as a truth value. *)
Definition finds_task (config : ResearchConfig) (key : jsstring) : bool :=
  existsb (fun t => bool_decide (newColumnName t = key)) (tasks config).

(** [([key]) => !targetColumns.includes(key) && !tasks.find(...)] *)
Definition context_filter (config : ResearchConfig) (entry : jsstring * jsstring) : bool :=
  (negb (includes (targetColumns config) (fst entry))
   && negb (finds_task config (fst entry)))%bool.

(** The template [`${key}: ${val}`]. *)
Definition context_part (entry : jsstring * jsstring) : jsstring :=
  fst entry ++ js ": " ++ snd entry.

Definition contextParts (config : ResearchConfig) (row : CsvRow) : list jsstring :=
  List.map context_part (List.filter (context_filter config) row).

Definition contextStr (config : ResearchConfig) (row : CsvRow) : jsstring :=
  join (js ", ") (contextParts config row).

(** ** Batch planner ([handleStartResearch], lines 128-136) *)

(** A JavaScript number that is a natural number or [Infinity]. *)
Inductive jsnum := Fin (n : nat) | Infinity.

(** [config.rowLimit && config.rowLimit > 0 ? config.rowLimit : newData.length] *)
Definition limit (config : ResearchConfig) (len : nat) : nat :=
  match rowLimit config with
  | Some l => if (0 <? l)%Z then Z.to_nat l else len
  | None => len
  end.

(** [Math.min(newData.length, limit)] *)
Definition effectiveTotal (config : ResearchConfig) (len : nat) : nat :=
  Nat.min len (limit config len).

(** [config.useThinkingModel ? 2 : 10] *)
Definition concurrentLimit (thinking : bool) : Z := if thinking then 2 else 10.

(** [Math.max(1, Math.floor(concurrentLimit / tasksPerItem))]; the division
    is the division of numbers, and a division by zero gives [Infinity]. *)
Definition planBatchSize (tasksPerItem : nat) (thinking : bool) : jsnum :=
  match tasksPerItem with
  | O => Infinity
  | S _ =>
      Fin (Z.to_nat (Z.max 1
        (Qfloor (inject_Z (concurrentLimit thinking) / inject_Z (Z.of_nat tasksPerItem)))))
  end.

Definition BATCH_SIZE (config : ResearchConfig) : jsnum :=
  planBatchSize (length (tasks config)) (useThinkingModel config).

(** The loop header [for (let i = 0; i < effectiveTotal; i += BATCH_SIZE)]:
    the values [i] takes, in order.  [fuel] bounds the number of
    iterations; [effectiveTotal] iterations always suffice, the step being
    at least 1 ([batch_starts_unfold] below). *)
Fixpoint starts_from (fuel i step total : nat) : list nat :=
  match fuel with
  | O => []
  | S fuel' =>
      if i <? total then i :: starts_from fuel' (i + step) step total else []
  end.

Definition batch_starts (size : jsnum) (total : nat) : list nat :=
  match size with
  | Fin b => starts_from total 0 b total
  | Infinity => if 0 <? total then [0] else []
  end.

(** [Math.min(i + BATCH_SIZE, effectiveTotal)] *)
Definition batchEnd (size : jsnum) (i total : nat) : nat :=
  match size with
  | Fin b => Nat.min (i + b) total
  | Infinity => total
  end.

(** ** Research task invoker ([researchEntity], Gemini service) *)

Module Invoker.

Inductive Model := gemini_3_pro_preview | gemini_2_5_flash.

(** [chunk.web] of a grounding chunk. *)
Record WebChunk := { web_title : option jsstring; web_uri : option jsstring }.

Record GroundingChunk := { web : option WebChunk }.

(** What the code reads of a provider response: [response.text] and
    [response.candidates?.[0]?.groundingMetadata?.groundingChunks]. *)
Record GenerateContentResponse := {
  response_text : option jsstring;
  groundingChunks : option (list GroundingChunk)
}.

(** The variable parts of the request: the model, the parts of the prompt
    template, and the model configuration chosen by the quality flag. *)
Record GenerateContentRequest := {
  req_model : Model;
  req_entityName : jsstring;
  req_context : option jsstring;
  req_userQuery : jsstring;
  req_thinkingBudget : option N
}.

(** The body of the [try] block either completes with a response or
    throws (provider error, timeout, blocked page, malformed response). *)
Inductive ProviderOutcome :=
| ProviderThrows
| ProviderResponds (r : GenerateContentResponse).

(** [chunks.forEach(chunk => { if (chunk.web) sources.push(...) })] *)
Definition chunk_sources (chunks : list GroundingChunk) : list Source :=
  omap (fun chunk =>
          match web chunk with
          | Some w => Some {| title := default (js "Source") (web_title w);
                              uri := default [] (web_uri w) |}
          | None => None
          end) chunks.

Definition missing_key_message : jsstring :=
  js "API Key is missing. Please configure process.env.API_KEY.".

(** The request [researchEntity] makes: [model], the fields of the
    [prompt] template ([context] only when it is a non-empty string) and
    [config]. *)
Definition buildRequest (entityName userQuery : jsstring) (context : JsVal)
    (useThinkingModel : bool) : GenerateContentRequest :=
  {| req_model := if useThinkingModel then gemini_3_pro_preview else gemini_2_5_flash;
     req_entityName := entityName;
     req_context := match context with
                    | Str c => if nonempty c then Some c else None
                    | Undefined => None
                    | Inherited p => Some (proto_string p)
                    end;
     req_userQuery := userQuery;
     req_thinkingBudget := if useThinkingModel then Some 32768%N else None |}.

Section WithProvider.

(** [process.env.API_KEY || ''] and [ai.models.generateContent]. *)
Variable apiKey : jsstring.
Variable generateContent : GenerateContentRequest -> ProviderOutcome.

Definition researchEntity (entityName userQuery : jsstring) (context : JsVal)
    (useThinkingModel : bool) : Completion ResearchResult :=
  if negb (nonempty apiKey) then Throw (ErrorMsg missing_key_message)
  else
    match generateContent (buildRequest entityName userQuery context useThinkingModel) with
    | ProviderResponds response =>
        let text :=
          match response_text response with
          | Some t => if nonempty t then trim t else js "N/A"
          | None => js "N/A"
          end in
        let sources :=
          match groundingChunks response with
          | Some chunks => chunk_sources chunks
          | None => []
          end in
        Normal {| text := text; sources := sources |}
    | ProviderThrows => Normal {| text := js "Error"; sources := [] |}
    end.

End WithProvider.

End Invoker.

(** ** Application state ([App], lines 12-24) *)

Record AppState := {
  data : list CsvRow;
  columns : list jsstring;
  status : ProcessingStatus;
  processedCount : nat;
  activeConfig : option ResearchConfig;
  (** [cellSources]; the key [`${rowIndex}-${colName}`] determines the pair
      it is built from, the row index holding no dash. *)
  cellSources : gmap (nat * jsstring) (list Source);
  isPausedRef : bool;
  isCancelledRef : bool;
  (** whether [resumeResolverRef.current] holds a resolver *)
  resumeResolverRef : bool
}.

Definition setData (d : list CsvRow) (s : AppState) : AppState :=
  {| data := d; columns := columns s; status := status s;
     processedCount := processedCount s; activeConfig := activeConfig s;
     cellSources := cellSources s; isPausedRef := isPausedRef s;
     isCancelledRef := isCancelledRef s; resumeResolverRef := resumeResolverRef s |}.

Definition setColumns (c : list jsstring) (s : AppState) : AppState :=
  {| data := data s; columns := c; status := status s;
     processedCount := processedCount s; activeConfig := activeConfig s;
     cellSources := cellSources s; isPausedRef := isPausedRef s;
     isCancelledRef := isCancelledRef s; resumeResolverRef := resumeResolverRef s |}.

Definition setStatus (x : ProcessingStatus) (s : AppState) : AppState :=
  {| data := data s; columns := columns s; status := x;
     processedCount := processedCount s; activeConfig := activeConfig s;
     cellSources := cellSources s; isPausedRef := isPausedRef s;
     isCancelledRef := isCancelledRef s; resumeResolverRef := resumeResolverRef s |}.

Definition setProcessedCount (n : nat) (s : AppState) : AppState :=
  {| data := data s; columns := columns s; status := status s;
     processedCount := n; activeConfig := activeConfig s;
     cellSources := cellSources s; isPausedRef := isPausedRef s;
     isCancelledRef := isCancelledRef s; resumeResolverRef := resumeResolverRef s |}.

Definition setActiveConfig (c : option ResearchConfig) (s : AppState) : AppState :=
  {| data := data s; columns := columns s; status := status s;
     processedCount := processedCount s; activeConfig := c;
     cellSources := cellSources s; isPausedRef := isPausedRef s;
     isCancelledRef := isCancelledRef s; resumeResolverRef := resumeResolverRef s |}.

Definition setCellSources (c : gmap (nat * jsstring) (list Source)) (s : AppState) : AppState :=
  {| data := data s; columns := columns s; status := status s;
     processedCount := processedCount s; activeConfig := activeConfig s;
     cellSources := c; isPausedRef := isPausedRef s;
     isCancelledRef := isCancelledRef s; resumeResolverRef := resumeResolverRef s |}.

Definition setIsPaused (b : bool) (s : AppState) : AppState :=
  {| data := data s; columns := columns s; status := status s;
     processedCount := processedCount s; activeConfig := activeConfig s;
     cellSources := cellSources s; isPausedRef := b;
     isCancelledRef := isCancelledRef s; resumeResolverRef := resumeResolverRef s |}.

Definition setIsCancelled (b : bool) (s : AppState) : AppState :=
  {| data := data s; columns := columns s; status := status s;
     processedCount := processedCount s; activeConfig := activeConfig s;
     cellSources := cellSources s; isPausedRef := isPausedRef s;
     isCancelledRef := b; resumeResolverRef := resumeResolverRef s |}.

Definition setResumeResolver (b : bool) (s : AppState) : AppState :=
  {| data := data s; columns := columns s; status := status s;
     processedCount := processedCount s; activeConfig := activeConfig s;
     cellSources := cellSources s; isPausedRef := isPausedRef s;
     isCancelledRef := isCancelledRef s; resumeResolverRef := b |}.

(** ** The orchestration loop ([handleStartResearch], lines 138-229) *)

(** One call of [researchEntity], tagged as its promise is. *)
Record Invocation := {
  rowIndex : nat;
  taskIndex : nat;
  inv_entityName : jsstring;
  inv_prompt : jsstring;
  inv_context : jsstring;
  inv_thinking : bool
}.

(** Where the [async] function is suspended, with the current [i] and the
    values the loop header still has to run through. *)
Inductive Pc :=
| AwaitResume (i : nat) (rest : list nat)   (* [await waitForResume()] *)
| AwaitBatch (i : nat) (rest : list nat)    (* [await Promise.all(batchPromises)] *)
| AwaitSleep (i : nat) (rest : list nat)    (* [await new Promise(setTimeout)] *)
| Returned                                  (* the function returned *)
| Threw (e : JsError).                      (* the function's promise rejected *)

(** The application state, the locals of the running call ([config],
    [newData], the program point) and the log of the invoker calls made. *)
Record Machine := {
  app : AppState;
  config : ResearchConfig;
  newData : list CsvRow;
  pc : Pc;
  fired : list Invocation
}.

Definition withApp (f : AppState -> AppState) (m : Machine) : Machine :=
  {| app := f (app m); config := config m; newData := newData m;
     pc := pc m; fired := fired m |}.

Definition withPc (p : Pc) (m : Machine) : Machine :=
  {| app := app m; config := config m; newData := newData m;
     pc := p; fired := fired m |}.

Definition withNewData (d : list CsvRow) (m : Machine) : Machine :=
  {| app := app m; config := config m; newData := d;
     pc := pc m; fired := fired m |}.

Definition withFired (l : list Invocation) (m : Machine) : Machine :=
  {| app := app m; config := config m; newData := newData m;
     pc := pc m; fired := l |}.

(** The body of [for (let j = i; j < batchEnd; j++)] for one [j]: the
    promises pushed for row [j]. *)
Definition rowPromises (config : ResearchConfig) (newData : list CsvRow) (j : nat)
  : Completion (list Invocation) :=
  match newData !! j with
  | Some row =>
      let! name := entityName config row in
      if nonempty name then
        Normal (imap (fun taskIdx task =>
                        {| rowIndex := j; taskIndex := taskIdx;
                           inv_entityName := name;
                           inv_prompt := prompt task;
                           inv_context := contextStr config row;
                           inv_thinking := useThinkingModel config |})
                     (tasks config))
      else Normal []
  | None =>
      (* [row] is [undefined]: the first [row[col]] throws *)
      match targetColumns config with
      | [] => Normal []
      | _ :: _ => Throw TypeError
      end
  end.

(** [batchPromises] once the inner loop has run. *)
Definition batchPromises (config : ResearchConfig) (newData : list CsvRow) (i : nat)
  : Completion (list Invocation) :=
  let total := effectiveTotal config (length newData) in
  let stop := batchEnd (BATCH_SIZE config) i total in
  concatMapC (rowPromises config newData) (seq i (stop - i)).

(** The invoker calls made while the batch is built: [researchEntity] is
    called as each promise is pushed, so the calls for the rows before a
    row whose resolution throws have been made. *)
Definition batchCalls (config : ResearchConfig) (newData : list CsvRow) (i : nat)
  : list Invocation :=
  let total := effectiveTotal config (length newData) in
  let stop := batchEnd (BATCH_SIZE config) i total in
  pushedC (rowPromises config newData) (seq i (stop - i)).

(** One callback of [results.forEach]: the write into [newData] and into
    [newSources].  (An index past the end of [newData] is left alone by the
    list update; [batchPromises_tags] shows no tag is out of range.) *)
Definition mergeResult (config : ResearchConfig)
    (acc : list CsvRow * gmap (nat * jsstring) (list Source))
    (res : Invocation * ResearchResult)
  : Completion (list CsvRow * gmap (nat * jsstring) (list Source)) :=
  match tasks config !! taskIndex res.1 with
  | Some task =>
      let colName := newColumnName task in
      let j := rowIndex res.1 in
      let row := Row.set (default [] (acc.1 !! j)) colName (text res.2) in
      Normal (<[j := row]> acc.1,
              if decide (sources res.2 = []) then acc.2
              else <[(j, colName) := sources res.2]> acc.2)
  | None => Throw TypeError
  end.

Fixpoint mergeResults (config : ResearchConfig)
    (acc : list CsvRow * gmap (nat * jsstring) (list Source))
    (results : list (Invocation * ResearchResult))
  : Completion (list CsvRow * gmap (nat * jsstring) (list Source)) :=
  match results with
  | [] => Normal acc
  | res :: rest =>
      let! acc' := mergeResult config acc res in
      mergeResults config acc' rest
  end.

Section Segments.

(** What the loop does after the current iteration: the rest of the
    [for] loop. *)
Variable continue : Machine -> Machine.

(** Lines 219-226: publish the batch, then sleep or go on. *)
Definition publish (i : nat) (rest : list nat) (m : Machine) : Machine :=
  let total := effectiveTotal (config m) (length (newData m)) in
  let stop := batchEnd (BATCH_SIZE (config m)) i total in
  let m1 := withApp (fun s => setProcessedCount stop (setData (newData m) s)) m in
  if stop <? total then withPc (AwaitSleep i rest) m1
  else continue m1.

(** Lines 199-216, once [Promise.all] has fulfilled with [results]. *)
Definition settle (i : nat) (rest : list nat) (invs : list Invocation)
    (results : list ResearchResult) (m : Machine) : Machine :=
  match mergeResults (config m) (newData m, ∅) (zip invs results) with
  | Normal (newData', newSources) =>
      publish i rest
        (withApp (fun s => setCellSources (newSources ∪ cellSources s) s)
           (withNewData newData' m))
  | Throw e => withPc (Threw e) m
  end.

(** Lines 154-196: build the batch and await it, if it is not empty. *)
Definition fire (i : nat) (rest : list nat) (m : Machine) : Machine :=
  match batchPromises (config m) (newData m) i with
  | Normal invs =>
      match invs with
      | [] => publish i rest m
      | _ :: _ => withPc (AwaitBatch i rest) (withFired (fired m ++ invs) m)
      end
  | Throw e =>
      withPc (Threw e)
        (withFired (fired m ++ batchCalls (config m) (newData m) i) m)
  end.

(** Lines 148-152: after [await waitForResume()]. *)
Definition afterWake (i : nat) (rest : list nat) (m : Machine) : Machine :=
  if isCancelledRef (app m) then withPc Returned m
  else fire i rest m.

(** Lines 140-152: the top of an iteration. *)
Definition iteration (i : nat) (rest : list nat) (m : Machine) : Machine :=
  if isCancelledRef (app m) then withPc Returned m
  else if isPausedRef (app m) then
    withPc (AwaitResume i rest) (withApp (setResumeResolver true) m)
  else fire i rest m.

End Segments.

(** The [for] loop over the remaining values of [i], up to the next
    [await]; line 229 when none is left. *)
Fixpoint forLoop (starts : list nat) (m : Machine) : Machine :=
  match starts with
  | [] => withPc Returned (withApp (setStatus COMPLETED) m)
  | i :: rest => iteration (forLoop rest) i rest m
  end.

(** Lines 120-121: the task columns the header lacks. *)
Definition newColumnsToAdd (cfg : ResearchConfig) (s : AppState) : list jsstring :=
  List.filter (fun name => negb (includes (columns s) name))
              (List.map newColumnName (tasks cfg)).

(** Lines 111-124: the flags and the state a call sets before its loop. *)
Definition prologue (cfg : ResearchConfig) (s : AppState) : AppState :=
  let s1 := setResumeResolver false (setIsCancelled false (setIsPaused false s)) in
  let s2 := setProcessedCount 0 (setActiveConfig (Some cfg) (setStatus PROCESSING s1)) in
  match newColumnsToAdd cfg s with
  | [] => s2
  | _ :: _ => setColumns (columns s2 ++ newColumnsToAdd cfg s) s2
  end.

(** Lines 108-139: the call, up to its first [await]. *)
Definition handleStartResearch (cfg : ResearchConfig) (s : AppState) : Machine :=
  match data s with
  | [] =>
      {| app := s; config := cfg; newData := []; pc := Returned; fired := [] |}
  | _ :: _ =>
      let total := effectiveTotal cfg (length (data s)) in
      forLoop (batch_starts (BATCH_SIZE cfg) total)
        {| app := prologue cfg s; config := cfg; newData := data s;
           pc := Returned; fired := [] |}
  end.

(** ** Run control ([handlePause], [handleResume], [handleCancel]) *)

Definition handlePause (m : Machine) : Machine :=
  withApp (fun s => setStatus PAUSED (setIsPaused true s)) m.

(** The resolver, when one is stored, resolves the promise the loop awaits;
    the loop then runs on from there. *)
Definition release (m : Machine) : Machine :=
  if resumeResolverRef (app m) then
    let m1 := withApp (setResumeResolver false) m in
    match pc m with
    | AwaitResume i rest => afterWake (forLoop rest) i rest m1
    | _ => m1
    end
  else m.

Definition handleResume (m : Machine) : Machine :=
  release (withApp (fun s => setStatus PROCESSING (setIsPaused false s)) m).

Definition handleCancel (m : Machine) : Machine :=
  release (withApp (fun s => setStatus IDLE (setIsPaused false (setIsCancelled true s))) m).

(** ** Events of the run *)

Inductive Event :=
| EvPause
| EvResume
| EvCancel
| EvBatchSettled (results : list ResearchResult)  (* every promise fulfilled *)
| EvBatchRejected (e : JsError)                   (* a promise rejected *)
| EvTimer.                                        (* the sleep is over *)

(** The promises in flight while the loop awaits a batch: those built from
    the locals, which do not change while the loop is suspended. *)
Definition step (m : Machine) (ev : Event) : option Machine :=
  match ev with
  | EvPause => Some (handlePause m)
  | EvResume => Some (handleResume m)
  | EvCancel => Some (handleCancel m)
  | EvBatchSettled results =>
      match pc m with
      | AwaitBatch i rest =>
          match batchPromises (config m) (newData m) i with
          | Normal invs =>
              if decide (length results = length invs)
              then Some (settle (forLoop rest) i rest invs results m)
              else None
          | Throw _ => None
          end
      | _ => None
      end
  | EvBatchRejected e =>
      match pc m with
      | AwaitBatch _ _ => Some (withPc (Threw e) m)
      | _ => None
      end
  | EvTimer =>
      match pc m with
      | AwaitSleep _ rest => Some (forLoop rest m)
      | _ => None
      end
  end.

Fixpoint run (m : Machine) (evs : list Event) : option Machine :=
  match evs with
  | [] => Some m
  | ev :: evs' =>
      match step m ev with
      | Some m' => run m' evs'
      | None => None
      end
  end.

(** The states of a run started by [handleStartResearch cfg s0]. *)
Inductive reachable (cfg : ResearchConfig) (s0 : AppState) : Machine -> Prop :=
| reach_start : reachable cfg s0 (handleStartResearch cfg s0)
| reach_step m ev m' :
    reachable cfg s0 m -> step m ev = Some m' -> reachable cfg s0 m'.

(** ** Notions the properties are stated with *)

(** A value that contributes nothing to the subject: absent, empty, or
    white space only. *)
Definition blank (val : JsVal) : bool :=
  match val with
  | Undefined => true
  | Str s => forallb is_ws s
  | Inherited _ => false
  end.

(** A value read from a row that is a string or [undefined]. *)
Definition plain (val : JsVal) : bool :=
  match val with
  | Inherited _ => false
  | _ => true
  end.

(** Every target column reads a string or [undefined] from the row: no
    target column that the row lacks names a property of
    [Object.prototype]. *)
Definition resolvable (config : ResearchConfig) (row : CsvRow) : bool :=
  forallb (fun col => plain (Row.get row col)) (targetColumns config).

(** The rows a run reads, those below the effective total, are
    resolvable. *)
Definition rows_resolvable (config : ResearchConfig) (rows : list CsvRow) : bool :=
  forallb (resolvable config) (take (effectiveTotal config (length rows)) rows).

(** The subject in closed form: the values of the target columns that are
    present and not blank, as they stand, joined by a space. *)
Definition subject_kept (config : ResearchConfig) (row : CsvRow) : jsstring :=
  join (js " ")
    (List.map join_elem
       (List.filter (fun v => negb (blank v))
          (List.map (Row.get row) (targetColumns config)))).

(** The subject as the specification words it: every value trimmed, the
    empty ones dropped, the others joined by a space. *)
Definition subject_trimmed (config : ResearchConfig) (row : CsvRow) : jsstring :=
  join (js " ")
    (List.filter nonempty
       (List.map (fun col => trim (join_elem (Row.get row col)))
          (targetColumns config))).

(** [config] with other target columns. *)
Definition withTargetColumns (cols : list jsstring) (config : ResearchConfig)
  : ResearchConfig :=
  {| targetColumns := cols; tasks := tasks config;
     useThinkingModel := useThinkingModel config; rowLimit := rowLimit config |}.

(** The value read at [rows[j][col]]; [undefined] also stands for a row
    that the table does not have. *)
Definition cell (rows : list CsvRow) (j : nat) (col : jsstring) : JsVal :=
  match rows !! j with
  | Some row => Row.get row col
  | None => Undefined
  end.

(** The tag of a promise: [(rowIndex, taskIndex)]. *)
Definition tag (inv : Invocation) : nat * nat := (rowIndex inv, taskIndex inv).

(** A row the run does not process: it has no subject, or it lies past the
    row limit. *)
Definition passed_over (cfg : ResearchConfig) (len j : nat) (row : CsvRow) : Prop :=
  subject_kept cfg row = [] \/ effectiveTotal cfg len <= j.

(** ** Invariants of a run *)

(** What the loop leaves alone between two [await]s: the config, the flags,
    the header and [newData]; it may publish [newData] and set the status
    to [COMPLETED]. *)
Definition control_frame (m m' : Machine) : Prop :=
  activeConfig (app m') = activeConfig (app m)
  /\ isCancelledRef (app m') = isCancelledRef (app m)
  /\ isPausedRef (app m') = isPausedRef (app m)
  /\ columns (app m') = columns (app m)
  /\ config m' = config m
  /\ newData m' = newData m
  /\ (data (app m') = data (app m) \/ data (app m') = newData m)
  /\ (status (app m') = status (app m) \/ status (app m') = COMPLETED).

(** A suspended [await waitForResume()] has its resolver in
    [resumeResolverRef]. *)
Definition resolver_stored (m : Machine) : Prop :=
  forall i rest, pc m = AwaitResume i rest -> resumeResolverRef (app m) = true.

(** What holds of every promise built for the batch that starts at [i]:
    its row lies in the batch, has a subject, and its task exists. *)
Definition tagged (cfg : ResearchConfig) (rows : list CsvRow) (i : nat)
    (inv : Invocation) : Prop :=
  i <= rowIndex inv
  /\ rowIndex inv < batchEnd (BATCH_SIZE cfg) i (effectiveTotal cfg (length rows))
  /\ exists row t,
       rows !! rowIndex inv = Some row
       /\ nonempty (subject_kept cfg row) = true
       /\ tasks cfg !! taskIndex inv = Some t.

(** The effects of a step of the run on the tables, one at a time. *)
Inductive table_step : Machine -> Machine -> Prop :=
| ts_app m f :
    (forall s, data (f s) = data s) -> (forall s, columns (f s) = columns s) ->
    table_step m (withApp f m)
| ts_pc m p : table_step m (withPc p m)
| ts_publish m : table_step m (withApp (setData (newData m)) m)
| ts_fire m i :
    table_step m (withFired (fired m ++ batchCalls (config m) (newData m) i) m)
| ts_merge m i invs results merged newSources :
    batchPromises (config m) (newData m) i = Normal invs ->
    length results = length invs ->
    mergeResults (config m) (newData m, ∅) (zip invs results)
      = Normal (merged, newSources) ->
    table_step m (withNewData merged m).

(** Row [j] of the table is still [row], and no invocation was fired for
    it. *)
Definition row_kept (cfg : ResearchConfig) (len j : nat) (row : CsvRow)
    (m : Machine) : Prop :=
  config m = cfg
  /\ length (newData m) = len
  /\ newData m !! j = Some row
  /\ data (app m) !! j = Some row
  /\ forall inv, inv ∈ fired m -> rowIndex inv <> j.

(** The header is [cols] and the keys of every row are among [cols]. *)
Definition keys_within (cfg : ResearchConfig) (cols : list jsstring)
    (m : Machine) : Prop :=
  config m = cfg
  /\ columns (app m) = cols
  /\ (forall row, row ∈ newData m -> Row.keys row ⊆ cols)
  /\ (forall row, row ∈ data (app m) -> Row.keys row ⊆ cols).

(** The tables of a call on an empty table. *)
Definition empty_tables (cols : list jsstring) (m : Machine) : Prop :=
  columns (app m) = cols /\ newData m = [] /\ data (app m) = [].

(** The values of [i] that follow [i] in the loop header. *)
Definition following (cfg : ResearchConfig) (total i : nat) : list nat :=
  match BATCH_SIZE cfg with
  | Fin b => starts_from total (i + b) b total
  | Infinity => []
  end.

(** A suspended loop is inside the [for] loop, at some [i] below the total,
    and still has to run through the values that follow [i]; it sleeps only
    when rows remain after the batch. *)
Definition on_schedule (m : Machine) : Prop :=
  forall i rest,
    pc m = AwaitResume i rest \/ pc m = AwaitBatch i rest \/ pc m = AwaitSleep i rest ->
    let total := effectiveTotal (config m) (length (newData m)) in
    i < total
    /\ rest = following (config m) total i
    /\ (pc m = AwaitSleep i rest -> batchEnd (BATCH_SIZE (config m)) i total < total).

(** The values of [i] still to run through, seen from the loop test. *)
Definition scheduled (cfg : ResearchConfig) (total : nat) (starts : list nat) : Prop :=
  starts = [] \/ exists i, i < total /\ starts = i :: following cfg total i.

(** ** Example tables, configs and runs *)

Definition task_ceo : ResearchTask :=
  {| id := js "1"; newColumnName := js "CEO"; prompt := js "Who is the CEO?" |}.

Definition task_site : ResearchTask :=
  {| id := js "2"; newColumnName := js "Website"; prompt := js "Official website?" |}.

Definition config_name_only : ResearchConfig :=
  {| targetColumns := [js "Name"]; tasks := [];
     useThinkingModel := false; rowLimit := None |}.

(** What the control panel submits: one task, [rowLimit: 0]. *)
Definition config_ceo : ResearchConfig :=
  {| targetColumns := [js "Name"]; tasks := [task_ceo];
     useThinkingModel := false; rowLimit := Some 0%Z |}.

(** Two tasks with the thinking model: batches of one row. *)
Definition config_thinking : ResearchConfig :=
  {| targetColumns := [js "Name"]; tasks := [task_ceo; task_site];
     useThinkingModel := true; rowLimit := None |}.

(** One task and a limit of two rows. *)
Definition config_limit2 : ResearchConfig :=
  {| targetColumns := [js "Name"]; tasks := [task_ceo];
     useThinkingModel := false; rowLimit := Some 2%Z |}.

(** A target column that names a property of [Object.prototype]. *)
Definition config_constructor : ResearchConfig :=
  {| targetColumns := [js "Name"; js "constructor"]; tasks := [task_ceo];
     useThinkingModel := false; rowLimit := Some 0%Z |}.

Definition row_acme : CsvRow := [(js "Name", js "Acme")].
Definition row_blank : CsvRow := [(js "Name", js "  ")].

Definition app_of (rows : list CsvRow) (cols : list jsstring)
    (st : ProcessingStatus) (count : nat) : AppState :=
  {| data := rows; columns := cols; status := st; processedCount := count;
     activeConfig := None; cellSources := ∅; isPausedRef := false;
     isCancelledRef := false; resumeResolverRef := false |}.

(** Three rows, the second blank. *)
Definition app_three : AppState :=
  app_of [row_acme; row_blank; row_acme] [js "Name"] IDLE 0.

Definition result_bob : ResearchResult := {| text := js "Bob"; sources := [] |}.
Definition result_error : ResearchResult := {| text := js "Error"; sources := [] |}.

(** A run over a blank row and a plain one, paused during the first sleep
    and suspended at the top of the second iteration. *)
Definition machine_suspended : Machine :=
  let m0 := handleStartResearch config_thinking
              (app_of [row_blank; row_acme] [js "Name"] IDLE 0) in
  default m0 (run m0 [EvPause; EvTimer]).

(** The run of [config_limit2] over [app_three], once its only batch has
    settled. *)
Definition machine_done : Machine :=
  let m0 := handleStartResearch config_limit2 app_three in
  default m0 (run m0 [EvBatchSettled [result_bob]]).

(** Two plain rows in one batch, and the promises of that batch. *)
Definition machine_two : Machine :=
  handleStartResearch config_ceo (app_of [row_acme; row_acme] [js "Name"] IDLE 0).

Definition invs_two : list Invocation :=
  match batchPromises (config machine_two) (newData machine_two) 0 with
  | Normal invs => invs
  | Throw _ => []
  end.

(** The row and the config of the specification's resolution example. *)
Definition row_notes : CsvRow :=
  [(js "Name", js "Acme"); (js "City", js "  "); (js "Notes", js "x")].

Definition config_name_city : ResearchConfig :=
  {| targetColumns := [js "Name"; js "City"]; tasks := [task_ceo];
     useThinkingModel := false; rowLimit := None |}.

Definition config_limit (l : option Z) : ResearchConfig :=
  {| targetColumns := [js "Name"]; tasks := [task_ceo];
     useThinkingModel := false; rowLimit := l |}.

(** ** Progress, plan and provenance of a run *)

(** The promises the loop builds for the rows [0 .. n-1] of [rows], in the
    order it builds them; a row whose resolution throws has none. *)
Definition plan (cfg : ResearchConfig) (rows : list CsvRow) (n : nat)
  : list Invocation :=
  concat (List.map (fun j => pushed (rowPromises cfg rows j)) (seq 0 n)).

(** The run of [cfg] over the table [rows0] stands as follows: the rows below
    the counter are published, the promises of the rows below [f] are fired
    and these rows were resolved without an exception, the rows from the
    counter on are still those of [rows0], and the published table is the
    working copy. *)
Definition standing (cfg : ResearchConfig) (rows0 : list CsvRow) (f : nat)
    (m : Machine) : Prop :=
  config m = cfg
  /\ length (newData m) = length rows0
  /\ processedCount (app m) <= f
  /\ f <= effectiveTotal cfg (length rows0)
  /\ (forall j, processedCount (app m) <= j -> newData m !! j = rows0 !! j)
  /\ fired m = plan cfg rows0 f
  /\ data (app m) = newData m
  /\ (forall j row, j < f -> rows0 !! j = Some row -> resolvable cfg row = true).

(** The counter and the status at each point of the program. *)
Definition run_inv (cfg : ResearchConfig) (rows0 : list CsvRow) (m : Machine) : Prop :=
  exists f,
    standing cfg rows0 f m
    /\ match pc m with
       | AwaitResume i _ =>
           processedCount (app m) = i /\ f = i /\ status (app m) <> COMPLETED
       | AwaitBatch i _ =>
           processedCount (app m) = i
           /\ f = batchEnd (BATCH_SIZE cfg) i (effectiveTotal cfg (length rows0))
           /\ status (app m) <> COMPLETED
       | AwaitSleep i _ =>
           processedCount (app m)
             = batchEnd (BATCH_SIZE cfg) i (effectiveTotal cfg (length rows0))
           /\ f = processedCount (app m)
           /\ status (app m) <> COMPLETED
       | Returned =>
           f = processedCount (app m)
           /\ (status (app m) = COMPLETED ->
               processedCount (app m) = effectiveTotal cfg (length rows0))
       | Threw _ => status (app m) <> COMPLETED
       end.

(** What holds when the loop header tests [i]: the counter is [i], or the
    total when no value of [i] is left. *)
Definition loop_ready (cfg : ResearchConfig) (rows0 : list CsvRow)
    (starts : list nat) (m : Machine) : Prop :=
  standing cfg rows0 (processedCount (app m)) m
  /\ status (app m) <> COMPLETED
  /\ scheduled cfg (effectiveTotal cfg (length rows0)) starts
  /\ processedCount (app m) =
       match starts with
       | [] => effectiveTotal cfg (length rows0)
       | i :: _ => i
       end.

(** ** The progress bar ([App], lines 249-254) *)

(** [status === PROCESSING || status === PAUSED || status === COMPLETED] *)
Definition isActiveOrComplete (s : AppState) : bool :=
  match status s with
  | PROCESSING | PAUSED | COMPLETED => true
  | IDLE => false
  end.

(** [isActiveOrComplete && activeConfig?.rowLimit && activeConfig.rowLimit > 0
     ? Math.min(data.length, activeConfig.rowLimit) : data.length] *)
Definition displayTotal (s : AppState) : nat :=
  if isActiveOrComplete s then
    match activeConfig s with
    | Some c =>
        match rowLimit c with
        | Some l => if (0 <? l)%Z then Nat.min (length (data s)) (Z.to_nat l)
                    else length (data s)
        | None => length (data s)
        end
    | None => length (data s)
    end
  else length (data s).

(** ** An undisturbed run *)

(** The event that answers a suspended loop when nobody touches the controls
    and every invocation fulfils, with the result [oracle] gives for it: the
    batch in flight settles, the sleep ends. *)
Definition respond (oracle : Invocation -> ResearchResult) (m : Machine)
  : option Event :=
  match pc m with
  | AwaitBatch i _ =>
      match batchPromises (config m) (newData m) i with
      | Normal invs => Some (EvBatchSettled (oracle <$> invs))
      | Throw _ => None
      end
  | AwaitSleep _ _ => Some EvTimer
  | _ => None
  end.

(** The run under [respond], for at most [fuel] events. *)
Fixpoint autoRun (oracle : Invocation -> ResearchResult) (fuel : nat)
    (m : Machine) : Machine :=
  match fuel with
  | O => m
  | S fuel' =>
      match respond oracle m with
      | Some ev =>
          match step m ev with
          | Some m' => autoRun oracle fuel' m'
          | None => m
          end
      | None => m
      end
  end.

(** The run has ended in Completed. *)
Definition finished (m : Machine) : Prop :=
  pc m = Returned /\ status (app m) = COMPLETED.

(** ** Cell edits ([handleCellUpdate], [App], lines 61-70) *)

(** The array [setData] receives: [newData[rowIndex] = {...newData[rowIndex],
    [column]: value}] on a copy of [prevData].  The array is given by its
    slots, [None] being an index it has no element at: an index past the end
    extends the array and leaves holes before the new row. *)
Definition handleCellUpdate (rowIndex : nat) (column value : jsstring)
    (prevData : list CsvRow) : list (option CsvRow) :=
  let row := Row.set (default [] (prevData !! rowIndex)) column value in
  if decide (rowIndex < length prevData)
  then Some <$> <[rowIndex := row]> prevData
  else (Some <$> prevData) ++ replicate (rowIndex - length prevData) None ++ [Some row].

(** ** The control panel ([AgentControlPanel]) *)

Module Panel.

(** [toggleTargetColumn], as the new value of [targetColumns]. *)
Definition toggleTargetColumn (isProcessing : bool) (col : jsstring)
    (prev : list jsstring) : list jsstring :=
  if isProcessing then prev
  else if includes prev col then
    if decide (length prev = 1) then prev
    else List.filter (fun c => negb (bool_decide (c = col))) prev
  else prev ++ [col].

Section Sync.

(** [c.toLowerCase().includes('name') || c.toLowerCase().includes('company')] *)
Variable nameLike : jsstring -> bool.

(** The effect that follows a change of [columns]. *)
Definition syncTargetColumns (columns prev : list jsstring) : list jsstring :=
  let validColumns := List.filter (includes columns) prev in
  match validColumns, columns with
  | [], first :: _ =>
      match List.find nameLike columns with
      | Some nameCol => if nonempty nameCol then [nameCol] else [first]
      | None => [first]
      end
  | _, _ => validColumns
  end.

End Sync.

(** [handleRemoveTask] *)
Definition handleRemoveTask (taskId : jsstring) (tasks : list ResearchTask)
  : list ResearchTask :=
  match tasks with
  | [only] => [{| id := id only; newColumnName := []; prompt := [] |}]
  | _ => List.filter (fun t => negb (bool_decide (id t = taskId))) tasks
  end.



End Panel.

(** ** The sheet ([UniverSheet]) *)

Module Sheet.

(** The [while (index >= 0)] loop of [getColumnLetter]; [fuel] bounds the
    number of iterations ([columnLetterLoop_fuel] shows which fuel is
    enough). *)
Fixpoint columnLetterLoop (fuel : nat) (index : Z) (letter : jsstring) : jsstring :=
  match fuel with
  | O => letter
  | S fuel' =>
      if (0 <=? index)%Z
      then columnLetterLoop fuel' (index / 26 - 1)
             (Z.to_N (index mod 26 + 65) :: letter)
      else letter
  end.

(** [getColumnLetter], on an integer index. *)
Definition getColumnLetter (index : Z) : jsstring :=
  columnLetterLoop (Z.to_nat (index + 1)) index [].

(** The value of a column name read as a number in base 26 with the digits
    [A] = 1 .. [Z] = 26. *)
Definition letterValue (s : jsstring) : Z :=
  fold_left (fun acc c => (acc * 26 + (Z.of_N c - 64))%Z) s 0%Z.

(** [columnsRequireRebuild] *)
Fixpoint differsAt (prevColumns columns : list jsstring) : bool :=
  match prevColumns with
  | [] => false
  | p :: prevColumns' =>
      match columns with
      | c :: columns' =>
          if decide (p = c) then differsAt prevColumns' columns' else true
      | [] => true     (* [columns[i]] is [undefined] *)
      end
  end.

Definition columnsRequireRebuild (prevColumns columns : list jsstring) : bool :=
  if length columns <? length prevColumns then true
  else differsAt prevColumns columns.

(** [selectedColumns.map(col => row[col] || '').join('|||')] *)
Definition duplicateKey (selectedColumns : list jsstring) (row : CsvRow) : jsstring :=
  join (js "|||") (List.map (fun col => join_elem (Row.get row col)) selectedColumns).

(** The [forEach] of [handleRemoveDuplicates]: the set [seen] and the array
    [uniqueData] after the rows of [data]. *)
Fixpoint uniqueRows (selectedColumns : list jsstring) (data : list CsvRow)
    (seen : gset jsstring) (uniqueData : list CsvRow)
  : gset jsstring * list CsvRow :=
  match data with
  | [] => (seen, uniqueData)
  | row :: rest =>
      let key := duplicateKey selectedColumns row in
      if decide (key ∈ seen)
      then uniqueRows selectedColumns rest seen uniqueData
      else uniqueRows selectedColumns rest ({[key]} ∪ seen) (uniqueData ++ [row])
  end.

(** [handleRemoveDuplicates], with the [onDataChange] that [App] passes:
    the table given to [onDataChange] and the number of rows the alert
    reports; nothing when no column is selected. *)
Definition handleRemoveDuplicates (selectedColumns : list jsstring)
    (data : list CsvRow) : option (list CsvRow * nat) :=
  match selectedColumns with
  | [] => None
  | _ :: _ =>
      let uniqueData := (uniqueRows selectedColumns data ∅ []).2 in
      Some (uniqueData, length data - length uniqueData)
  end.

(** The [forEach] of [calculateDuplicates]. *)
Fixpoint countDuplicates (selectedColumns : list jsstring) (data : list CsvRow)
    (seen : gset jsstring) (duplicates : nat) : nat :=
  match data with
  | [] => duplicates
  | row :: rest =>
      let key := duplicateKey selectedColumns row in
      if decide (key ∈ seen)
      then countDuplicates selectedColumns rest seen (S duplicates)
      else countDuplicates selectedColumns rest ({[key]} ∪ seen) duplicates
  end.

(** [calculateDuplicates]: the new [duplicateCount], [null] when no column
    is selected. *)
Definition calculateDuplicates (selectedColumns : list jsstring)
    (data : list CsvRow) : option nat :=
  match selectedColumns with
  | [] => None
  | _ :: _ => Some (countDuplicates selectedColumns data ∅ 0)
  end.

End Sheet.

(** ** Further example runs *)

Definition app_two : AppState := app_of [row_acme; row_acme] [js "Name"] IDLE 0.

Definition result_sourced : ResearchResult :=
  {| text := js "Bob";
     sources := [{| title := js "Acme"; uri := js "https://acme.example" |}] |}.

(** The run of [machine_two] once its batch has settled, the first result
    carrying a source. *)
Definition machine_sourced : Machine :=
  default machine_two (run machine_two [EvBatchSettled [result_sourced; result_bob]]).

Definition oracle_bob (inv : Invocation) : ResearchResult := result_bob.

(** ** The run with the invoker *)

(** While the loop awaits a batch, the batch built from its locals has a
    promise. *)
Definition in_flight (m : Machine) : Prop :=
  forall i rest, pc m = AwaitBatch i rest ->
    exists inv invs, batchPromises (config m) (newData m) i = Normal (inv :: invs).

Section Service.

(** [process.env.API_KEY || ''], and what [ai.models.generateContent] does
    on the call made for an invocation. *)
Variable apiKey : jsstring.
Variable generateContent :
  Invocation -> Invoker.GenerateContentRequest -> Invoker.ProviderOutcome.

(** Lines 177-182: the call behind one promise of a batch. *)
Definition invoke (inv : Invocation) : Completion ResearchResult :=
  Invoker.researchEntity apiKey (generateContent inv)
    (inv_entityName inv) (inv_prompt inv) (Str (inv_context inv)) (inv_thinking inv).

(** [Promise.all]: fulfilled with every result, or rejected with the reason
    of the first promise of the array that is rejected (a call of
    [researchEntity] that throws does so before its first [await], so the
    rejections come in the order of the array). *)
Fixpoint promiseAll (outcomes : list (Completion ResearchResult))
  : Completion (list ResearchResult) :=
  match outcomes with
  | [] => Normal []
  | outcome :: rest =>
      let! r := outcome in
      let! rs := promiseAll rest in
      Normal (r :: rs)
  end.

(** The event that answers a suspended loop when nobody touches the
    controls: the batch in flight settles or rejects as the invoker makes
    it, the sleep ends. *)
Definition serviceEvent (m : Machine) : option Event :=
  match pc m with
  | AwaitBatch i _ =>
      match batchPromises (config m) (newData m) i with
      | Normal invs =>
          Some match promiseAll (invoke <$> invs) with
               | Normal results => EvBatchSettled results
               | Throw e => EvBatchRejected e
               end
      | Throw _ => None
      end
  | AwaitSleep _ _ => Some EvTimer
  | _ => None
  end.

(** The run under [serviceEvent], for at most [fuel] events. *)
Fixpoint serviceRun (fuel : nat) (m : Machine) : Machine :=
  match fuel with
  | O => m
  | S fuel' =>
      match serviceEvent m with
      | Some ev =>
          match step m ev with
          | Some m' => serviceRun fuel' m'
          | None => m
          end
      | None => m
      end
  end.

(** What a call that does not throw returns. *)
Definition invokeResult (inv : Invocation) : ResearchResult :=
  match invoke inv with
  | Normal r => r
  | Throw _ => {| text := js "Error"; sources := [] |}
  end.

End Service.

Definition provider_down (inv : Invocation) (req : Invoker.GenerateContentRequest)
  : Invoker.ProviderOutcome := Invoker.ProviderThrows.

(** ** The table of a completed run *)

(** Every call made for a row below the counter has its answer in the
    working copy, in the column of its task. *)
Definition answered (oracle : Invocation -> ResearchResult) (m : Machine) : Prop :=
  forall inv t,
    inv ∈ fired m ->
    rowIndex inv < processedCount (app m) ->
    tasks (config m) !! taskIndex inv = Some t ->
    cell (newData m) (rowIndex inv) (newColumnName t) = Str (text (oracle inv)).

(** Two plain rows and two tasks with the thinking model: batches of one
    row, two promises each. *)
Definition app_pair : AppState := app_of [row_acme; row_acme] [js "Name"] IDLE 0.

Definition machine_pair : Machine := handleStartResearch config_thinking app_pair.

Definition invs_pair : list Invocation :=
  pushed (batchPromises config_thinking (newData machine_pair) 0).

(** ** Updates of the application state from outside the run *)

(** What happens around a suspended run: an event of the run, or an update
    of the application state made elsewhere (a cell edit, a removal of
    duplicates, the prologue of a further call of [handleStartResearch],
    which resets the flags the suspended call reads). *)
Inductive Action :=
| RunEvent (ev : Event)
| Outside (g : AppState -> AppState).

Definition act (m : Machine) (a : Action) : option Machine :=
  match a with
  | RunEvent ev => step m ev
  | Outside g => Some (withApp g m)
  end.

Fixpoint acts (m : Machine) (l : list Action) : option Machine :=
  match l with
  | [] => Some m
  | a :: l' =>
      match act m a with
      | Some m' => acts m' l'
      | None => None
      end
  end.

(** The action leaves a set cancel flag set. *)
Definition keeps_cancel (a : Action) : Prop :=
  match a with
  | RunEvent _ => True
  | Outside g => forall s, isCancelledRef s = true -> isCancelledRef (g s) = true
  end.

(** * Properties *)

(** ** Strings *)

Lemma trimStart_nil (s : jsstring) :
  trimStart s = [] <-> forallb is_ws s = true.
Proof.
  induction s as [|c s IH]; simpl; [tauto|].
  destruct (is_ws c) eqn:Hc; simpl; [exact IH|].
  split; intros H; discriminate H.
Qed.

Lemma trimStart_head (s : jsstring) c s' :
  trimStart s = c :: s' -> is_ws c = false.
Proof.
  induction s as [|d s IH]; simpl; [discriminate|].
  destruct (is_ws d) eqn:Hd; [exact IH|].
  intros H; injection H as -> _; exact Hd.
Qed.

Lemma forallb_rev {A} (p : A -> bool) (l : list A) :
  forallb p (rev l) = forallb p l.
Proof.
  induction l as [|x l IH]; simpl; [reflexivity|].
  rewrite forallb_app, IH; simpl.
  destruct (p x), (forallb p l); reflexivity.
Qed.

(** A string trims to the empty string exactly when it is made of white
    space only. *)
Lemma trim_nil (s : jsstring) :
  trim s = [] <-> forallb is_ws s = true.
Proof.
  unfold trim, trimEnd. split.
  - intros H. apply (f_equal (@rev N)) in H. rewrite rev_involutive in H.
    simpl in H. apply trimStart_nil in H. rewrite forallb_rev in H.
    destruct (trimStart s) as [|c s'] eqn:Hs; [now apply trimStart_nil|].
    apply trimStart_head in Hs. simpl in H. rewrite Hs in H. discriminate H.
  - intros H. apply trimStart_nil in H. rewrite H. reflexivity.
Qed.

Lemma nonempty_trim (s : jsstring) :
  nonempty (trim s) = negb (forallb is_ws s).
Proof.
  destruct (forallb is_ws s) eqn:H.
  - apply trim_nil in H. rewrite H. reflexivity.
  - destruct (trim s) eqn:Ht; [|reflexivity].
    apply trim_nil in Ht. congruence.
Qed.

(** ** Entity resolver *)

Lemma entity_filter_blank (val : JsVal) :
  plain val = true -> entity_filter val = Normal (negb (blank val)).
Proof.
  destruct val as [|s|p]; [reflexivity| |discriminate]. intros _.
  unfold entity_filter; simpl.
  destruct s as [|c s]; [reflexivity|].
  simpl nonempty; cbv iota. simpl cbind.
  now rewrite nonempty_trim.
Qed.

(** The filter of the resolver passes over every value: it throws as
    soon as one of them is not a string. *)
Lemma filterC_entity_filter (vals : list JsVal) :
  filterC entity_filter vals =
    if forallb plain vals
    then Normal (List.filter (fun v => negb (blank v)) vals)
    else Throw TypeError.
Proof.
  induction vals as [|v vals IH]; simpl; [reflexivity|].
  destruct (plain v) eqn:Hv; simpl.
  - rewrite (entity_filter_blank v Hv), IH. simpl.
    destruct (forallb plain vals); reflexivity.
  - destruct v as [| |p]; try discriminate Hv. reflexivity.
Qed.

Lemma resolvable_values (config : ResearchConfig) (row : CsvRow) :
  forallb plain (List.map (fun col => Row.get row col) (targetColumns config))
  = resolvable config row.
Proof.
  unfold resolvable. induction (targetColumns config) as [|c cols IH]; simpl;
    [reflexivity | now rewrite IH].
Qed.

(** Resolution returns the subject, or throws when a target column reads
    an inherited value. *)
Lemma entityName_resolves (config : ResearchConfig) (row : CsvRow) :
  entityName config row =
    if resolvable config row then Normal (subject_kept config row)
    else Throw TypeError.
Proof.
  unfold entityName, subject_kept.
  rewrite filterC_entity_filter, resolvable_values.
  destruct (resolvable config row); reflexivity.
Qed.

Lemma entityName_kept (config : ResearchConfig) (row : CsvRow) :
  resolvable config row = true ->
  entityName config row = Normal (subject_kept config row).
Proof. intros H. now rewrite entityName_resolves, H. Qed.

Lemma entityName_normal (config : ResearchConfig) (row : CsvRow) (name : jsstring) :
  entityName config row = Normal name ->
  resolvable config row = true /\ name = subject_kept config row.
Proof.
  rewrite entityName_resolves. destruct (resolvable config row); [|discriminate].
  intros H. injection H as <-. split; reflexivity.
Qed.

(** C1, as stated, fails: a value with surrounding white space enters the
    subject untrimmed. *)
Lemma C1_subject_not_trimmed :
  entityName config_name_only [(js "Name", js " Acme ")] = Normal (js " Acme ")
  /\ subject_trimmed config_name_only [(js "Name", js " Acme ")] = js "Acme"
  /\ ~ (forall config row, entityName config row = Normal (subject_trimmed config row)).
Proof.
  split; [reflexivity|]. split; [reflexivity|].
  intros H. specialize (H config_name_only [(js "Name", js " Acme ")]).
  vm_compute in H. discriminate H.
Qed.

(** C1, amended: for every row and every config in which each target
    column reads a string or nothing from the row, the resolved subject is
    the values of [config.targetColumns] read from the row, the absent,
    empty and white-space-only values filtered out, the remaining values
    joined as they stand (not trimmed) with a single space, in
    [targetColumns] order. *)
Theorem C1_subject_untrimmed (config : ResearchConfig) (row : CsvRow) :
  resolvable config row = true ->
  entityName config row =
    Normal (join (js " ")
              (List.map join_elem
                 (List.filter (fun v => negb (blank v))
                    (List.map (Row.get row) (targetColumns config))))).
Proof. exact (entityName_kept config row). Qed.

Lemma C1_subject_untrimmed_witness :
  entityName config_name_city [(js "Name", js " Acme "); (js "City", js "Oslo")]
  = Normal (js " Acme  Oslo").
Proof.
  apply (C1_subject_untrimmed config_name_city
           [(js "Name", js " Acme "); (js "City", js "Oslo")]).
  reflexivity.
Defined.

(** The resolution example of the specification: a blank value is left out
    of the subject, and the context holds the other columns. *)
Example resolution_example :
  entityName config_name_city row_notes = Normal (js "Acme")
  /\ contextStr config_name_city row_notes = js "Notes: x".
Proof. split; reflexivity. Qed.

(** On a row whose target values carry no surrounding white space the
    subject is the one the specification words. *)
Lemma subject_trimmed_agrees (config : ResearchConfig) (row : CsvRow) :
  Forall (fun col => match Row.get row col with
                     | Str v => trim v = v
                     | Undefined => True
                     | Inherited _ => False
                     end) (targetColumns config) ->
  entityName config row = Normal (subject_trimmed config row).
Proof.
  intros H. rewrite entityName_kept.
  - f_equal. unfold subject_kept, subject_trimmed. f_equal.
    induction H as [|col cols Hcol _ IH]; simpl; [reflexivity|].
    destruct (Row.get row col) as [|v|p]; simpl; [exact IH| |contradiction].
    rewrite Hcol. rewrite <- (nonempty_trim v), Hcol.
    destruct (nonempty v); simpl; now rewrite IH.
  - unfold resolvable. induction H as [|col cols Hcol _ IH]; simpl; [reflexivity|].
    rewrite IH. destruct (Row.get row col); [reflexivity | reflexivity | contradiction].
Qed.

Lemma get_own (row : CsvRow) (col : jsstring) :
  col ∈ Row.keys row -> exists v, Row.get row col = Str v.
Proof.
  induction row as [|[k v] row IH]; simpl; intros Hin.
  - now apply elem_of_nil in Hin.
  - destruct (decide (k = col)) as [->|Hne]; [eauto|].
    apply elem_of_cons in Hin as [Hin|Hin]; [congruence | now apply IH].
Qed.

Lemma get_absent (row : CsvRow) (col : jsstring) :
  col ∉ Row.keys row ->
  Row.get row col = match inherited col with
                    | Some p => Inherited p
                    | None => Undefined
                    end.
Proof.
  induction row as [|[k v] row IH]; simpl; intros Hnot; [reflexivity|].
  apply not_elem_of_cons in Hnot as [Hk Hrest].
  rewrite decide_False by congruence. now apply IH.
Qed.

Lemma get_undefined (row : CsvRow) (col : jsstring) :
  Row.get row col = Undefined <-> (col ∉ Row.keys row) /\ inherited col = None.
Proof.
  destruct (decide (col ∈ Row.keys row)) as [Hin|Hnot].
  - destruct (get_own row col Hin) as [v ->]. split; [discriminate | tauto].
  - rewrite (get_absent row col Hnot).
    destruct (inherited col); split; try discriminate; try tauto.
    intros [_ H]; discriminate H.
Qed.

Lemma get_inherited (row : CsvRow) (col : jsstring) (p : ProtoProperty) :
  Row.get row col = Inherited p <-> (col ∉ Row.keys row) /\ inherited col = Some p.
Proof.
  destruct (decide (col ∈ Row.keys row)) as [Hin|Hnot].
  - destruct (get_own row col Hin) as [v ->]. split; [discriminate | tauto].
  - rewrite (get_absent row col Hnot).
    destruct (inherited col) as [q|]; split.
    + intros H; injection H as ->. tauto.
    + intros [_ H]; now injection H as ->.
    + discriminate.
    + intros [_ H]; discriminate H.
Qed.

Lemma get_app_absent (row : CsvRow) (col value c : jsstring) :
  col ∉ Row.keys row ->
  Row.get (row ++ [(col, value)]) c =
    if decide (col = c) then Str value else Row.get row c.
Proof.
  induction row as [|[k v] row IH]; simpl; intros Hnot.
  - reflexivity.
  - apply not_elem_of_cons in Hnot as [Hk Hrest].
    destruct (decide (k = c)) as [->|Hne].
    + destruct (decide (col = c)); [congruence | reflexivity].
    + now apply IH.
Qed.

Lemma elem_of_contextParts (config : ResearchConfig) (row : CsvRow) (part : jsstring) :
  part ∈ contextParts config row <->
  exists key val, (key, val) ∈ row
    /\ (key ∉ targetColumns config)
    /\ (forall t, t ∈ tasks config -> newColumnName t <> key)
    /\ part = key ++ js ": " ++ val.
Proof.
  unfold contextParts. rewrite list_elem_of_In, in_map_iff. split.
  - intros [[key val] [<- Hin]]. apply filter_In in Hin as [Hin Hf].
    exists key, val. unfold context_filter, includes, finds_task in Hf; simpl in Hf.
    apply andb_true_iff in Hf as [H1 H2].
    apply negb_true_iff in H1, H2. apply bool_decide_eq_false in H1.
    split; [now apply list_elem_of_In|]. split; [exact H1|]. split; [|reflexivity].
    intros t Ht Heq. apply not_true_iff_false in H2. apply H2.
    apply existsb_exists. exists t. split; [now apply list_elem_of_In|].
    now apply bool_decide_eq_true.
  - intros (key & val & Hin & Htarget & Htask & ->).
    exists (key, val). split; [reflexivity|].
    apply filter_In. split; [now apply list_elem_of_In|].
    unfold context_filter, includes, finds_task; simpl.
    apply andb_true_iff. split; apply negb_true_iff.
    + now apply bool_decide_eq_false.
    + apply not_true_iff_false. intros H. apply existsb_exists in H as (t & Ht & Heq).
      apply bool_decide_eq_true in Heq. apply (Htask t); [now apply list_elem_of_In | exact Heq].
Qed.

(** When resolution throws: a target column that the row lacks names a
    property of [Object.prototype]. *)
Lemma resolvable_false (config : ResearchConfig) (row : CsvRow) :
  resolvable config row = false <->
  exists col, col ∈ targetColumns config /\ (col ∉ Row.keys row)
              /\ is_Some (inherited col).
Proof.
  unfold resolvable. split.
  - intros H. apply not_true_iff_false in H.
    assert (Hex : exists col, col ∈ targetColumns config
                              /\ plain (Row.get row col) = false).
    { induction (targetColumns config) as [|c cols IH]; simpl in H; [now elim H|].
      destruct (plain (Row.get row c)) eqn:Hc.
      - destruct IH as (col & Hin & Hcol); [exact H|].
        exists col. split; [now apply list_elem_of_further | exact Hcol].
      - exists c. split; [apply list_elem_of_here | exact Hc]. }
    destruct Hex as (col & Hin & Hcol). exists col. split; [exact Hin|].
    destruct (Row.get row col) as [| |p] eqn:Hget; try discriminate Hcol.
    apply get_inherited in Hget as [Hnot Hp]. split; [exact Hnot | eauto].
  - intros (col & Hin & Hnot & p & Hp).
    apply not_true_iff_false. intros H.
    rewrite forallb_forall in H. specialize (H col).
    rewrite (proj2 (get_inherited row col p)) in H by tauto.
    discriminate H. now apply list_elem_of_In.
Qed.

Lemma kept_padded (row : CsvRow) (col : jsstring) (cols : list jsstring) :
  col ∉ Row.keys row -> inherited col = None ->
  List.filter (fun v => negb (blank v))
    (List.map (Row.get (row ++ [(col, [])])) cols)
  = List.filter (fun v => negb (blank v)) (List.map (Row.get row) cols)
  /\ forallb (fun c => plain (Row.get (row ++ [(col, [])]) c)) cols
     = forallb (fun c => plain (Row.get row c)) cols.
Proof.
  intros Hnot Hplain.
  assert (Hget : Row.get row col = Undefined) by (apply get_undefined; tauto).
  induction cols as [|c cols [IH1 IH2]]; simpl; [split; reflexivity|].
  rewrite get_app_absent by exact Hnot.
  destruct (decide (col = c)) as [<-|Hne].
  - rewrite Hget. simpl. split; [exact IH1 | exact IH2].
  - rewrite IH1, IH2. split; reflexivity.
Qed.

(** C10: the code breaks the claim on a row that lacks a target column
    named like a property of [Object.prototype].  On the row
    [{Name: 'Acme'}] with the target columns [Name] and [constructor] the
    read [row['constructor']] yields the inherited function, which passes
    the test [val &&], and [val.trim()] throws a [TypeError]; with the key
    present, or with a missing column of another name, the subject is
    resolved.  In general resolution throws exactly when a target column
    that the row lacks names a property of [Object.prototype]; a missing
    column of another name counts as an empty value, and the context has
    exactly the entries of the row that are neither target nor task
    columns. *)
Theorem C10_inherited_column_raises :
  entityName config_constructor row_acme = Throw TypeError
  /\ entityName config_constructor (row_acme ++ [(js "constructor", js "Ltd")])
     = Normal (js "Acme Ltd")
  /\ entityName config_name_city row_acme = Normal (js "Acme")
  /\ contextStr config_name_city row_notes = js "Notes: x"
  /\ (forall config row,
        (entityName config row = Throw TypeError <->
         exists col, col ∈ targetColumns config /\ (col ∉ Row.keys row)
                     /\ is_Some (inherited col))
        /\ ((forall col, col ∈ targetColumns config -> col ∉ Row.keys row ->
               inherited col = None) ->
            exists subject, entityName config row = Normal subject))
  /\ (forall config row col,
        col ∉ Row.keys row -> inherited col = None ->
        entityName config (row ++ [(col, [])]) = entityName config row)
  /\ (forall config row part,
        part ∈ contextParts config row <->
        exists key val, (key, val) ∈ row
          /\ (key ∉ targetColumns config)
          /\ (forall t, t ∈ tasks config -> newColumnName t <> key)
          /\ part = key ++ js ": " ++ val).
Proof.
  split; [vm_compute; reflexivity|]. split; [vm_compute; reflexivity|].
  split; [vm_compute; reflexivity|]. split; [vm_compute; reflexivity|].
  split; [|split].
  - intros config row. rewrite entityName_resolves. split.
    + rewrite <- resolvable_false.
      destruct (resolvable config row); split; try discriminate; reflexivity.
    + intros Hall. destruct (resolvable config row) eqn:Hres; [eauto|].
      apply resolvable_false in Hres as (col & Hin & Hnot & p & Hp).
      rewrite (Hall col Hin Hnot) in Hp. discriminate Hp.
  - intros config row col Hnot Hplain. rewrite !entityName_resolves.
    unfold resolvable, subject_kept.
    destruct (kept_padded row col (targetColumns config) Hnot Hplain) as [-> ->].
    reflexivity.
  - intros config row part. apply elem_of_contextParts.
Qed.

(** ** Batch planner *)

(** The effective totals the specification lists. *)
Example effectiveTotal_examples :
  effectiveTotal (config_limit (Some 30%Z)) 100 = 30
  /\ effectiveTotal (config_limit (Some 30%Z)) 20 = 20
  /\ effectiveTotal (config_limit None) 20 = 20
  /\ effectiveTotal (config_limit (Some 0%Z)) 20 = 20.
Proof. repeat split; reflexivity. Qed.

Lemma Qfloor_div_nat (a : Z) (n : nat) :
  Qfloor (inject_Z a / inject_Z (Z.of_nat (S n))) = (a / Z.of_nat (S n))%Z.
Proof.
  unfold Qdiv, Qmult, Qinv, inject_Z. simpl.
  rewrite Z.mul_1_r. reflexivity.
Qed.

Lemma planBatchSize_div (n : nat) (thinking : bool) :
  planBatchSize (S n) thinking =
    Fin (Nat.max 1 ((if thinking then 2 else 10) / S n)).
Proof.
  unfold planBatchSize. rewrite Qfloor_div_nat. f_equal.
  assert (Hb : concurrentLimit thinking = Z.of_nat (if thinking then 2 else 10))
    by (destruct thinking; reflexivity).
  rewrite Hb, <- Nat2Z.inj_div.
  change 1%Z with (Z.of_nat 1). rewrite <- Nat2Z.inj_max. apply Nat2Z.id.
Qed.

(** C8: for every number of tasks per row, at least 1, and either value
    of the quality flag, the planned batch size is
    [max(1, floor(budget / tasksPerRow))] with a budget of 2 with the
    thinking model and 10 without; 3 tasks without it give 3, 5 tasks with
    it give 1. *)
Theorem C8_batch_size (config : ResearchConfig) :
  1 <= length (tasks config) ->
  BATCH_SIZE config =
    Fin (Nat.max 1 ((if useThinkingModel config then 2 else 10) / length (tasks config)))
  /\ planBatchSize 3 false = Fin 3
  /\ planBatchSize 5 true = Fin 1.
Proof.
  intros Hlen. split; [|split; reflexivity].
  unfold BATCH_SIZE. destruct (length (tasks config)) as [|n]; [lia|].
  apply planBatchSize_div.
Qed.

Lemma C8_batch_size_witness :
  BATCH_SIZE config_ceo = Fin 10.
Proof.
  assert (H : 1 <= length (tasks config_ceo)) by (simpl; lia).
  exact (proj1 (C8_batch_size config_ceo H)).
Defined.

(** ** Research task invoker *)

Import Invoker.

(** C7, as stated, fails: without an API key the invoker raises. *)
Lemma C7_missing_key_raises :
  researchEntity [] (fun _ => ProviderThrows) (js "Acme") (js "CEO?") (Str []) false
    = Throw (ErrorMsg missing_key_message)
  /\ ~ (forall apiKey generateContent entityName userQuery context thinking,
          exists r, researchEntity apiKey generateContent entityName userQuery
                      context thinking = Normal r).
Proof.
  split; [reflexivity|].
  intros H.
  destruct (H [] (fun _ => ProviderThrows) (js "Acme") (js "CEO?") (Str []) false)
    as [r Hr].
  discriminate Hr.
Qed.

(** C7, amended: with an API key configured, the invoker never raises, for
    every subject, prompt, context and quality flag: when the provider call
    fails it returns [{text: "Error", sources: []}], and when the response
    carries no text it returns the text ["N/A"] with the sources of the
    response's grounding chunks (none when there are no chunks).  Without
    an API key it raises before calling the provider. *)
Theorem C7_invoker_with_key (apiKey : jsstring)
    (generateContent : GenerateContentRequest -> ProviderOutcome)
    (entityName userQuery : jsstring) (context : JsVal) (thinking : bool) :
  (apiKey <> [] ->
   exists r,
     researchEntity apiKey generateContent entityName userQuery context thinking
       = Normal r
     /\ match generateContent (buildRequest entityName userQuery context thinking) with
        | ProviderThrows => r = {| text := js "Error"; sources := [] |}
        | ProviderResponds response =>
            (response_text response = None \/ response_text response = Some [] ->
             text r = js "N/A")
            /\ (groundingChunks response = None -> sources r = [])
            /\ (forall chunks, groundingChunks response = Some chunks ->
                  sources r = chunk_sources chunks)
        end)
  /\ (apiKey = [] ->
      researchEntity apiKey generateContent entityName userQuery context thinking
        = Throw (ErrorMsg missing_key_message)).
Proof.
  split.
  - intros Hkey. unfold researchEntity.
    destruct apiKey as [|c key]; [congruence|]. simpl negb; cbv iota.
    destruct (generateContent _) as [|response]; eexists; (split; [reflexivity|]).
    + reflexivity.
    + simpl. split; [|split].
      * intros [-> | ->]; reflexivity.
      * intros ->; reflexivity.
      * intros chunks ->; reflexivity.
  - intros ->. reflexivity.
Qed.

Lemma C7_invoker_with_key_witness :
  js "key" <> []
  /\ researchEntity (js "key") (fun _ => ProviderThrows) (js "Acme") (js "CEO?")
       (Str []) false = Normal {| text := js "Error"; sources := [] |}.
Proof.
  assert (Hkey : js "key" <> []) by discriminate.
  split; [exact Hkey|].
  destruct (proj1 (C7_invoker_with_key (js "key") (fun _ => ProviderThrows)
                     (js "Acme") (js "CEO?") (Str []) false) Hkey) as [r [Hr Herr]].
  simpl in Herr. rewrite Hr, Herr. reflexivity.
Defined.

(** ** The start of a run *)

Lemma control_frame_refl (m : Machine) : control_frame m m.
Proof. unfold control_frame; tauto. Qed.

Lemma control_frame_trans (m1 m2 m3 : Machine) :
  control_frame m1 m2 -> control_frame m2 m3 -> control_frame m1 m3.
Proof.
  unfold control_frame.
  intros (A1 & B1 & C1 & D1 & E1 & N1 & T1 & F1) (A2 & B2 & C2 & D2 & E2 & N2 & T2 & F2).
  repeat split; try congruence.
  - destruct T2 as [T2|T2]; [rewrite T2; exact T1 | right; congruence].
  - destruct F2 as [F2|F2]; [rewrite F2; exact F1 | right; exact F2].
Qed.

Lemma publish_control_frame (k : Machine -> Machine) i rest m :
  (forall m0, control_frame m0 (k m0)) -> control_frame m (publish k i rest m).
Proof.
  intros Hk. unfold publish.
  destruct (_ <? _).
  - unfold control_frame; simpl; tauto.
  - eapply control_frame_trans; [|apply Hk].
    unfold control_frame; simpl; tauto.
Qed.

Lemma fire_control_frame (k : Machine -> Machine) i rest m :
  (forall m0, control_frame m0 (k m0)) -> control_frame m (fire k i rest m).
Proof.
  intros Hk. unfold fire.
  destruct (batchPromises _ _ _) as [[|inv invs]|e].
  - now apply publish_control_frame.
  - unfold control_frame; simpl; tauto.
  - unfold control_frame; simpl; tauto.
Qed.

Lemma forLoop_control_frame (starts : list nat) (m : Machine) :
  control_frame m (forLoop starts m).
Proof.
  revert m. induction starts as [|i rest IH]; intros m; simpl.
  - unfold control_frame; simpl; tauto.
  - unfold iteration.
    destruct (isCancelledRef (app m)); [unfold control_frame; simpl; tauto|].
    destruct (isPausedRef (app m)); [unfold control_frame; simpl; tauto|].
    now apply fire_control_frame.
Qed.

(** C3, as stated, fails: a start while the state is Processing is carried
    out; it resets the counter and fires the invocations of a first batch. *)
Lemma C3_start_while_processing_runs :
  let s := app_of [row_acme] [js "Name"] PROCESSING 1 in
  status s = PROCESSING
  /\ app (handleStartResearch config_ceo s) <> s
  /\ processedCount (app (handleStartResearch config_ceo s)) = 0
  /\ length (fired (handleStartResearch config_ceo s)) = 1.
Proof.
  cbv zeta. split; [reflexivity|]. split; [|split; reflexivity].
  intros H. apply (f_equal processedCount) in H. vm_compute in H. discriminate H.
Qed.

(** C3, amended: the core rejects a start only when the table is empty
    (the start is then a no-op that leaves the table, state and counters
    unchanged and fires nothing).  With a table that has rows the start is
    carried out whatever the run state, Processing and Paused included (only
    the UI prevents it there): it clears the pause and cancel flags, records
    the config, and leaves the state Processing, or Completed when the run
    ends without awaiting anything. *)
Theorem C3_start_rejected_only_when_empty (cfg : ResearchConfig) (s : AppState) :
  (data s = [] ->
   handleStartResearch cfg s =
     {| app := s; config := cfg; newData := []; pc := Returned; fired := [] |})
  /\ (data s <> [] ->
      let m := handleStartResearch cfg s in
      activeConfig (app m) = Some cfg
      /\ isCancelledRef (app m) = false
      /\ isPausedRef (app m) = false
      /\ (status (app m) = PROCESSING \/ status (app m) = COMPLETED)).
Proof.
  split.
  - intros H. unfold handleStartResearch. rewrite H. reflexivity.
  - intros H. cbv zeta. unfold handleStartResearch.
    destruct (data s) as [|row rows] eqn:Hdata; [congruence|].
    match goal with |- context [forLoop ?st ?m0] =>
      destruct (forLoop_control_frame st m0) as (A & B & C & _ & _ & _ & _ & F)
    end.
    rewrite A, B, C. simpl in *. unfold prologue in *.
    destruct (newColumnsToAdd cfg s); simpl in *; (repeat split; try reflexivity);
      (destruct F as [F|F]; [left | right]; exact F).
Qed.

Lemma C3_start_rejected_only_when_empty_witness :
  data (app_of [] [js "Name"] PAUSED 3) = []
  /\ app (handleStartResearch config_ceo (app_of [] [js "Name"] PAUSED 3))
     = app_of [] [js "Name"] PAUSED 3
  /\ data (app_of [row_acme] [js "Name"] PAUSED 3) <> []
  /\ isPausedRef (app (handleStartResearch config_ceo
                         (app_of [row_acme] [js "Name"] PAUSED 3))) = false.
Proof.
  assert (H1 : data (app_of [] [js "Name"] PAUSED 3) = []) by reflexivity.
  assert (H2 : data (app_of [row_acme] [js "Name"] PAUSED 3) <> []) by discriminate.
  split; [exact H1|]. split.
  - rewrite (proj1 (C3_start_rejected_only_when_empty config_ceo
                      (app_of [] [js "Name"] PAUSED 3)) H1). reflexivity.
  - split; [exact H2|].
    exact (proj1 (proj2 (proj2 (proj2 (C3_start_rejected_only_when_empty config_ceo
                      (app_of [row_acme] [js "Name"] PAUSED 3)) H2)))).
Defined.

(** ** Cancellation *)

(** C2 fails on the code: a cancel issued while the last batch is in
    flight sets the state to Idle, and the loop, once the batch has
    settled, leaves the [for] loop and sets it to Completed. *)
Theorem C2_cancel_during_final_batch_completes :
  let m0 := handleStartResearch config_ceo (app_of [row_acme] [js "Name"] IDLE 0) in
  pc m0 = AwaitBatch 0 []
  /\ option_map (fun m => (pc m, status (app m), isCancelledRef (app m)))
       (run m0 [EvCancel])
     = Some (AwaitBatch 0 [], IDLE, true)
  /\ option_map (fun m => (pc m, status (app m), isCancelledRef (app m)))
       (run m0 [EvCancel; EvBatchSettled [result_bob]])
     = Some (Returned, COMPLETED, true).
Proof.
  cbv zeta. split; [|split]; vm_compute; reflexivity.
Qed.

Lemma publish_resolver (k : Machine -> Machine) i rest m :
  (forall m0, resolver_stored (k m0)) -> resolver_stored (publish k i rest m).
Proof.
  intros Hk. unfold publish. destruct (_ <? _); [|apply Hk].
  intros j r H. discriminate H.
Qed.

Lemma fire_resolver (k : Machine -> Machine) i rest m :
  (forall m0, resolver_stored (k m0)) -> resolver_stored (fire k i rest m).
Proof.
  intros Hk. unfold fire.
  destruct (batchPromises _ _ _) as [[|inv invs]|e].
  - now apply publish_resolver.
  - intros j r H. discriminate H.
  - intros j r H. discriminate H.
Qed.

Lemma forLoop_resolver (starts : list nat) (m : Machine) :
  resolver_stored (forLoop starts m).
Proof.
  revert m. induction starts as [|i rest IH]; intros m; simpl.
  - intros j r H. discriminate H.
  - unfold iteration.
    destruct (isCancelledRef (app m)); [intros j r H; discriminate H|].
    destruct (isPausedRef (app m)); [intros j r H; reflexivity|].
    now apply fire_resolver.
Qed.

Lemma release_resolver (m : Machine) :
  resolver_stored m -> resolver_stored (release m).
Proof.
  intros Hm. unfold release.
  destruct (resumeResolverRef (app m)) eqn:Hr; [|exact Hm].
  destruct (pc m) as [i rest| | | |] eqn:Hpc;
    try (intros j r H; simpl in H; congruence).
  unfold afterWake. simpl.
  destruct (isCancelledRef (app m)); [intros j r H; discriminate H|].
  apply fire_resolver, forLoop_resolver.
Qed.

Lemma step_resolver (m : Machine) (ev : Event) (m' : Machine) :
  resolver_stored m -> step m ev = Some m' -> resolver_stored m'.
Proof.
  intros Hm Hstep. destruct ev as [| | |results|e|]; simpl in Hstep.
  - injection Hstep as <-. exact Hm.
  - injection Hstep as <-. apply release_resolver. exact Hm.
  - injection Hstep as <-. apply release_resolver. exact Hm.
  - destruct (pc m) as [|i rest| | |]; try discriminate.
    destruct (batchPromises _ _ _) as [invs|]; [|discriminate].
    destruct (decide _); [|discriminate]. injection Hstep as <-.
    unfold settle. destruct (mergeResults _ _ _) as [[nd ns]|err].
    + apply publish_resolver, forLoop_resolver.
    + intros j r H. discriminate H.
  - destruct (pc m); try discriminate. injection Hstep as <-.
    intros j r H. discriminate H.
  - destruct (pc m); try discriminate. injection Hstep as <-.
    apply forLoop_resolver.
Qed.

Lemma reachable_resolver (cfg : ResearchConfig) (s0 : AppState) (m : Machine) :
  reachable cfg s0 m -> resolver_stored m.
Proof.
  induction 1 as [|m ev m' _ IH Hstep].
  - unfold handleStartResearch. destruct (data s0).
    + intros j r H. discriminate H.
    + apply forLoop_resolver.
  - eapply step_resolver; eassumption.
Qed.

Lemma reachable_run (cfg : ResearchConfig) (s0 : AppState) (m m' : Machine)
    (evs : list Event) :
  reachable cfg s0 m -> run m evs = Some m' -> reachable cfg s0 m'.
Proof.
  revert m. induction evs as [|ev evs IH]; simpl; intros m Hm Hrun.
  - injection Hrun as <-. exact Hm.
  - destruct (step m ev) as [m1|] eqn:Hstep; [|discriminate].
    apply (IH m1); [|exact Hrun]. eapply reach_step; eassumption.
Qed.

(** C5: when the loop of a run is suspended waiting for resume (a pause
    was seen at the top of an iteration) and cancel is issued, the loop wakes,
    sees the cancellation and returns: the state is Idle, no batch is
    processed (no invocation is fired, the table, the counter and the sources
    are as they were), and the loop is over.  Until then the suspended
    loop does nothing, however long the pause lasts: neither a timer nor a
    batch can move it. *)
Theorem C5_cancel_while_paused (cfg : ResearchConfig) (s0 : AppState)
    (m : Machine) (i : nat) (rest : list nat) :
  reachable cfg s0 m ->
  pc m = AwaitResume i rest ->
  step m EvTimer = None
  /\ (forall results, step m (EvBatchSettled results) = None)
  /\ (forall e, step m (EvBatchRejected e) = None)
  /\ exists m',
       step m EvCancel = Some m'
       /\ pc m' = Returned
       /\ status (app m') = IDLE
       /\ fired m' = fired m
       /\ newData m' = newData m
       /\ data (app m') = data (app m)
       /\ processedCount (app m') = processedCount (app m)
       /\ cellSources (app m') = cellSources (app m)
       /\ step m' EvTimer = None
       /\ (forall results, step m' (EvBatchSettled results) = None).
Proof.
  intros Hreach Hpc.
  pose proof (reachable_resolver _ _ _ Hreach i rest Hpc) as Hres.
  split; [simpl; now rewrite Hpc|].
  split; [intros results; simpl; now rewrite Hpc|].
  split; [intros e; simpl; now rewrite Hpc|].
  eexists. split; [reflexivity|].
  unfold handleCancel, release. simpl. rewrite Hres, Hpc.
  unfold afterWake. simpl. repeat split; reflexivity.
Qed.

Lemma machine_suspended_reachable :
  reachable config_thinking (app_of [row_blank; row_acme] [js "Name"] IDLE 0)
    machine_suspended.
Proof.
  eapply reachable_run with (evs := [EvPause; EvTimer]); [apply reach_start|].
  vm_compute. reflexivity.
Qed.

Lemma C5_cancel_while_paused_witness :
  pc machine_suspended = AwaitResume 1 []
  /\ exists m', step machine_suspended EvCancel = Some m'
       /\ pc m' = Returned /\ status (app m') = IDLE.
Proof.
  assert (Hpc : pc machine_suspended = AwaitResume 1 []) by (vm_compute; reflexivity).
  split; [exact Hpc|].
  destruct (C5_cancel_while_paused _ _ _ _ _ machine_suspended_reachable Hpc)
    as (_ & _ & _ & m' & Hstep & Hret & Hidle & _).
  exists m'. split; [exact Hstep|]. split; [exact Hret | exact Hidle].
Defined.

(** ** Rows and batches *)

Lemma get_set_same (row : CsvRow) (col value : jsstring) :
  Row.get (Row.set row col value) col = Str value.
Proof.
  induction row as [|[k v] row IH]; simpl.
  - now rewrite decide_True.
  - destruct (decide (k = col)) as [->|Hne]; simpl.
    + now rewrite decide_True.
    + now rewrite decide_False.
Qed.

Lemma get_set_other (row : CsvRow) (col value c : jsstring) :
  col <> c -> Row.get (Row.set row col value) c = Row.get row c.
Proof.
  intros Hne. induction row as [|[k v] row IH]; simpl.
  - now rewrite decide_False.
  - destruct (decide (k = col)) as [->|Hk]; simpl.
    + now rewrite !decide_False.
    + destruct (decide (k = c)); [reflexivity | exact IH].
Qed.

Lemma keys_set (row : CsvRow) (col value k : jsstring) :
  k ∈ Row.keys (Row.set row col value) <-> k = col \/ k ∈ Row.keys row.
Proof.
  unfold Row.keys. induction row as [|[k0 v0] row IH]; simpl.
  - rewrite list_elem_of_singleton. split; [tauto|].
    intros [H|H]; [exact H | now apply elem_of_nil in H].
  - destruct (decide (k0 = col)) as [->|Hne]; simpl.
    + rewrite !elem_of_cons. tauto.
    + rewrite !elem_of_cons, IH. tauto.
Qed.

Lemma effectiveTotal_le (cfg : ResearchConfig) (len : nat) :
  effectiveTotal cfg len <= len.
Proof. unfold effectiveTotal. lia. Qed.

Lemma batchEnd_le (size : jsnum) (i total : nat) :
  batchEnd size i total <= total.
Proof. destruct size; simpl; lia. Qed.

Lemma concatMapC_elem {A B} (f : A -> Completion (list B)) (l : list A)
    (ys : list B) (y : B) :
  concatMapC f l = Normal ys -> y ∈ ys ->
  exists x xs, x ∈ l /\ f x = Normal xs /\ y ∈ xs.
Proof.
  revert ys. induction l as [|x l IH]; simpl; intros ys Hys Hy.
  - injection Hys as <-. now apply elem_of_nil in Hy.
  - destruct (f x) as [xs|] eqn:Hfx; [|discriminate]. simpl in Hys.
    destruct (concatMapC f l) as [zs|] eqn:Hl; [|discriminate]. simpl in Hys.
    injection Hys as <-. apply elem_of_app in Hy as [Hy|Hy].
    + exists x, xs. split; [apply list_elem_of_here | tauto].
    + destruct (IH zs eq_refl Hy) as (x' & xs' & Hin & Hf & Hy').
      exists x', xs'. split; [now apply list_elem_of_further | tauto].
Qed.

Lemma concatMapC_normal {A B} (f : A -> Completion (list B)) (l : list A) :
  (forall x, x ∈ l -> exists ys, f x = Normal ys) ->
  exists zs, concatMapC f l = Normal zs.
Proof.
  induction l as [|x l IH]; simpl; intros Hf; [eauto|].
  destruct (Hf x (list_elem_of_here _ _)) as [ys ->].
  destruct IH as [zs ->]; [intros y Hy; apply Hf; now apply list_elem_of_further|].
  simpl. eauto.
Qed.

Lemma pushedC_normal {A B} (f : A -> Completion (list B)) (l : list A)
    (ys : list B) :
  concatMapC f l = Normal ys -> pushedC f l = ys.
Proof.
  revert ys. induction l as [|x l IH]; simpl; intros ys Hys.
  - now injection Hys.
  - destruct (f x) as [xs|]; [|discriminate]. simpl in Hys.
    destruct (concatMapC f l) as [zs|]; [|discriminate]. simpl in Hys.
    injection Hys as <-. now rewrite (IH zs).
Qed.

Lemma pushedC_elem {A B} (f : A -> Completion (list B)) (l : list A) (y : B) :
  y ∈ pushedC f l -> exists x xs, x ∈ l /\ f x = Normal xs /\ y ∈ xs.
Proof.
  induction l as [|x l IH]; simpl; intros Hy; [now apply elem_of_nil in Hy|].
  destruct (f x) as [xs|] eqn:Hfx; [|now apply elem_of_nil in Hy].
  apply elem_of_app in Hy as [Hy|Hy].
  - exists x, xs. split; [apply list_elem_of_here | tauto].
  - destruct (IH Hy) as (x' & xs' & Hin & Hf & Hy').
    exists x', xs'. split; [now apply list_elem_of_further | tauto].
Qed.

(** When the body throws, the loop has pushed what it pushes for the
    elements before the first one that throws. *)
Lemma pushedC_throw {A B} (f : A -> Completion (list B)) (l : list A) (e : JsError) :
  concatMapC f l = Throw e ->
  exists before x after ys,
    l = before ++ x :: after
    /\ concatMapC f before = Normal ys
    /\ f x = Throw e
    /\ pushedC f l = ys.
Proof.
  induction l as [|x l IH]; simpl; [discriminate|].
  destruct (f x) as [xs|e'] eqn:Hfx; simpl.
  - destruct (concatMapC f l) as [zs|e''] eqn:Hl; simpl; [discriminate|].
    intros H. injection H as ->.
    destruct (IH eq_refl) as (before & x' & after & ys & -> & Hb & Hx & Hp).
    exists (x :: before), x', after, (xs ++ ys). simpl.
    rewrite Hfx, Hb, Hp. simpl. tauto.
  - intros H. injection H as ->.
    exists [], x, l, []. simpl. tauto.
Qed.

Lemma rowPromises_tags (cfg : ResearchConfig) (rows : list CsvRow) (j : nat)
    (invs : list Invocation) (inv : Invocation) :
  rowPromises cfg rows j = Normal invs -> inv ∈ invs ->
  rowIndex inv = j
  /\ exists row t,
       rows !! j = Some row
       /\ nonempty (subject_kept cfg row) = true
       /\ tasks cfg !! taskIndex inv = Some t.
Proof.
  unfold rowPromises. destruct (rows !! j) as [row|] eqn:Hrow.
  - rewrite entityName_resolves. destruct (resolvable _ row) eqn:Hres; [|discriminate]. simpl.
    destruct (nonempty (subject_kept cfg row)) eqn:Hname; intros Hinvs Hin;
      injection Hinvs as <-; [|now apply elem_of_nil in Hin].
    apply elem_of_lookup_imap in Hin as (k & t & -> & Ht). simpl.
    split; [reflexivity|]. exists row, t. tauto.
  - destruct (targetColumns cfg); [|discriminate].
    intros Hinvs Hin. injection Hinvs as <-. now apply elem_of_nil in Hin.
Qed.

Lemma batchPromises_tags (cfg : ResearchConfig) (rows : list CsvRow) (i : nat)
    (invs : list Invocation) (inv : Invocation) :
  batchPromises cfg rows i = Normal invs -> inv ∈ invs -> tagged cfg rows i inv.
Proof.
  unfold batchPromises. intros Hinvs Hin.
  destruct (concatMapC_elem _ _ _ _ Hinvs Hin) as (j & xs & Hj & Hrow & Hin').
  apply list_elem_of_In, in_seq in Hj.
  destruct (rowPromises_tags _ _ _ _ _ Hrow Hin') as (Hidx & Hex).
  unfold tagged. rewrite Hidx. split; [lia|]. split; [lia | exact Hex].
Qed.

(** What the loop pushes for an existing row. *)
Lemma rowPromises_row (cfg : ResearchConfig) (rows : list CsvRow) (j : nat)
    (row : CsvRow) :
  rows !! j = Some row ->
  rowPromises cfg rows j =
    if resolvable cfg row then
      Normal (if nonempty (subject_kept cfg row)
              then imap (fun taskIdx task =>
                           {| rowIndex := j; taskIndex := taskIdx;
                              inv_entityName := subject_kept cfg row;
                              inv_prompt := prompt task;
                              inv_context := contextStr cfg row;
                              inv_thinking := useThinkingModel cfg |})
                        (tasks cfg)
              else [])
    else Throw TypeError.
Proof.
  intros Hrow. unfold rowPromises. rewrite Hrow, entityName_resolves.
  destruct (resolvable cfg row); [|reflexivity]. simpl.
  destruct (nonempty _); reflexivity.
Qed.

Lemma batchPromises_calls (cfg : ResearchConfig) (rows : list CsvRow) (i : nat)
    (invs : list Invocation) :
  batchPromises cfg rows i = Normal invs -> batchCalls cfg rows i = invs.
Proof. apply pushedC_normal. Qed.

Lemma batchCalls_tags (cfg : ResearchConfig) (rows : list CsvRow) (i : nat)
    (inv : Invocation) :
  inv ∈ batchCalls cfg rows i -> tagged cfg rows i inv.
Proof.
  unfold batchCalls. intros Hin.
  destruct (pushedC_elem _ _ _ Hin) as (j & xs & Hj & Hrow & Hin').
  apply list_elem_of_In, in_seq in Hj.
  destruct (rowPromises_tags _ _ _ _ _ Hrow Hin') as (Hidx & Hex).
  unfold tagged. rewrite Hidx. split; [lia|]. split; [lia | exact Hex].
Qed.

Lemma rows_resolvable_lookup (cfg : ResearchConfig) (rows : list CsvRow) :
  rows_resolvable cfg rows = true <->
  forall j row,
    j < effectiveTotal cfg (length rows) -> rows !! j = Some row ->
    resolvable cfg row = true.
Proof.
  unfold rows_resolvable. rewrite forallb_forall. split.
  - intros H j row Hj Hrow. apply H, list_elem_of_In.
    apply (list_elem_of_lookup_2 _ j). now rewrite lookup_take_lt.
  - intros H row Hin. apply list_elem_of_In, list_elem_of_lookup_1 in Hin as [j Hj].
    pose proof (lookup_lt_Some _ _ _ Hj) as Hlt. rewrite length_take in Hlt.
    rewrite lookup_take_lt in Hj by lia. apply (H j row); [lia | exact Hj].
Qed.

(** Building a batch does not throw when its rows are resolvable: every
    row of the batch exists. *)
Lemma batchPromises_normal (cfg : ResearchConfig) (rows : list CsvRow) (i : nat) :
  rows_resolvable cfg rows = true ->
  exists invs, batchPromises cfg rows i = Normal invs.
Proof.
  intros Hres. rewrite rows_resolvable_lookup in Hres.
  unfold batchPromises. apply concatMapC_normal. intros j Hj.
  apply list_elem_of_In, in_seq in Hj.
  pose proof (batchEnd_le (BATCH_SIZE cfg) i (effectiveTotal cfg (length rows))).
  pose proof (effectiveTotal_le cfg (length rows)).
  destruct (lookup_lt_is_Some_2 rows j ltac:(lia)) as [row Hrow].
  rewrite (rowPromises_row cfg rows j row Hrow), (Hres j row) by (lia || exact Hrow).
  eauto.
Qed.

(** The only exception of the batch builder is the [TypeError] of the
    resolver. *)
Lemma rowPromises_throws (cfg : ResearchConfig) (rows : list CsvRow) (j : nat)
    (e : JsError) :
  rowPromises cfg rows j = Throw e -> e = TypeError.
Proof.
  unfold rowPromises. destruct (rows !! j) as [row|].
  - rewrite entityName_resolves. destruct (resolvable cfg row); simpl.
    + destruct (nonempty _); discriminate.
    + intros H. now injection H.
  - destruct (targetColumns cfg); [discriminate|]. intros H. now injection H.
Qed.

Lemma tagged_in_range (cfg : ResearchConfig) (rows : list CsvRow) (i : nat)
    (inv : Invocation) :
  tagged cfg rows i inv ->
  rowIndex inv < effectiveTotal cfg (length rows)
  /\ rowIndex inv < length rows
  /\ taskIndex inv < length (tasks cfg).
Proof.
  intros (_ & Hlt & row & t & _ & _ & Ht).
  pose proof (batchEnd_le (BATCH_SIZE cfg) i (effectiveTotal cfg (length rows))).
  pose proof (effectiveTotal_le cfg (length rows)).
  apply lookup_lt_Some in Ht. lia.
Qed.

(** ** Merging the results of a batch *)

Lemma cell_write_same (rows : list CsvRow) (j : nat) (col value : jsstring) :
  j < length rows ->
  cell (<[j := Row.set (default [] (rows !! j)) col value]> rows) j col = Str value.
Proof.
  intros Hj. unfold cell. rewrite list_lookup_insert_eq by exact Hj.
  apply get_set_same.
Qed.

Lemma cell_write_other (rows : list CsvRow) (j j' : nat) (col col' value : jsstring) :
  ~ (j = j' /\ col = col') ->
  cell (<[j := Row.set (default [] (rows !! j)) col value]> rows) j' col'
  = cell rows j' col'.
Proof.
  intros Hne. unfold cell.
  destruct (decide (j = j')) as [<-|Hj].
  - destruct (decide (j < length rows)) as [Hlt|Hge].
    + rewrite list_lookup_insert_eq by exact Hlt.
      destruct (lookup_lt_is_Some_2 rows j Hlt) as [row Hrow]. rewrite Hrow. simpl.
      apply get_set_other. intros ->. apply Hne. tauto.
    + rewrite list_insert_ge by lia. reflexivity.
  - rewrite list_lookup_insert_ne by exact Hj. reflexivity.
Qed.

Lemma mergeResult_inv (cfg : ResearchConfig)
    (acc acc' : list CsvRow * gmap (nat * jsstring) (list Source))
    (res : Invocation * ResearchResult) :
  mergeResult cfg acc res = Normal acc' ->
  exists t, tasks cfg !! taskIndex res.1 = Some t
    /\ acc'.1 = <[rowIndex res.1 :=
                   Row.set (default [] (acc.1 !! rowIndex res.1))
                           (newColumnName t) (text res.2)]> acc.1.
Proof.
  unfold mergeResult. destruct (tasks cfg !! taskIndex res.1) as [t|]; [|discriminate].
  intros H. injection H as <-. exists t. split; reflexivity.
Qed.

Lemma mergeResults_length (cfg : ResearchConfig)
    (rs : list (Invocation * ResearchResult))
    (acc acc' : list CsvRow * gmap (nat * jsstring) (list Source)) :
  mergeResults cfg acc rs = Normal acc' -> length acc'.1 = length acc.1.
Proof.
  revert acc. induction rs as [|res rs IH]; simpl; intros acc H.
  - now injection H as <-.
  - destruct (mergeResult cfg acc res) as [acc1|] eqn:H1; [|discriminate].
    simpl in H. rewrite (IH _ H).
    destruct (mergeResult_inv _ _ _ _ H1) as (t & _ & ->). apply length_insert.
Qed.

(** A row no result is tagged with is left as it is. *)
Lemma mergeResults_other_row (cfg : ResearchConfig)
    (rs : list (Invocation * ResearchResult))
    (acc acc' : list CsvRow * gmap (nat * jsstring) (list Source)) (j : nat) :
  mergeResults cfg acc rs = Normal acc' ->
  (forall res, res ∈ rs -> rowIndex res.1 <> j) ->
  acc'.1 !! j = acc.1 !! j.
Proof.
  revert acc. induction rs as [|res rs IH]; simpl; intros acc H Hne.
  - now injection H as <-.
  - destruct (mergeResult cfg acc res) as [acc1|] eqn:H1; [|discriminate].
    simpl in H. rewrite (IH _ H) by (intros r Hr; apply Hne; now apply list_elem_of_further).
    destruct (mergeResult_inv _ _ _ _ H1) as (t & _ & ->).
    apply list_lookup_insert_ne, Hne, list_elem_of_here.
Qed.

(** A cell no result is written to is left as it is. *)
Lemma mergeResults_other_cell (cfg : ResearchConfig)
    (rs : list (Invocation * ResearchResult))
    (acc acc' : list CsvRow * gmap (nat * jsstring) (list Source))
    (j : nat) (col : jsstring) :
  mergeResults cfg acc rs = Normal acc' ->
  (forall res t, res ∈ rs -> tasks cfg !! taskIndex res.1 = Some t ->
     ~ (rowIndex res.1 = j /\ newColumnName t = col)) ->
  cell acc'.1 j col = cell acc.1 j col.
Proof.
  revert acc. induction rs as [|res rs IH]; simpl; intros acc H Hne.
  - now injection H as <-.
  - destruct (mergeResult cfg acc res) as [acc1|] eqn:H1; [|discriminate].
    simpl in H.
    rewrite (IH _ H) by (intros r t Hr; apply Hne; now apply list_elem_of_further).
    destruct (mergeResult_inv _ _ _ _ H1) as (t & Ht & ->).
    apply cell_write_other. apply (Hne res t); [apply list_elem_of_here | exact Ht].
Qed.

(** Every key of a merged row was a key of the row or is a task column. *)
Lemma mergeResults_keys (cfg : ResearchConfig)
    (rs : list (Invocation * ResearchResult))
    (acc acc' : list CsvRow * gmap (nat * jsstring) (list Source))
    (j : nat) (row' : CsvRow) :
  mergeResults cfg acc rs = Normal acc' ->
  acc'.1 !! j = Some row' ->
  exists row, acc.1 !! j = Some row
    /\ forall k, k ∈ Row.keys row' ->
         k ∈ Row.keys row \/ exists t, t ∈ tasks cfg /\ k = newColumnName t.
Proof.
  revert acc row'. induction rs as [|res rs IH]; simpl; intros acc row' H Hrow'.
  - injection H as <-. exists row'. split; [exact Hrow' | tauto].
  - destruct (mergeResult cfg acc res) as [acc1|] eqn:H1; [|discriminate].
    simpl in H. destruct (IH _ _ H Hrow') as (row1 & Hrow1 & Hkeys1).
    destruct (mergeResult_inv _ _ _ _ H1) as (t & Ht & Hacc1).
    rewrite Hacc1 in Hrow1.
    destruct (decide (rowIndex res.1 = j)) as [Hj|Hj].
    + subst j. pose proof (lookup_lt_Some _ _ _ Hrow1) as Hlt.
      rewrite length_insert in Hlt.
      rewrite list_lookup_insert_eq in Hrow1 by exact Hlt.
      destruct (lookup_lt_is_Some_2 _ _ Hlt) as [row Hrow].
      rewrite Hrow in Hrow1. simpl in Hrow1. injection Hrow1 as <-.
      exists row. split; [exact Hrow|]. intros k Hk.
      destruct (Hkeys1 k Hk) as [Hk1|Hk1]; [|right; exact Hk1].
      apply keys_set in Hk1 as [->|Hk1]; [right | left; exact Hk1].
      exists t. split; [|reflexivity]. eapply list_elem_of_lookup_2; exact Ht.
    + rewrite list_lookup_insert_ne in Hrow1 by exact Hj.
      exists row1. split; [exact Hrow1 | exact Hkeys1].
Qed.

(** The merge does not throw when every tag names a task. *)
Lemma mergeResults_normal (cfg : ResearchConfig)
    (rs : list (Invocation * ResearchResult))
    (acc : list CsvRow * gmap (nat * jsstring) (list Source)) :
  (forall res, res ∈ rs -> taskIndex res.1 < length (tasks cfg)) ->
  exists acc', mergeResults cfg acc rs = Normal acc'.
Proof.
  revert acc. induction rs as [|res rs IH]; simpl; intros acc Hlt; [eauto|].
  destruct (lookup_lt_is_Some_2 (tasks cfg) (taskIndex res.1)) as [t Ht];
    [apply Hlt, list_elem_of_here|].
  unfold mergeResult at 1. rewrite Ht. simpl.
  apply IH. intros r Hr. apply Hlt. now apply list_elem_of_further.
Qed.

(** The cell a result is written to holds its text after the merge, when
    no later result of the batch is written to the same cell. *)
Lemma mergeResults_written (cfg : ResearchConfig)
    (rs : list (Invocation * ResearchResult))
    (acc acc' : list CsvRow * gmap (nat * jsstring) (list Source))
    (k : nat) (res : Invocation * ResearchResult) (t : ResearchTask) :
  mergeResults cfg acc rs = Normal acc' ->
  rs !! k = Some res ->
  tasks cfg !! taskIndex res.1 = Some t ->
  rowIndex res.1 < length acc.1 ->
  (forall k' res' t', k < k' -> rs !! k' = Some res' ->
     tasks cfg !! taskIndex res'.1 = Some t' ->
     ~ (rowIndex res'.1 = rowIndex res.1 /\ newColumnName t' = newColumnName t)) ->
  cell acc'.1 (rowIndex res.1) (newColumnName t) = Str (text res.2).
Proof.
  revert acc k. induction rs as [|res0 rs IH]; intros acc k H Hk Ht Hlt Hlater.
  - discriminate Hk.
  - simpl in H. destruct (mergeResult cfg acc res0) as [acc1|] eqn:H1; [|discriminate].
    simpl in H. destruct (mergeResult_inv _ _ _ _ H1) as (t0 & Ht0 & Hacc1).
    destruct k as [|k]; simpl in Hk.
    + injection Hk as ->. rewrite Ht in Ht0. injection Ht0 as <-.
      rewrite (mergeResults_other_cell _ _ _ _ _ _ H).
      * rewrite Hacc1. now apply cell_write_same.
      * intros r t' Hr Ht'. apply list_elem_of_lookup_1 in Hr as [k' Hk'].
        apply (Hlater (S k') r t'); [lia | exact Hk' | exact Ht'].
    + apply (IH acc1 k H Hk Ht).
      * rewrite Hacc1, length_insert. exact Hlt.
      * intros k' r t' Hlt' Hk' Ht'.
        apply (Hlater (S k') r t'); [lia | exact Hk' | exact Ht'].
Qed.

(** ** What a step does to the tables *)

Lemma publish_table_steps (k : Machine -> Machine) i rest m :
  (forall m0, rtc table_step m0 (k m0)) -> rtc table_step m (publish k i rest m).
Proof.
  intros Hk. unfold publish.
  eapply rtc_l; [apply ts_publish|].
  eapply rtc_l;
    [apply (ts_app _ (setProcessedCount
                        (batchEnd (BATCH_SIZE (config m)) i
                           (effectiveTotal (config m) (length (newData m))))));
     reflexivity|].
  destruct (_ <? _).
  - eapply rtc_l; [apply ts_pc | apply rtc_refl].
  - apply Hk.
Qed.

Lemma fire_table_steps (k : Machine -> Machine) i rest m :
  (forall m0, rtc table_step m0 (k m0)) -> rtc table_step m (fire k i rest m).
Proof.
  intros Hk. unfold fire.
  destruct (batchPromises _ _ _) as [[|inv invs]|e] eqn:Hb.
  - now apply publish_table_steps.
  - rewrite <- (batchPromises_calls _ _ _ _ Hb).
    eapply rtc_l; [apply (ts_fire _ i)|].
    eapply rtc_l; [apply ts_pc | apply rtc_refl].
  - eapply rtc_l; [apply (ts_fire _ i)|].
    eapply rtc_l; [apply ts_pc | apply rtc_refl].
Qed.

Lemma forLoop_table_steps (starts : list nat) (m : Machine) :
  rtc table_step m (forLoop starts m).
Proof.
  revert m. induction starts as [|i rest IH]; intros m; simpl.
  - eapply rtc_l; [apply (ts_app _ (setStatus COMPLETED)); reflexivity|].
    eapply rtc_l; [apply ts_pc | apply rtc_refl].
  - unfold iteration.
    destruct (isCancelledRef (app m)); [eapply rtc_l; [apply ts_pc | apply rtc_refl]|].
    destruct (isPausedRef (app m)).
    + eapply rtc_l; [apply (ts_app _ (setResumeResolver true)); reflexivity|].
      eapply rtc_l; [apply ts_pc | apply rtc_refl].
    + now apply fire_table_steps.
Qed.

Lemma release_table_steps (m : Machine) : rtc table_step m (release m).
Proof.
  unfold release. destruct (resumeResolverRef (app m)); [|apply rtc_refl].
  eapply rtc_l; [apply (ts_app _ (setResumeResolver false)); reflexivity|].
  destruct (pc m) as [i rest| | | |]; try apply rtc_refl.
  unfold afterWake.
  destruct (isCancelledRef _); [eapply rtc_l; [apply ts_pc | apply rtc_refl]|].
  apply fire_table_steps, forLoop_table_steps.
Qed.

Lemma step_table_steps (m : Machine) (ev : Event) (m' : Machine) :
  step m ev = Some m' -> rtc table_step m m'.
Proof.
  intros Hstep. destruct ev as [| | |results|e|]; simpl in Hstep.
  - injection Hstep as <-. eapply rtc_l; [|apply rtc_refl].
    apply (ts_app _ (fun s => setStatus PAUSED (setIsPaused true s))); reflexivity.
  - injection Hstep as <-. unfold handleResume.
    eapply rtc_l; [|apply release_table_steps].
    apply (ts_app _ (fun s => setStatus PROCESSING (setIsPaused false s))); reflexivity.
  - injection Hstep as <-. unfold handleCancel.
    eapply rtc_l; [|apply release_table_steps].
    apply (ts_app _ (fun s => setStatus IDLE (setIsPaused false (setIsCancelled true s))));
      reflexivity.
  - destruct (pc m) as [|i rest| | |]; try discriminate.
    destruct (batchPromises _ _ _) as [invs|] eqn:Hb; [|discriminate].
    destruct (decide _) as [Hlen|]; [|discriminate]. injection Hstep as <-.
    unfold settle. destruct (mergeResults _ _ _) as [[merged newSources]|err] eqn:Hm.
    + eapply rtc_l; [apply (ts_merge _ _ _ _ _ _ Hb Hlen Hm)|].
      eapply rtc_l;
        [apply (ts_app _ (fun s => setCellSources (newSources ∪ cellSources s) s));
         reflexivity|].
      apply publish_table_steps, forLoop_table_steps.
    + eapply rtc_l; [apply ts_pc | apply rtc_refl].
  - destruct (pc m); try discriminate. injection Hstep as <-.
    eapply rtc_l; [apply ts_pc | apply rtc_refl].
  - destruct (pc m); try discriminate. injection Hstep as <-.
    apply forLoop_table_steps.
Qed.

(** ** Rows the run passes over *)

Lemma tagged_not_passed_over (cfg : ResearchConfig) (rows : list CsvRow)
    (i j : nat) (row : CsvRow) (inv : Invocation) :
  passed_over cfg (length rows) j row ->
  rows !! j = Some row ->
  tagged cfg rows i inv ->
  rowIndex inv <> j.
Proof.
  intros Hpass Hrow Htag Heq.
  pose proof (tagged_in_range _ _ _ _ Htag) as (Hlt & _ & _).
  destruct Htag as (_ & _ & row' & t & Hrow' & Hname & _).
  rewrite Heq in Hrow'. rewrite Hrow in Hrow'. injection Hrow' as <-.
  destruct Hpass as [Hnil|Hge]; [|lia].
  rewrite Hnil in Hname. discriminate Hname.
Qed.

Lemma table_step_row_kept (cfg : ResearchConfig) (len j : nat) (row : CsvRow)
    (m m' : Machine) :
  passed_over cfg len j row ->
  table_step m m' -> row_kept cfg len j row m -> row_kept cfg len j row m'.
Proof.
  intros Hpass Hstep (Hcfg & Hlen & Hnew & Hdata & Hfired).
  destruct Hstep as [m f Hf _|m p|m|m i|m i invs results merged ns Hb Hl Hm];
    unfold row_kept; simpl.
  - rewrite Hf. tauto.
  - tauto.
  - tauto.
  - repeat split; try assumption.
    intros inv Hin. apply elem_of_app in Hin as [Hin|Hin]; [now apply Hfired|].
    subst cfg len.
    eapply tagged_not_passed_over; [exact Hpass | exact Hnew |].
    eapply batchCalls_tags; eassumption.
  - pose proof (mergeResults_length _ _ _ _ Hm) as Hlen'. simpl in Hlen'.
    repeat split; try assumption; [congruence|].
    rewrite <- Hnew.
    apply (mergeResults_other_row _ _ _ _ j Hm).
    intros [inv r] Hin. simpl. apply elem_of_zip_l in Hin.
    subst cfg len.
    eapply tagged_not_passed_over; [exact Hpass | exact Hnew |].
    eapply batchPromises_tags; eassumption.
Qed.

Lemma table_steps_row_kept (cfg : ResearchConfig) (len j : nat) (row : CsvRow)
    (m m' : Machine) :
  passed_over cfg len j row ->
  rtc table_step m m' -> row_kept cfg len j row m -> row_kept cfg len j row m'.
Proof.
  intros Hpass. induction 1 as [|m1 m2 m3 H12 _ IH]; [tauto|].
  intros H1. apply IH. eapply table_step_row_kept; eassumption.
Qed.

Lemma prologue_data (cfg : ResearchConfig) (s : AppState) :
  data (prologue cfg s) = data s.
Proof. unfold prologue. destruct (newColumnsToAdd cfg s); reflexivity. Qed.

Lemma prologue_columns (cfg : ResearchConfig) (s : AppState) :
  columns (prologue cfg s) = columns s ++ newColumnsToAdd cfg s.
Proof.
  unfold prologue. destruct (newColumnsToAdd cfg s); simpl; [|reflexivity].
  now rewrite app_nil_r.
Qed.

Lemma reachable_row_kept (cfg : ResearchConfig) (s0 : AppState) (m : Machine)
    (j : nat) (row : CsvRow) :
  reachable cfg s0 m ->
  data s0 !! j = Some row ->
  passed_over cfg (length (data s0)) j row ->
  row_kept cfg (length (data s0)) j row m.
Proof.
  intros Hreach Hrow Hpass. induction Hreach as [|m ev m' _ IH Hstep].
  - unfold handleStartResearch.
    destruct (data s0) as [|r rows] eqn:Hdata; [discriminate Hrow|].
    eapply table_steps_row_kept; [exact Hpass | apply forLoop_table_steps |].
    unfold row_kept; simpl. rewrite prologue_data, Hdata.
    repeat split; try assumption. intros inv Hin. now apply elem_of_nil in Hin.
  - eapply table_steps_row_kept; [exact Hpass | | exact IH].
    eapply step_table_steps; exact Hstep.
Qed.

Lemma blank_subject (cfg : ResearchConfig) (row : CsvRow) :
  Forall (fun col => blank (Row.get row col) = true) (targetColumns cfg) ->
  subject_kept cfg row = [].
Proof.
  unfold subject_kept. intros H.
  induction H as [|col cols Hcol _ IH]; simpl; [reflexivity|].
  rewrite Hcol. simpl. exact IH.
Qed.

(** C9: for every row all of whose target-column values are empty or
    white space (or absent), at every point of a run and after it: no
    invocation has been fired for the row, and the row is as it was before the
    run, so each of its task columns holds what it held. *)
Theorem C9_blank_row_untouched (cfg : ResearchConfig) (s0 : AppState)
    (m : Machine) (j : nat) (row : CsvRow) :
  reachable cfg s0 m ->
  data s0 !! j = Some row ->
  Forall (fun col => blank (Row.get row col) = true) (targetColumns cfg) ->
  (forall inv, inv ∈ fired m -> rowIndex inv <> j)
  /\ data (app m) !! j = Some row
  /\ (forall t, t ∈ tasks cfg ->
        cell (data (app m)) j (newColumnName t) = Row.get row (newColumnName t)).
Proof.
  intros Hreach Hrow Hblank.
  destruct (reachable_row_kept cfg s0 m j row Hreach Hrow) as (_ & _ & _ & Hdata & Hfired).
  { left. now apply blank_subject. }
  split; [exact Hfired|]. split; [exact Hdata|].
  intros t _. unfold cell. now rewrite Hdata.
Qed.

Lemma machine_done_reachable : reachable config_limit2 app_three machine_done.
Proof.
  eapply reachable_run with (evs := [EvBatchSettled [result_bob]]);
    [apply reach_start|].
  vm_compute. reflexivity.
Qed.

Lemma C9_blank_row_untouched_witness :
  data app_three !! 1 = Some row_blank
  /\ Forall (fun col => blank (Row.get row_blank col) = true)
       (targetColumns config_limit2)
  /\ data (app machine_done) !! 1 = Some row_blank.
Proof.
  assert (Hrow : data app_three !! 1 = Some row_blank) by reflexivity.
  assert (Hblank : Forall (fun col => blank (Row.get row_blank col) = true)
                     (targetColumns config_limit2))
    by (repeat constructor).
  split; [exact Hrow|]. split; [exact Hblank|].
  exact (proj1 (proj2 (C9_blank_row_untouched config_limit2 app_three machine_done
                         1 row_blank machine_done_reachable Hrow Hblank))).
Defined.

(** ** Rows and the header *)

Lemma table_step_keys_within (cfg : ResearchConfig) (cols : list jsstring)
    (m m' : Machine) :
  (forall t, t ∈ tasks cfg -> newColumnName t ∈ cols) ->
  table_step m m' -> keys_within cfg cols m -> keys_within cfg cols m'.
Proof.
  intros Htasks Hstep (Hcfg & Hcols & Hnew & Hdata).
  destruct Hstep as [m f Hf Hc|m p|m|m i|m i invs results merged ns Hb Hl Hm];
    unfold keys_within; simpl.
  - rewrite Hf, Hc. tauto.
  - tauto.
  - tauto.
  - tauto.
  - repeat split; try assumption.
    intros row' Hin k Hk. apply list_elem_of_lookup_1 in Hin as [j Hj].
    destruct (mergeResults_keys _ _ _ _ j row' Hm Hj) as (row & Hrow & Hkeys).
    simpl in Hrow. destruct (Hkeys k Hk) as [Hk'|(t & Ht & ->)].
    + apply (Hnew row); [eapply list_elem_of_lookup_2; exact Hrow | exact Hk'].
    + apply Htasks. congruence.
Qed.

Lemma table_step_empty_tables (cols : list jsstring) (m m' : Machine) :
  table_step m m' -> empty_tables cols m -> empty_tables cols m'.
Proof.
  intros Hstep (Hcols & Hnew & Hdata).
  destruct Hstep as [m f Hf Hc|m p|m|m i|m i invs results merged ns Hb Hl Hm];
    unfold empty_tables; simpl.
  - rewrite Hf, Hc. tauto.
  - tauto.
  - tauto.
  - tauto.
  - repeat split; try assumption.
    apply mergeResults_length in Hm. simpl in Hm. rewrite Hnew in Hm.
    now apply length_zero_iff_nil.
Qed.

Lemma task_columns_added (cfg : ResearchConfig) (s : AppState) (t : ResearchTask) :
  t ∈ tasks cfg -> newColumnName t ∈ columns s ++ newColumnsToAdd cfg s.
Proof.
  intros Ht. apply elem_of_app.
  destruct (decide (newColumnName t ∈ columns s)) as [Hin|Hnot]; [left; exact Hin|].
  right. unfold newColumnsToAdd. apply list_elem_of_In, filter_In. split.
  - apply in_map, list_elem_of_In, Ht.
  - unfold includes. apply negb_true_iff. now apply bool_decide_eq_false.
Qed.

Lemma table_steps_keys_within (cfg : ResearchConfig) (cols : list jsstring)
    (m m' : Machine) :
  (forall t, t ∈ tasks cfg -> newColumnName t ∈ cols) ->
  rtc table_step m m' -> keys_within cfg cols m -> keys_within cfg cols m'.
Proof.
  intros Htasks. induction 1 as [|m1 m2 m3 H12 _ IH]; [tauto|].
  intros H1. apply IH. eapply table_step_keys_within; eassumption.
Qed.

Lemma table_steps_empty_tables (cols : list jsstring) (m m' : Machine) :
  rtc table_step m m' -> empty_tables cols m -> empty_tables cols m'.
Proof.
  induction 1 as [|m1 m2 m3 H12 _ IH]; [tauto|].
  intros H1. apply IH. eapply table_step_empty_tables; eassumption.
Qed.

Lemma reachable_tables (cfg : ResearchConfig) (s0 : AppState) (m : Machine) :
  (forall row, row ∈ data s0 -> Row.keys row ⊆ columns s0) ->
  reachable cfg s0 m ->
  (data s0 = [] /\ empty_tables (columns s0) m)
  \/ (data s0 <> [] /\ keys_within cfg (columns s0 ++ newColumnsToAdd cfg s0) m).
Proof.
  intros Hkeys. induction 1 as [|m ev m' _ IH Hstep].
  - unfold handleStartResearch. destruct (data s0) as [|r rows] eqn:Hdata.
    + left. split; [reflexivity|]. unfold empty_tables; simpl. tauto.
    + right. split; [discriminate|].
      eapply table_steps_keys_within;
        [apply task_columns_added | apply forLoop_table_steps |].
      unfold keys_within; simpl. rewrite prologue_columns, prologue_data, Hdata.
      repeat split; intros row Hin k Hk; apply elem_of_app; left;
        now apply (Hkeys row).
  - pose proof (step_table_steps _ _ _ Hstep) as Hsteps.
    destruct IH as [[He IH]|[Hne IH]]; [left | right]; (split; [assumption|]).
    + eapply table_steps_empty_tables; eassumption.
    + eapply table_steps_keys_within; [apply task_columns_added | eassumption..].
Qed.

(** C4, as stated, fails: after a completed run the header has the task
    column, and neither the skipped row nor the row past the row limit has
    it as a key. *)
Lemma C4_rows_not_padded :
  reachable config_limit2 app_three machine_done
  /\ status (app machine_done) = COMPLETED
  /\ columns (app machine_done) = [js "Name"; js "CEO"]
  /\ option_map Row.keys (data (app machine_done) !! 1) = Some [js "Name"]
  /\ option_map Row.keys (data (app machine_done) !! 2) = Some [js "Name"]
  /\ ~ (forall m, reachable config_limit2 app_three m ->
        forall row, row ∈ data (app m) ->
        forall col, col ∈ Row.keys row <-> col ∈ columns (app m)).
Proof.
  split; [exact machine_done_reachable|].
  split; [vm_compute; reflexivity|]. split; [vm_compute; reflexivity|].
  split; [vm_compute; reflexivity|]. split; [vm_compute; reflexivity|].
  intros H.
  assert (Hin : row_blank ∈ data (app machine_done)).
  { apply (list_elem_of_lookup_2 _ 1). vm_compute. reflexivity. }
  pose proof (proj2 (H machine_done machine_done_reachable row_blank Hin (js "CEO"))) as Hc.
  assert (Hcol : js "CEO" ∈ columns (app machine_done)).
  { apply (list_elem_of_lookup_2 _ 1). vm_compute. reflexivity. }
  specialize (Hc Hcol). apply list_elem_of_In in Hc. vm_compute in Hc.
  destruct Hc as [Hc|[]]. discriminate Hc.
Qed.

(** C4, amended: rows are not padded.  When a run appends the task columns
    the header lacks (after the existing columns, in task order), then at
    every point of the run and after it the key set of every row of the table
    is included in the header, provided it was before the run; a row gets a
    task column as a key only when a result is merged into it, and a row that
    is skipped (empty subject) or lies past the row limit keeps exactly the
    entries it had. *)
Theorem C4_rows_within_header (cfg : ResearchConfig) (s0 : AppState) (m : Machine) :
  (forall row, row ∈ data s0 -> Row.keys row ⊆ columns s0) ->
  reachable cfg s0 m ->
  columns (app m) =
    match data s0 with
    | [] => columns s0
    | _ :: _ => columns s0 ++ newColumnsToAdd cfg s0
    end
  /\ (forall row, row ∈ data (app m) -> Row.keys row ⊆ columns (app m))
  /\ (forall j row, data s0 !! j = Some row ->
        entityName cfg row = Normal [] \/ effectiveTotal cfg (length (data s0)) <= j ->
        data (app m) !! j = Some row).
Proof.
  intros Hkeys Hreach. split; [|split].
  - destruct (reachable_tables cfg s0 m Hkeys Hreach) as [[He (Hc & _)]|[Hne (_ & Hc & _)]].
    + now rewrite He.
    + destruct (data s0); [congruence | exact Hc].
  - destruct (reachable_tables cfg s0 m Hkeys Hreach)
      as [[He (_ & _ & Hd)]|[Hne (_ & Hc & _ & Hd)]].
    + rewrite Hd. intros row Hin. now apply elem_of_nil in Hin.
    + rewrite Hc. exact Hd.
  - intros j row Hrow Hpass.
    apply (reachable_row_kept cfg s0 m j row Hreach Hrow).
    destruct Hpass as [Hname|Hge]; [left | right; exact Hge].
    apply entityName_normal in Hname as [_ Hname]. now symmetry.
Qed.

Lemma C4_rows_within_header_witness :
  (forall row, row ∈ data app_three -> Row.keys row ⊆ columns app_three)
  /\ columns (app machine_done) = columns app_three ++ newColumnsToAdd config_limit2 app_three
  /\ data (app machine_done) !! 2 = Some row_acme.
Proof.
  assert (Hkeys : forall row, row ∈ data app_three -> Row.keys row ⊆ columns app_three).
  { intros row Hin k Hk. apply list_elem_of_In in Hin. simpl in Hin.
    destruct Hin as [<-|[<-|[<-|[]]]]; exact Hk. }
  assert (Hrow : data app_three !! 2 = Some row_acme) by reflexivity.
  assert (Hpast : entityName config_limit2 row_acme = Normal []
                  \/ effectiveTotal config_limit2 (length (data app_three)) <= 2)
    by (right; vm_compute; lia).
  destruct (C4_rows_within_header config_limit2 app_three machine_done Hkeys
              machine_done_reachable) as (Hcols & _ & Hkept).
  split; [exact Hkeys|]. split; [exact Hcols|].
  exact (Hkept 2 row_acme Hrow Hpast).
Defined.

(** ** Settling a batch *)

Lemma publish_tables (k : Machine -> Machine) i rest m :
  (forall m0, control_frame m0 (k m0)) ->
  newData (publish k i rest m) = newData m
  /\ data (app (publish k i rest m)) = newData m.
Proof.
  intros Hk. unfold publish. destruct (_ <? _); [split; reflexivity|].
  match goal with |- context [k ?m1] =>
    destruct (Hk m1) as (_ & _ & _ & _ & _ & Hn & Hd & _) end.
  simpl in Hn, Hd. split; [exact Hn | destruct Hd as [Hd|Hd]; exact Hd].
Qed.

(** What settling a batch does, whatever the results are. *)
Lemma settle_merges (m : Machine) (i : nat) (rest : list nat)
    (invs : list Invocation) (results : list ResearchResult) :
  batchPromises (config m) (newData m) i = Normal invs ->
  length results = length invs ->
  let m' := settle (forLoop rest) i rest invs results m in
  let total := effectiveTotal (config m) (length (newData m)) in
  let stop := batchEnd (BATCH_SIZE (config m)) i total in
  (exists merged newSources,
     mergeResults (config m) (newData m, ∅) (zip invs results)
       = Normal (merged, newSources)
     /\ newData m' = merged)
  /\ (stop < total ->
      pc m' = AwaitSleep i rest
      /\ processedCount (app m') = stop
      /\ status (app m') = status (app m))
  /\ data (app m') = newData m'
  /\ forall k inv r t,
       invs !! k = Some inv -> results !! k = Some r ->
       tasks (config m) !! taskIndex inv = Some t ->
       (forall k' inv' t', k < k' -> invs !! k' = Some inv' ->
          tasks (config m) !! taskIndex inv' = Some t' ->
          ~ (rowIndex inv' = rowIndex inv /\ newColumnName t' = newColumnName t)) ->
       cell (newData m') (rowIndex inv) (newColumnName t) = Str (text r).
Proof.
  intros Hb Hlen. cbv zeta. unfold settle.
  destruct (mergeResults_normal (config m) (zip invs results) (newData m, ∅))
    as [[merged newSources] Hm].
  { intros [inv r] Hin. simpl. apply elem_of_zip_l in Hin.
    apply (tagged_in_range (config m) (newData m) i inv).
    now apply (batchPromises_tags _ _ _ invs). }
  rewrite Hm.
  pose proof (mergeResults_length _ _ _ _ Hm) as Hmlen. simpl in Hmlen.
  match goal with |- context [publish _ _ _ ?m2] => set (m2' := m2) end.
  destruct (publish_tables (forLoop rest) i rest m2' (forLoop_control_frame rest))
    as (Hnew & Hdata).
  split; [|split; [|split]].
  - exists merged, newSources. split; [reflexivity | exact Hnew].
  - intros Hlt. unfold publish. subst m2'. simpl. rewrite Hmlen.
    apply Nat.ltb_lt in Hlt. rewrite Hlt. simpl. repeat split; reflexivity.
  - now rewrite Hdata, Hnew.
  - intros k inv r t Hinv Hr Ht Hlater. rewrite Hnew. subst m2'. simpl.
    assert (Hk : zip invs results !! k = Some (inv, r)) by now apply lookup_zip_Some.
    apply (mergeResults_written _ _ _ _ k (inv, r) t Hm Hk Ht).
    + simpl. eapply tagged_in_range, batchPromises_tags;
        [exact Hb | eapply list_elem_of_lookup_2; exact Hinv].
    + intros k' [inv' r'] t' Hlt Hk' Ht'. simpl in *.
      apply lookup_zip_Some in Hk' as [Hinv' _].
      now apply (Hlater k' inv' t').
Qed.

(** ** The loop header *)

Lemma starts_from_enough (b total : nat) :
  1 <= b ->
  forall fuel fuel' i,
    total - i <= fuel -> total - i <= fuel' ->
    starts_from fuel i b total = starts_from fuel' i b total.
Proof.
  intros Hb. induction fuel as [|fuel IH]; intros fuel' i H H'.
  - destruct fuel'; simpl; [reflexivity|].
    destruct (i <? total) eqn:Hi; [apply Nat.ltb_lt in Hi; lia | reflexivity].
  - destruct fuel'; simpl.
    + destruct (i <? total) eqn:Hi; [apply Nat.ltb_lt in Hi; lia | reflexivity].
    + destruct (i <? total); [|reflexivity].
      f_equal. apply IH; lia.
Qed.

(** The list of starts obeys the loop header: from [i], the body runs at
    [i] if [i < effectiveTotal], and the loop goes on from [i + BATCH_SIZE]. *)
Lemma starts_from_unfold (b total i : nat) :
  1 <= b ->
  starts_from total i b total =
    if i <? total then i :: starts_from total (i + b) b total else [].
Proof.
  intros Hb. destruct total as [|n]; [reflexivity|].
  change (starts_from (S n) i b (S n))
    with (if i <? S n then i :: starts_from n (i + b) b (S n) else []).
  destruct (i <? S n); [|reflexivity].
  f_equal. apply starts_from_enough; [exact Hb | lia | lia].
Qed.

Lemma planBatchSize_positive (n : nat) (thinking : bool) (b : nat) :
  planBatchSize n thinking = Fin b -> 1 <= b.
Proof.
  destruct n as [|n]; [discriminate|].
  rewrite planBatchSize_div. intros H. injection H as <-. lia.
Qed.

Lemma following_unfold (cfg : ResearchConfig) (total i : nat) :
  match BATCH_SIZE cfg with
  | Fin b =>
      following cfg total i =
        if i + b <? total
        then (i + b) :: following cfg total (i + b)
        else []
  | Infinity => following cfg total i = []
  end.
Proof.
  unfold following. destruct (BATCH_SIZE cfg) as [b|] eqn:HB; [|reflexivity].
  apply starts_from_unfold. eapply planBatchSize_positive. exact HB.
Qed.

Lemma batch_starts_unfold (cfg : ResearchConfig) (total : nat) :
  batch_starts (BATCH_SIZE cfg) total =
    if 0 <? total then 0 :: following cfg total 0 else [].
Proof.
  unfold batch_starts, following. destruct (BATCH_SIZE cfg) as [b|] eqn:HB.
  - apply starts_from_unfold. eapply planBatchSize_positive. exact HB.
  - destruct (0 <? total); reflexivity.
Qed.

(** The batch that ends at the total is the last one. *)
Lemma following_last (cfg : ResearchConfig) (total i : nat) :
  i < total ->
  (following cfg total i = [] <->
   total <= batchEnd (BATCH_SIZE cfg) i total).
Proof.
  intros Hi. pose proof (following_unfold cfg total i) as Hf.
  unfold batchEnd. destruct (BATCH_SIZE cfg) as [b|].
  - rewrite Hf. destruct (i + b <? total) eqn:Hlt.
    + apply Nat.ltb_lt in Hlt. split; [discriminate | lia].
    + apply Nat.ltb_ge in Hlt. split; [lia | reflexivity].
  - rewrite Hf. split; [lia | reflexivity].
Qed.

Lemma following_scheduled (cfg : ResearchConfig) (total i : nat) :
  scheduled cfg total (following cfg total i).
Proof.
  pose proof (following_unfold cfg total i) as Hf.
  destruct (BATCH_SIZE cfg) as [b|]; [|left; exact Hf].
  rewrite Hf. destruct (i + b <? total) eqn:Hlt; [|left; reflexivity].
  right. exists (i + b). split; [now apply Nat.ltb_lt | reflexivity].
Qed.

Lemma batch_starts_scheduled (cfg : ResearchConfig) (total : nat) :
  scheduled cfg total (batch_starts (BATCH_SIZE cfg) total).
Proof.
  rewrite batch_starts_unfold. destruct (0 <? total) eqn:Hlt; [|left; reflexivity].
  right. exists 0. split; [now apply Nat.ltb_lt | reflexivity].
Qed.

Lemma publish_on_schedule (k : Machine -> Machine) i rest m :
  (forall m0, config m0 = config m -> newData m0 = newData m -> on_schedule (k m0)) ->
  i < effectiveTotal (config m) (length (newData m)) ->
  rest = following (config m) (effectiveTotal (config m) (length (newData m))) i ->
  on_schedule (publish k i rest m).
Proof.
  intros Hk Hi Hrest. unfold publish.
  destruct (_ <? _) eqn:Hlt; [|apply Hk; reflexivity].
  apply Nat.ltb_lt in Hlt.
  intros j r [H|[H|H]]; simpl in H; try discriminate H.
  injection H as <- <-. simpl. tauto.
Qed.

Lemma fire_on_schedule (k : Machine -> Machine) i rest m :
  (forall m0, config m0 = config m -> newData m0 = newData m -> on_schedule (k m0)) ->
  i < effectiveTotal (config m) (length (newData m)) ->
  rest = following (config m) (effectiveTotal (config m) (length (newData m))) i ->
  on_schedule (fire k i rest m).
Proof.
  intros Hk Hi Hrest. unfold fire.
  destruct (batchPromises _ _ _) as [[|inv invs]|e].
  - now apply publish_on_schedule.
  - intros j r [H|[H|H]]; simpl in H; try discriminate H.
    injection H as <- <-. simpl. split; [exact Hi|]. split; [exact Hrest|].
    intros H; discriminate H.
  - intros j r [H|[H|H]]; discriminate H.
Qed.

Lemma forLoop_on_schedule (starts : list nat) (m : Machine) :
  scheduled (config m) (effectiveTotal (config m) (length (newData m))) starts ->
  on_schedule (forLoop starts m).
Proof.
  revert m. induction starts as [|i rest IH]; intros m Hs; simpl.
  - intros j r [H|[H|H]]; discriminate H.
  - destruct Hs as [Hs|(i0 & Hi & Hs)]; [discriminate Hs|].
    injection Hs as <- Hrest.
    unfold iteration.
    destruct (isCancelledRef (app m)); [intros j r [H|[H|H]]; discriminate H|].
    destruct (isPausedRef (app m)).
    + intros j r [H|[H|H]]; simpl in H; try discriminate H.
      injection H as <- <-. simpl. split; [exact Hi|]. split; [exact Hrest|].
      intros H; discriminate H.
    + apply fire_on_schedule; [|exact Hi | exact Hrest].
      intros m0 Hc Hn. apply IH. rewrite Hc, Hn, Hrest. apply following_scheduled.
Qed.

Lemma forLoop_following_on_schedule (i : nat) (m m0 : Machine) :
  config m0 = config m -> newData m0 = newData m ->
  on_schedule
    (forLoop (following (config m) (effectiveTotal (config m) (length (newData m))) i) m0).
Proof.
  intros Hc Hn. apply forLoop_on_schedule. rewrite Hc, Hn. apply following_scheduled.
Qed.

Lemma release_on_schedule (m : Machine) : on_schedule m -> on_schedule (release m).
Proof.
  intros Hm. unfold release. destruct (resumeResolverRef (app m)); [|exact Hm].
  destruct (pc m) as [i rest|i rest|i rest| |] eqn:Hpc.
  - destruct (Hm i rest (or_introl Hpc)) as (Hi & Hrest & _).
    unfold afterWake. simpl.
    destruct (isCancelledRef (app m)); [intros j r [H|[H|H]]; discriminate H|].
    apply fire_on_schedule; [|exact Hi | exact Hrest].
    intros m0 Hc Hn. subst rest. simpl in Hc, Hn. now apply forLoop_following_on_schedule.
  - exact Hm.
  - exact Hm.
  - exact Hm.
  - exact Hm.
Qed.

Lemma step_on_schedule (m : Machine) (ev : Event) (m' : Machine) :
  on_schedule m -> step m ev = Some m' -> on_schedule m'.
Proof.
  intros Hm Hstep. destruct ev as [| | |results|e|]; simpl in Hstep.
  - injection Hstep as <-. exact Hm.
  - injection Hstep as <-. apply release_on_schedule. exact Hm.
  - injection Hstep as <-. apply release_on_schedule. exact Hm.
  - destruct (pc m) as [|i rest| | |] eqn:Hpc; try discriminate.
    destruct (batchPromises _ _ _) as [invs|] eqn:Hb; [|discriminate].
    destruct (decide _); [|discriminate]. injection Hstep as <-.
    destruct (Hm i rest (or_intror (or_introl Hpc))) as (Hi & Hrest & _).
    unfold settle. destruct (mergeResults _ _ _) as [[merged ns]|err] eqn:Hmerge.
    + pose proof (mergeResults_length _ _ _ _ Hmerge) as Hlen. simpl in Hlen.
      apply publish_on_schedule; simpl; rewrite ?Hlen; [|exact Hi | exact Hrest].
      intros m0 Hc Hn. apply forLoop_on_schedule. rewrite Hc, Hn. simpl.
      rewrite Hlen, Hrest. apply following_scheduled.
    + intros j r [H|[H|H]]; discriminate H.
  - destruct (pc m); try discriminate. injection Hstep as <-.
    intros j r [H|[H|H]]; discriminate H.
  - destruct (pc m) as [| |i rest| |] eqn:Hpc; try discriminate.
    injection Hstep as <-.
    destruct (Hm i rest (or_intror (or_intror Hpc))) as (_ & Hrest & _).
    apply forLoop_on_schedule. rewrite Hrest. apply following_scheduled.
Qed.

(** In a run the remaining values of the loop header are those the header
    gives. *)
Lemma reachable_on_schedule (cfg : ResearchConfig) (s0 : AppState) (m : Machine) :
  reachable cfg s0 m -> on_schedule m.
Proof.
  induction 1 as [|m ev m' _ IH Hstep].
  - unfold handleStartResearch. destruct (data s0) as [|r rows].
    + intros j rest [H|[H|H]]; discriminate H.
    + apply forLoop_on_schedule. simpl. apply batch_starts_scheduled.
  - eapply step_on_schedule; eassumption.
Qed.

(** ** Where a cancel is honoured *)

Lemma handleCancel_unsuspended (m : Machine) :
  (forall i rest, pc m <> AwaitResume i rest) ->
  exists f, handleCancel m = withApp f m
    /\ forall s, status (f s) = IDLE /\ isCancelledRef (f s) = true.
Proof.
  intros Hpc. unfold handleCancel, release. simpl.
  destruct (resumeResolverRef (app m)).
  - destruct (pc m) as [i rest| | | |] eqn:Hpc'; [now destruct (Hpc i rest)|..];
      (exists (fun s => setResumeResolver false
                 (setStatus IDLE (setIsPaused false (setIsCancelled true s))));
       split; [reflexivity | intros s; split; reflexivity]).
  - exists (fun s => setStatus IDLE (setIsPaused false (setIsCancelled true s))).
    split; [reflexivity | intros s; split; reflexivity].
Qed.

(** A cancel issued during the sleep between two batches is seen at the top
    of the next iteration: the loop returns and the state stays Idle. *)
Lemma cancel_while_sleeping_stays_idle (cfg : ResearchConfig) (s0 : AppState)
    (m : Machine) (i : nat) (rest : list nat) :
  reachable cfg s0 m ->
  pc m = AwaitSleep i rest ->
  exists m1 m2,
    step m EvCancel = Some m1
    /\ status (app m1) = IDLE
    /\ step m1 EvTimer = Some m2
    /\ pc m2 = Returned
    /\ status (app m2) = IDLE.
Proof.
  intros Hreach Hpc.
  destruct (reachable_on_schedule _ _ _ Hreach i rest (or_intror (or_intror Hpc)))
    as (Hi & Hrest & Hmore).
  specialize (Hmore Hpc).
  destruct rest as [|i' rest'].
  { symmetry in Hrest. apply following_last in Hrest; [lia | exact Hi]. }
  destruct (handleCancel_unsuspended m) as (f & HC & Hf);
    [intros j r H; congruence|].
  exists (handleCancel m). eexists.
  split; [reflexivity|]. rewrite HC. simpl.
  split; [apply Hf|]. rewrite Hpc.
  split; [reflexivity|]. simpl. unfold iteration. simpl.
  rewrite (proj2 (Hf (app m))). simpl. split; [reflexivity | apply Hf].
Qed.

(** A cancel issued while the last batch is in flight is never seen: once
    the batch has settled, whatever its results, the loop leaves the [for]
    loop and sets the state to Completed. *)
Lemma cancel_in_final_batch_completes (cfg : ResearchConfig) (s0 : AppState)
    (m : Machine) (i : nat) (rest : list nat)
    (invs : list Invocation) (results : list ResearchResult) :
  reachable cfg s0 m ->
  pc m = AwaitBatch i rest ->
  effectiveTotal (config m) (length (newData m))
    <= batchEnd (BATCH_SIZE (config m)) i (effectiveTotal (config m) (length (newData m))) ->
  batchPromises (config m) (newData m) i = Normal invs ->
  length results = length invs ->
  exists m1 m2,
    step m EvCancel = Some m1
    /\ status (app m1) = IDLE
    /\ step m1 (EvBatchSettled results) = Some m2
    /\ pc m2 = Returned
    /\ status (app m2) = COMPLETED.
Proof.
  intros Hreach Hpc Hlast Hb Hlen.
  destruct (reachable_on_schedule _ _ _ Hreach i rest (or_intror (or_introl Hpc)))
    as (Hi & Hrest & _).
  assert (Hnil : rest = []) by (rewrite Hrest; now apply following_last).
  clear Hrest. subst rest.
  destruct (mergeResults_normal (config m) (zip invs results) (newData m, ∅))
    as [[merged newSources] Hm].
  { intros [inv r] Hin. simpl. apply elem_of_zip_l in Hin.
    apply (tagged_in_range (config m) (newData m) i inv).
    now apply (batchPromises_tags _ _ _ invs). }
  pose proof (mergeResults_length _ _ _ _ Hm) as Hmlen. simpl in Hmlen.
  apply Nat.ltb_ge in Hlast.
  destruct (handleCancel_unsuspended m) as (f & HC & Hf);
    [intros j r H; congruence|].
  exists (handleCancel m). eexists.
  split; [reflexivity|]. rewrite HC. simpl.
  split; [apply Hf|]. rewrite Hpc, Hb, decide_True by exact Hlen.
  split; [reflexivity|]. unfold settle. simpl. rewrite Hm.
  unfold publish. simpl. rewrite Hmlen, Hlast. simpl. split; reflexivity.
Qed.

(** ** Batches of a config with distinct task columns *)

Lemma rowPromises_lookup (cfg : ResearchConfig) (rows : list CsvRow) (j k : nat)
    (invs : list Invocation) (inv : Invocation) :
  rowPromises cfg rows j = Normal invs -> invs !! k = Some inv -> tag inv = (j, k).
Proof.
  unfold rowPromises. destruct (rows !! j) as [row|].
  - rewrite entityName_resolves. destruct (resolvable _ row) eqn:Hres; [|discriminate]. simpl. destruct (nonempty _); intros H Hk;
      injection H as <-; [|discriminate Hk].
    rewrite list_lookup_imap in Hk. destruct (tasks cfg !! k); [|discriminate Hk].
    simpl in Hk. injection Hk as <-. reflexivity.
  - destruct (targetColumns cfg); [|discriminate].
    intros H Hk. injection H as <-. discriminate Hk.
Qed.

Lemma concatMapC_tags_NoDup (cfg : ResearchConfig) (rows : list CsvRow)
    (js : list nat) (invs : list Invocation) :
  NoDup js ->
  concatMapC (rowPromises cfg rows) js = Normal invs ->
  NoDup (tag <$> invs).
Proof.
  revert invs. induction js as [|j js IH]; simpl; intros invs Hjs H.
  - injection H as <-. constructor.
  - destruct (rowPromises cfg rows j) as [ys|] eqn:Hys; [|discriminate]. simpl in H.
    destruct (concatMapC _ js) as [zs|] eqn:Hzs; [|discriminate]. simpl in H.
    injection H as <-. apply NoDup_cons in Hjs as [Hj Hjs].
    rewrite fmap_app. apply NoDup_app. split; [|split].
    + apply NoDup_alt. intros a b x Ha Hb.
      rewrite list_lookup_fmap in Ha, Hb.
      destruct (ys !! a) as [ia|] eqn:Hia; [|discriminate Ha].
      destruct (ys !! b) as [ib|] eqn:Hib; [|discriminate Hb].
      simpl in Ha, Hb. injection Ha as <-.
      rewrite (rowPromises_lookup _ _ _ _ _ _ Hys Hia) in Hb.
      rewrite (rowPromises_lookup _ _ _ _ _ _ Hys Hib) in Hb.
      now injection Hb.
    + intros x Hx Hx'.
      apply list_elem_of_fmap in Hx as (ia & -> & Hia).
      apply list_elem_of_fmap in Hx' as (ib & Heq & Hib).
      destruct (rowPromises_tags _ _ _ _ _ Hys Hia) as [Hra _].
      destruct (concatMapC_elem _ _ _ _ Hzs Hib) as (j' & xs & Hj' & Hxs & Hib').
      destruct (rowPromises_tags _ _ _ _ _ Hxs Hib') as [Hrb _].
      apply Hj. unfold tag in Heq. injection Heq as Heq _.
      rewrite <- Hra, Heq, Hrb. exact Hj'.
    + now apply IH.
Qed.

(** The promises of a batch carry distinct tags. *)
Lemma batchPromises_NoDup (cfg : ResearchConfig) (rows : list CsvRow) (i : nat)
    (invs : list Invocation) :
  batchPromises cfg rows i = Normal invs -> NoDup (tag <$> invs).
Proof. apply concatMapC_tags_NoDup, NoDup_seq. Qed.

(** With distinct task column names no two results of a batch are written
    to the same cell: every result's text is in its cell after the batch has
    settled, in the working copy and in the published table. *)
Lemma settle_distinct_columns (m : Machine) (i : nat) (rest : list nat)
    (invs : list Invocation) (results : list ResearchResult)
    (k : nat) (inv : Invocation) (r : ResearchResult) (t : ResearchTask) :
  NoDup (newColumnName <$> tasks (config m)) ->
  batchPromises (config m) (newData m) i = Normal invs ->
  length results = length invs ->
  invs !! k = Some inv -> results !! k = Some r ->
  tasks (config m) !! taskIndex inv = Some t ->
  let m' := settle (forLoop rest) i rest invs results m in
  cell (newData m') (rowIndex inv) (newColumnName t) = Str (text r)
  /\ cell (data (app m')) (rowIndex inv) (newColumnName t) = Str (text r).
Proof.
  intros Hnames Hb Hlen Hinv Hr Ht. cbv zeta.
  destruct (settle_merges m i rest invs results Hb Hlen) as (_ & _ & Hpub & Hcells).
  assert (Hone : forall k' inv' t', k < k' -> invs !! k' = Some inv' ->
            tasks (config m) !! taskIndex inv' = Some t' ->
            ~ (rowIndex inv' = rowIndex inv /\ newColumnName t' = newColumnName t)).
  { intros k' inv' t' Hlt Hinv' Ht' [Hrow Hname].
    assert (Htask : taskIndex inv' = taskIndex inv).
    { apply (NoDup_lookup _ _ _ (newColumnName t) Hnames);
        rewrite list_lookup_fmap; [rewrite Ht' | rewrite Ht]; simpl; congruence. }
    assert (Hkk : k' = k).
    { apply (NoDup_lookup _ _ _ (tag inv) (batchPromises_NoDup _ _ _ _ Hb));
        rewrite list_lookup_fmap; [rewrite Hinv' | rewrite Hinv]; simpl;
        unfold tag; congruence. }
    lia. }
  rewrite Hpub. split; exact (Hcells k inv r t Hinv Hr Ht Hone).
Qed.

(** After the sleep the loop runs the iteration at [i + BATCH_SIZE]. *)
Lemma sleep_then_next_batch (cfg : ResearchConfig) (s0 : AppState)
    (m : Machine) (i : nat) (rest : list nat) :
  reachable cfg s0 m ->
  pc m = AwaitSleep i rest ->
  exists b,
    BATCH_SIZE (config m) = Fin b
    /\ i + b < effectiveTotal (config m) (length (newData m))
    /\ step m EvTimer =
         Some (iteration
                 (forLoop (following (config m)
                             (effectiveTotal (config m) (length (newData m))) (i + b)))
                 (i + b)
                 (following (config m)
                    (effectiveTotal (config m) (length (newData m))) (i + b))
                 m).
Proof.
  intros Hreach Hpc.
  destruct (reachable_on_schedule _ _ _ Hreach i rest (or_intror (or_intror Hpc)))
    as (Hi & Hrest & Hmore).
  specialize (Hmore Hpc).
  pose proof (following_unfold (config m)
                (effectiveTotal (config m) (length (newData m))) i) as Hf.
  unfold batchEnd in Hmore.
  destruct (BATCH_SIZE (config m)) as [b|]; [|lia].
  exists b. split; [reflexivity|]. split; [lia|].
  destruct (i + b <? _) eqn:Hlt; [|apply Nat.ltb_ge in Hlt; lia].
  simpl. rewrite Hpc, Hrest, Hf. reflexivity.
Qed.

(** * Further properties of the code *)

(** ** The plan of a run *)

Lemma concatMapC_ext {A B} (f g : A -> Completion (list B)) (l : list A) :
  (forall x, x ∈ l -> f x = g x) -> concatMapC f l = concatMapC g l.
Proof.
  induction l as [|x l IH]; simpl; intros H; [reflexivity|].
  rewrite (H x (list_elem_of_here _ _)), IH; [reflexivity|].
  intros y Hy. apply H. now apply list_elem_of_further.
Qed.

Lemma rowPromises_ext (cfg : ResearchConfig) (rows rows' : list CsvRow) (j : nat) :
  rows !! j = rows' !! j -> rowPromises cfg rows j = rowPromises cfg rows' j.
Proof. unfold rowPromises. now intros ->. Qed.

Lemma concatMapC_returns {A B} (f : A -> Completion (list B)) (l : list A) :
  concatMapC f (List.filter (fun x => returns (f x)) l)
  = Normal (concat (List.map (fun x => pushed (f x)) l)).
Proof.
  induction l as [|x l IH]; simpl; [reflexivity|].
  destruct (f x) as [xs|e] eqn:Hx; simpl; [|exact IH].
  now rewrite Hx, IH.
Qed.

Lemma concatMapC_pushed {A B} (f : A -> Completion (list B)) (l : list A)
    (ys : list B) :
  concatMapC f l = Normal ys -> concat (List.map (fun x => pushed (f x)) l) = ys.
Proof.
  revert ys. induction l as [|x l IH]; simpl; intros ys Hys.
  - now injection Hys.
  - destruct (f x) as [xs|]; [|discriminate]. simpl in *.
    destruct (concatMapC f l) as [zs|]; [|discriminate]. simpl in Hys.
    injection Hys as <-. now rewrite (IH zs).
Qed.

Lemma concatMapC_each {A B} (f : A -> Completion (list B)) (l : list A)
    (ys : list B) (x : A) :
  concatMapC f l = Normal ys -> x ∈ l -> exists xs, f x = Normal xs.
Proof.
  revert ys. induction l as [|a l IH]; simpl; intros ys Hys Hx.
  - now apply elem_of_nil in Hx.
  - destruct (f a) as [as'|] eqn:Hfa; [|discriminate]. simpl in Hys.
    destruct (concatMapC f l) as [zs|] eqn:Hl; [|discriminate].
    apply elem_of_cons in Hx as [->|Hx]; [eauto | now apply (IH zs)].
Qed.

Lemma seq_split (i n : nat) (before after : list nat) (x : nat) :
  seq i n = before ++ x :: after ->
  before = seq i (length before) /\ x = i + length before.
Proof.
  revert i n. induction before as [|b before IH]; intros i n Hseq.
  - destruct n as [|n]; [discriminate|]. simpl in *. injection Hseq as -> _.
    split; [reflexivity | lia].
  - destruct n as [|n]; [discriminate|]. simpl in *. injection Hseq as <- Hseq.
    destruct (IH (S i) n Hseq) as [Hb ->]. split; [now f_equal | lia].
Qed.

(** The plan as what the loop pushes over the rows that resolve. *)
Lemma plan_normal (cfg : ResearchConfig) (rows : list CsvRow) (n : nat) :
  concatMapC (rowPromises cfg rows)
    (List.filter (fun j => returns (rowPromises cfg rows j)) (seq 0 n))
  = Normal (plan cfg rows n).
Proof. apply concatMapC_returns. Qed.

Lemma plan_app (cfg : ResearchConfig) (rows : list CsvRow) (a b : nat) :
  plan cfg rows (a + b)
  = plan cfg rows a
    ++ concat (List.map (fun j => pushed (rowPromises cfg rows j)) (seq a b)).
Proof. unfold plan. now rewrite seq_app, map_app, concat_app. Qed.

Lemma batchEnd_ge (size : jsnum) (i total : nat) :
  i <= total -> i <= batchEnd size i total.
Proof. destruct size; simpl; lia. Qed.

(** The promises of the batch at [i] are the next part of the plan. *)
Lemma plan_batch (cfg : ResearchConfig) (rows0 rows : list CsvRow) (i : nat)
    (invs : list Invocation) :
  length rows = length rows0 ->
  i <= effectiveTotal cfg (length rows0) ->
  (forall j, i <= j -> rows !! j = rows0 !! j) ->
  batchPromises cfg rows i = Normal invs ->
  plan cfg rows0 (batchEnd (BATCH_SIZE cfg) i (effectiveTotal cfg (length rows0)))
  = plan cfg rows0 i ++ invs.
Proof.
  intros Hlen Hi Hrows Hb. unfold batchPromises in Hb. rewrite Hlen in Hb.
  set (total := effectiveTotal cfg (length rows0)) in *.
  set (stop := batchEnd (BATCH_SIZE cfg) i total) in *.
  pose proof (batchEnd_ge (BATCH_SIZE cfg) i total Hi) as Hge. fold stop in Hge.
  replace stop with (i + (stop - i)) at 1 by lia.
  rewrite plan_app. f_equal. apply concatMapC_pushed.
  rewrite <- Hb. apply concatMapC_ext. intros j Hj.
  apply list_elem_of_In, in_seq in Hj.
  apply rowPromises_ext. symmetry. apply Hrows. lia.
Qed.

(** The rows of a batch that is built without an exception resolve. *)
Lemma batch_resolvable (cfg : ResearchConfig) (rows : list CsvRow) (i : nat)
    (invs : list Invocation) (j : nat) (row : CsvRow) :
  batchPromises cfg rows i = Normal invs ->
  i <= j < batchEnd (BATCH_SIZE cfg) i (effectiveTotal cfg (length rows)) ->
  rows !! j = Some row ->
  resolvable cfg row = true.
Proof.
  intros Hb Hj Hrow.
  destruct (concatMapC_each _ _ _ j Hb) as [xs Hxs].
  { apply list_elem_of_In, in_seq. lia. }
  rewrite (rowPromises_row cfg rows j row Hrow) in Hxs.
  destruct (resolvable cfg row); [reflexivity | discriminate].
Qed.

(** When building the batch at [i] throws, the calls made are the part of
    the plan for the rows of the batch before the row that throws. *)
Lemma plan_thrown (cfg : ResearchConfig) (rows0 rows : list CsvRow) (i : nat)
    (e : JsError) :
  length rows = length rows0 ->
  i <= effectiveTotal cfg (length rows0) ->
  (forall j, i <= j -> rows !! j = rows0 !! j) ->
  batchPromises cfg rows i = Throw e ->
  exists j,
    i <= j < batchEnd (BATCH_SIZE cfg) i (effectiveTotal cfg (length rows0))
    /\ plan cfg rows0 j = plan cfg rows0 i ++ batchCalls cfg rows i
    /\ (forall j' row, i <= j' < j -> rows0 !! j' = Some row ->
          resolvable cfg row = true)
    /\ rowPromises cfg rows0 j = Throw e.
Proof.
  intros Hlen Hi Hrows Hb. unfold batchPromises in Hb. unfold batchCalls.
  rewrite Hlen in *.
  set (total := effectiveTotal cfg (length rows0)) in *.
  set (stop := batchEnd (BATCH_SIZE cfg) i total) in *.
  destruct (pushedC_throw _ _ _ Hb) as (before & x & after & ys & Hseq & Hys & Hx & ->).
  pose proof (f_equal (@length nat) Hseq) as Hl.
  rewrite length_seq, length_app in Hl. simpl in Hl.
  destruct (seq_split _ _ _ _ _ Hseq) as [Hbefore ->].
  exists (i + length before). split; [lia|]. split; [|split].
  - rewrite plan_app. f_equal. apply concatMapC_pushed.
    assert (Hys' : concatMapC (rowPromises cfg rows) (seq i (length before))
                   = Normal ys) by (rewrite <- Hbefore; exact Hys).
    rewrite <- Hys'. apply concatMapC_ext. intros j Hj.
    apply list_elem_of_In, in_seq in Hj.
    apply rowPromises_ext. symmetry. apply Hrows. lia.
  - intros j' row Hj' Hrow.
    destruct (concatMapC_each _ _ _ j' Hys) as [xs Hxs].
    { rewrite Hbefore. apply list_elem_of_In, in_seq. lia. }
    rewrite <- Hrows in Hrow by lia.
    rewrite (rowPromises_row cfg rows j' row Hrow) in Hxs.
    destruct (resolvable cfg row); [reflexivity | discriminate].
  - rewrite <- Hx. apply rowPromises_ext. symmetry. apply Hrows. lia.
Qed.

(** ** The counter, the status and the calls made, at every point of a run *)

Lemma effectiveTotal_pos (cfg : ResearchConfig) (len : nat) :
  1 <= len -> 1 <= effectiveTotal cfg len.
Proof.
  intros H. unfold effectiveTotal, limit.
  destruct (rowLimit cfg) as [l|]; [|lia].
  destruct (0 <? l)%Z eqn:Hl; [|lia]. apply Z.ltb_lt in Hl. lia.
Qed.

Lemma run_inv_app (cfg : ResearchConfig) (rows0 : list CsvRow) (m : Machine)
    (g : AppState -> AppState) :
  (forall s, data (g s) = data s /\ processedCount (g s) = processedCount s
             /\ (status (g s) = status s \/ status (g s) <> COMPLETED)) ->
  run_inv cfg rows0 m -> run_inv cfg rows0 (withApp g m).
Proof.
  intros Hg (f & (Hc & Hl & Hn & Hf & Hrows & Hfired & Hdata & Hres) & Hpc).
  destruct (Hg (app m)) as (Hgd & Hgc & Hgs).
  exists f. split.
  - unfold standing; simpl. rewrite Hgd, Hgc. tauto.
  - simpl. rewrite Hgc.
    destruct (pc m); try (destruct Hpc as (H1 & H2 & H3); repeat split; try assumption);
      try (destruct Hgs as [Hgs|Hgs]; [now rewrite Hgs | exact Hgs]).
    + destruct Hpc as [H1 H2]. split; [exact H1|].
      intros Hs. destruct Hgs as [Hgs|Hgs]; [apply H2; congruence | contradiction].
Qed.

Lemma publish_run_inv (cfg : ResearchConfig) (rows0 : list CsvRow)
    (k : Machine -> Machine) (i : nat) (rest : list nat) (m : Machine) :
  (forall m0, loop_ready cfg rows0 rest m0 ->
     run_inv cfg rows0 (k m0)
     /\ processedCount (app m0) <= processedCount (app (k m0))) ->
  config m = cfg ->
  length (newData m) = length rows0 ->
  i < effectiveTotal cfg (length rows0) ->
  rest = following cfg (effectiveTotal cfg (length rows0)) i ->
  (forall j, batchEnd (BATCH_SIZE cfg) i (effectiveTotal cfg (length rows0)) <= j ->
     newData m !! j = rows0 !! j) ->
  fired m = plan cfg rows0 (batchEnd (BATCH_SIZE cfg) i (effectiveTotal cfg (length rows0))) ->
  (forall j row,
     j < batchEnd (BATCH_SIZE cfg) i (effectiveTotal cfg (length rows0)) ->
     rows0 !! j = Some row -> resolvable cfg row = true) ->
  status (app m) <> COMPLETED ->
  run_inv cfg rows0 (publish k i rest m)
  /\ batchEnd (BATCH_SIZE cfg) i (effectiveTotal cfg (length rows0))
     <= processedCount (app (publish k i rest m)).
Proof.
  intros Hk Hc Hl Hi Hrest Hrows Hfired Hres Hs. unfold publish. rewrite Hc, Hl.
  set (total := effectiveTotal cfg (length rows0)) in *.
  set (stop := batchEnd (BATCH_SIZE cfg) i total) in *.
  pose proof (batchEnd_le (BATCH_SIZE cfg) i total) as Hle. fold stop in Hle.
  assert (Hstand : standing cfg rows0 stop
            (withApp (fun s => setProcessedCount stop (setData (newData m) s)) m)).
  { unfold standing; simpl. fold total.
    split; [exact Hc|]. split; [exact Hl|]. split; [lia|]. split; [exact Hle|].
    split; [exact Hrows|]. split; [exact Hfired|]. split; [reflexivity | exact Hres]. }
  destruct (stop <? total) eqn:Hlt.
  - split; [|simpl; lia]. exists stop. split.
    + exact Hstand.
    + simpl. fold total stop. tauto.
  - apply Nat.ltb_ge in Hlt.
    match goal with |- context [k ?m1] => destruct (Hk m1) as [Hinv Hcount] end.
    + unfold loop_ready. simpl. fold total. split; [exact Hstand|].
      split; [exact Hs|]. split; [rewrite Hrest; apply following_scheduled|].
      assert (Hnil : rest = []) by (rewrite Hrest; apply following_last; assumption).
      rewrite Hnil. lia.
    + split; [exact Hinv | exact Hcount].
Qed.

Lemma fire_run_inv (cfg : ResearchConfig) (rows0 : list CsvRow)
    (k : Machine -> Machine) (i : nat) (rest : list nat) (m : Machine) :
  (forall m0, loop_ready cfg rows0 rest m0 ->
     run_inv cfg rows0 (k m0)
     /\ processedCount (app m0) <= processedCount (app (k m0))) ->
  standing cfg rows0 i m ->
  processedCount (app m) = i ->
  status (app m) <> COMPLETED ->
  i < effectiveTotal cfg (length rows0) ->
  rest = following cfg (effectiveTotal cfg (length rows0)) i ->
  run_inv cfg rows0 (fire k i rest m)
  /\ i <= processedCount (app (fire k i rest m)).
Proof.
  intros Hk (Hc & Hl & Hn & Hf & Hrows & Hfired & Hdata & Hres) Hcount Hs Hi Hrest.
  unfold fire. rewrite Hcount in Hrows.
  pose proof (batchEnd_ge (BATCH_SIZE cfg) i (effectiveTotal cfg (length rows0))
                ltac:(lia)) as Hge.
  pose proof (batchEnd_le (BATCH_SIZE cfg) i (effectiveTotal cfg (length rows0))) as Hle.
  destruct (batchPromises (config m) (newData m) i) as [invs|e] eqn:Hb; rewrite Hc in Hb.
  - pose proof (plan_batch cfg rows0 (newData m) i invs Hl ltac:(lia) Hrows Hb) as Hplan.
    assert (Hres' : forall j row,
              j < batchEnd (BATCH_SIZE cfg) i (effectiveTotal cfg (length rows0)) ->
              rows0 !! j = Some row -> resolvable cfg row = true).
    { intros j row Hj Hrow. destruct (decide (j < i)) as [Hlt|Hnlt];
        [now apply (Hres j)|].
      apply (batch_resolvable cfg (newData m) i invs j row Hb);
        [rewrite Hl; lia | rewrite Hrows by lia; exact Hrow]. }
    destruct invs as [|inv invs].
    + rewrite app_nil_r in Hplan.
      destruct (publish_run_inv cfg rows0 k i rest m Hk Hc Hl Hi Hrest) as [Hinv Hle'];
        [intros j Hj; apply Hrows; lia | congruence | exact Hres' | exact Hs |].
      split; [exact Hinv | lia].
    + split; [|simpl; lia].
      exists (batchEnd (BATCH_SIZE cfg) i (effectiveTotal cfg (length rows0))).
      split.
      * unfold standing; simpl. rewrite Hcount.
        split; [exact Hc|]. split; [exact Hl|]. split; [exact Hge|].
        split; [exact Hle|]. split; [exact Hrows|]. split; [congruence|].
        split; [exact Hdata | exact Hres'].
      * simpl. tauto.
  - destruct (plan_thrown cfg rows0 (newData m) i e Hl ltac:(lia) Hrows Hb)
      as (j & Hj & Hplan & Hres' & _).
    split; [|simpl; lia]. exists j. split.
    + unfold standing; simpl. rewrite Hcount, Hc.
      split; [reflexivity|]. split; [exact Hl|]. split; [lia|]. split; [lia|].
      split; [exact Hrows|]. split; [congruence|]. split; [exact Hdata|].
      intros j' row Hj' Hrow. destruct (decide (j' < i)) as [Hlt|Hnlt];
        [now apply (Hres j') | apply (Hres' j' row); [lia | exact Hrow]].
    + simpl. exact Hs.
Qed.

Lemma forLoop_run_inv (cfg : ResearchConfig) (rows0 : list CsvRow)
    (starts : list nat) (m : Machine) :
  loop_ready cfg rows0 starts m ->
  run_inv cfg rows0 (forLoop starts m)
  /\ processedCount (app m) <= processedCount (app (forLoop starts m)).
Proof.
  revert m. induction starts as [|i rest IH]; intros m (Hstand & Hs & Hsched & Hcount).
  - simpl. split; [|lia].
    exists (processedCount (app m)). split.
    + destruct Hstand as (Hc & Hl & Hn & Hf & Hrows & Hfired & Hdata & Hres).
      unfold standing; simpl. tauto.
    + simpl. split; [reflexivity | intros _; exact Hcount].
  - destruct Hsched as [Hsched|(i0 & Hi & Hsched)]; [discriminate Hsched|].
    injection Hsched as <- Hrest.
    simpl. unfold iteration.
    destruct (isCancelledRef (app m)).
    { split; [|simpl; lia]. exists (processedCount (app m)). split.
      - destruct Hstand as (Hc & Hl & Hn & Hf & Hrows & Hfired & Hdata & Hres).
        unfold standing; simpl. tauto.
      - simpl. split; [reflexivity | intros Hcomp; contradiction]. }
    destruct (isPausedRef (app m)).
    { split; [|simpl; lia]. exists (processedCount (app m)). split.
      - destruct Hstand as (Hc & Hl & Hn & Hf & Hrows & Hfired & Hdata & Hres).
        unfold standing; simpl. tauto.
      - simpl. tauto. }
    rewrite Hcount in Hstand.
    destruct (fire_run_inv cfg rows0 (forLoop rest) i rest m IH Hstand Hcount Hs Hi Hrest)
      as [Hinv Hle].
    split; [exact Hinv | lia].
Qed.

Lemma on_schedule_total (cfg : ResearchConfig) (rows0 : list CsvRow) (f : nat)
    (m : Machine) (i : nat) (rest : list nat) :
  on_schedule m -> standing cfg rows0 f m ->
  pc m = AwaitResume i rest \/ pc m = AwaitBatch i rest \/ pc m = AwaitSleep i rest ->
  i < effectiveTotal cfg (length rows0)
  /\ rest = following cfg (effectiveTotal cfg (length rows0)) i
  /\ (pc m = AwaitSleep i rest ->
      batchEnd (BATCH_SIZE cfg) i (effectiveTotal cfg (length rows0))
        < effectiveTotal cfg (length rows0)).
Proof.
  intros Hsched (Hc & Hl & _) Hpc.
  specialize (Hsched i rest Hpc). cbv zeta in Hsched.
  now rewrite Hc, Hl in Hsched.
Qed.

Lemma release_run_inv (cfg : ResearchConfig) (rows0 : list CsvRow) (m : Machine) :
  on_schedule m -> run_inv cfg rows0 m ->
  run_inv cfg rows0 (release m)
  /\ processedCount (app m) <= processedCount (app (release m)).
Proof.
  intros Hsched Hinv. unfold release.
  destruct (resumeResolverRef (app m)); [|split; [exact Hinv | lia]].
  assert (Hinv1 : run_inv cfg rows0 (withApp (setResumeResolver false) m)).
  { apply run_inv_app; [|exact Hinv]. intros s. simpl. tauto. }
  destruct (pc m) as [i rest|i rest|i rest| |] eqn:Hpc;
    try (split; [exact Hinv1 | simpl; lia]).
  destruct Hinv as (f & Hstand & Hcase). rewrite Hpc in Hcase.
  destruct Hcase as (Hcount & -> & Hs).
  destruct (on_schedule_total cfg rows0 i m i rest Hsched Hstand (or_introl Hpc))
    as (Hi & Hrest & _).
  assert (Hstand1 : standing cfg rows0 i (withApp (setResumeResolver false) m)).
  { destruct Hstand as (Hc & Hl & Hn & Hf & Hrows & Hfired & Hdata & Hres).
    unfold standing; simpl. tauto. }
  unfold afterWake. simpl.
  destruct (isCancelledRef (app m)).
  - split; [|simpl; lia]. exists i. split.
    + destruct Hstand1 as (Hc & Hl & Hn & Hf & Hrows & Hfired & Hdata & Hres).
      unfold standing; simpl in *. tauto.
    + simpl. split; [congruence | intros Hcomp; contradiction].
  - destruct (fire_run_inv cfg rows0 (forLoop rest) i rest
                (withApp (setResumeResolver false) m)
                (forLoop_run_inv cfg rows0 rest) Hstand1 Hcount Hs Hi Hrest)
      as [Hinv' Hle].
    split; [exact Hinv' | simpl in *; lia].
Qed.

Lemma step_run_inv (cfg : ResearchConfig) (rows0 : list CsvRow)
    (m : Machine) (ev : Event) (m' : Machine) :
  on_schedule m -> run_inv cfg rows0 m -> step m ev = Some m' ->
  run_inv cfg rows0 m'
  /\ processedCount (app m) <= processedCount (app m').
Proof.
  intros Hsched Hinv Hstep. destruct ev as [| | |results|e|]; simpl in Hstep.
  - injection Hstep as <-. split; [|simpl; lia].
    apply run_inv_app; [|exact Hinv]. intros s. simpl.
    split; [reflexivity|]. split; [reflexivity|]. right. discriminate.
  - injection Hstep as <-. unfold handleResume.
    apply (release_run_inv cfg rows0
             (withApp (fun s => setStatus PROCESSING (setIsPaused false s)) m)).
    + exact Hsched.
    + apply run_inv_app; [|exact Hinv]. intros s. simpl.
      split; [reflexivity|]. split; [reflexivity|]. right. discriminate.
  - injection Hstep as <-. unfold handleCancel.
    apply (release_run_inv cfg rows0
             (withApp (fun s => setStatus IDLE (setIsPaused false (setIsCancelled true s))) m)).
    + exact Hsched.
    + apply run_inv_app; [|exact Hinv]. intros s. simpl.
      split; [reflexivity|]. split; [reflexivity|]. right. discriminate.
  - destruct (pc m) as [|i rest| | |] eqn:Hpc; try discriminate.
    destruct (batchPromises _ _ _) as [invs|] eqn:Hb; [|discriminate].
    destruct (decide _) as [Hlen|]; [|discriminate]. injection Hstep as <-.
    destruct Hinv as (f & Hstand & Hcase). rewrite Hpc in Hcase.
    destruct Hcase as (Hcount & -> & Hs).
    destruct (on_schedule_total cfg rows0 _ m i rest Hsched Hstand
                (or_intror (or_introl Hpc))) as (Hi & Hrest & _).
    destruct Hstand as (Hc & Hl & Hn & Hf & Hrows & Hfired & Hdata & Hres).
    unfold settle.
    destruct (mergeResults _ _ _) as [[merged ns]|err] eqn:Hmerge.
    + pose proof (mergeResults_length _ _ _ _ Hmerge) as Hmlen. simpl in Hmlen.
      match goal with |- context [publish _ _ _ ?m2] =>
        destruct (publish_run_inv cfg rows0 (forLoop rest) i rest m2
                    (forLoop_run_inv cfg rows0 rest)) as [Hinv' Hle]
      end; simpl; try assumption; try congruence.
      * intros j Hj.
        rewrite <- (Hrows j) by (pose proof (batchEnd_ge (BATCH_SIZE cfg) i
                                   (effectiveTotal cfg (length rows0)) ltac:(lia)); lia).
        apply (mergeResults_other_row _ _ _ _ j Hmerge).
        intros [inv r] Hin. simpl. apply elem_of_zip_l in Hin.
        pose proof (batchPromises_tags _ _ _ _ _ Hb Hin) as (_ & Hlt & _).
        rewrite Hc, Hl in Hlt. lia.
      * split; [exact Hinv'|].
        pose proof (batchEnd_ge (BATCH_SIZE cfg) i
                      (effectiveTotal cfg (length rows0)) ltac:(lia)). lia.
    + split; [|simpl; lia].
      exists (batchEnd (BATCH_SIZE cfg) i (effectiveTotal cfg (length rows0))).
      split; [unfold standing; simpl; tauto | simpl; exact Hs].
  - destruct (pc m) as [|i rest| | |] eqn:Hpc; try discriminate.
    injection Hstep as <-. split; [|simpl; lia].
    destruct Hinv as (f & Hstand & Hcase). rewrite Hpc in Hcase.
    destruct Hcase as (_ & _ & Hs).
    exists f. split; [|simpl; exact Hs].
    destruct Hstand as (Hc & Hl & Hn & Hf & Hrows & Hfired & Hdata & Hres).
    unfold standing; simpl. tauto.
  - destruct (pc m) as [| |i rest| |] eqn:Hpc; try discriminate.
    injection Hstep as <-.
    destruct Hinv as (f & Hstand & Hcase). rewrite Hpc in Hcase.
    destruct Hcase as (Hcount & -> & Hs).
    destruct (on_schedule_total cfg rows0 _ m i rest Hsched Hstand
                (or_intror (or_intror Hpc))) as (Hi & Hrest & Hmore).
    specialize (Hmore Hpc).
    apply forLoop_run_inv. unfold loop_ready.
    split; [exact Hstand|]. split; [exact Hs|].
    split; [rewrite Hrest; apply following_scheduled|].
    rewrite Hcount, Hrest.
    pose proof (following_unfold cfg (effectiveTotal cfg (length rows0)) i) as Hfu.
    unfold batchEnd in *.
    destruct (BATCH_SIZE cfg) as [b|]; [|lia].
    rewrite Hfu. destruct (i + b <? _) eqn:Hlt; [lia|].
    apply Nat.ltb_ge in Hlt. lia.
Qed.

Lemma prologue_fields (cfg : ResearchConfig) (s : AppState) :
  processedCount (prologue cfg s) = 0
  /\ status (prologue cfg s) = PROCESSING
  /\ activeConfig (prologue cfg s) = Some cfg
  /\ isCancelledRef (prologue cfg s) = false
  /\ isPausedRef (prologue cfg s) = false
  /\ cellSources (prologue cfg s) = cellSources s.
Proof. unfold prologue. destruct (newColumnsToAdd cfg s); simpl; tauto. Qed.

Lemma start_loop_ready (cfg : ResearchConfig) (s0 : AppState) :
  data s0 <> [] ->
  loop_ready cfg (data s0)
    (batch_starts (BATCH_SIZE cfg) (effectiveTotal cfg (length (data s0))))
    {| app := prologue cfg s0; config := cfg; newData := data s0;
       pc := Returned; fired := [] |}.
Proof.
  intros Hne. destruct (prologue_fields cfg s0) as (Hcount & Hs & _).
  assert (Hpos : 1 <= effectiveTotal cfg (length (data s0))).
  { apply effectiveTotal_pos. destruct (data s0); [congruence | simpl; lia]. }
  unfold loop_ready; simpl. rewrite Hcount, Hs.
  split; [|split; [discriminate|split; [apply batch_starts_scheduled|]]].
  - unfold standing; simpl. rewrite Hcount, prologue_data.
    repeat split; try reflexivity; lia.
  - rewrite batch_starts_unfold.
    destruct (0 <? _) eqn:Hlt; [reflexivity | apply Nat.ltb_ge in Hlt; lia].
Qed.

Lemma handleStartResearch_rows (cfg : ResearchConfig) (s0 : AppState) :
  data s0 <> [] ->
  handleStartResearch cfg s0 =
    forLoop (batch_starts (BATCH_SIZE cfg) (effectiveTotal cfg (length (data s0))))
      {| app := prologue cfg s0; config := cfg; newData := data s0;
         pc := Returned; fired := [] |}.
Proof.
  intros Hne. unfold handleStartResearch. destruct (data s0); [congruence | reflexivity].
Qed.

(** The counter, the status and the log of calls at every point of a run
    over a table that has rows. *)
Lemma reachable_run_inv (cfg : ResearchConfig) (s0 : AppState) (m : Machine) :
  data s0 <> [] -> reachable cfg s0 m -> run_inv cfg (data s0) m.
Proof.
  intros Hne Hreach. induction Hreach as [|m ev m' Hreach IH Hstep].
  - rewrite handleStartResearch_rows by exact Hne.
    apply forLoop_run_inv. now apply start_loop_ready.
  - eapply step_run_inv; [| exact IH | exact Hstep].
    eapply reachable_on_schedule. exact Hreach.
Qed.

Lemma rowPromises_elem (cfg : ResearchConfig) (rows : list CsvRow) (j : nat)
    (invs : list Invocation) (inv : Invocation) :
  rowPromises cfg rows j = Normal invs ->
  (inv ∈ invs <->
   exists k row t,
     rows !! j = Some row
     /\ nonempty (subject_kept cfg row) = true
     /\ tasks cfg !! k = Some t
     /\ inv = {| rowIndex := j; taskIndex := k;
                 inv_entityName := subject_kept cfg row;
                 inv_prompt := prompt t;
                 inv_context := contextStr cfg row;
                 inv_thinking := useThinkingModel cfg |}).
Proof.
  unfold rowPromises. destruct (rows !! j) as [row|] eqn:Hrow.
  - rewrite entityName_resolves. destruct (resolvable _ row) eqn:Hres; [|discriminate]. simpl.
    destruct (nonempty (subject_kept cfg row)) eqn:Hname; intros H; injection H as <-.
    + rewrite elem_of_lookup_imap. split.
      * intros (k & t & -> & Ht). exists k, row, t. tauto.
      * intros (k & row' & t & Hr & _ & Ht & ->). injection Hr as <-.
        exists k, t. tauto.
    + split; [intros H; now apply elem_of_nil in H|].
      intros (k & row' & t & Hr & Hn & _). injection Hr as <-. congruence.
  - destruct (targetColumns cfg); [|discriminate]. intros H; injection H as <-.
    split; [intros H; now apply elem_of_nil in H|].
    intros (k & row' & t & Hr & _). discriminate Hr.
Qed.

Lemma concatMapC_elem_2 {A B} (f : A -> Completion (list B)) (l : list A)
    (ys xs : list B) (x : A) (y : B) :
  concatMapC f l = Normal ys -> x ∈ l -> f x = Normal xs -> y ∈ xs -> y ∈ ys.
Proof.
  revert ys. induction l as [|a l IH]; simpl; intros ys Hys Hx Hfx Hy.
  - now apply elem_of_nil in Hx.
  - destruct (f a) as [as'|] eqn:Hfa; [|discriminate]. simpl in Hys.
    destruct (concatMapC f l) as [zs|] eqn:Hl; [|discriminate]. simpl in Hys.
    injection Hys as <-. apply elem_of_app.
    apply elem_of_cons in Hx as [->|Hx].
    + left. rewrite Hfx in Hfa. now injection Hfa as <-.
    + right. now apply (IH zs eq_refl Hx Hfx).
Qed.

(** The plan holds one call per task for every row below [n] that
    resolves to a subject, with the subject and the context of that row. *)
Lemma elem_of_plan (cfg : ResearchConfig) (rows : list CsvRow) (n : nat)
    (inv : Invocation) :
  inv ∈ plan cfg rows n <->
  exists j k row t,
    j < n
    /\ rows !! j = Some row
    /\ resolvable cfg row = true
    /\ nonempty (subject_kept cfg row) = true
    /\ tasks cfg !! k = Some t
    /\ inv = {| rowIndex := j; taskIndex := k;
                inv_entityName := subject_kept cfg row;
                inv_prompt := prompt t;
                inv_context := contextStr cfg row;
                inv_thinking := useThinkingModel cfg |}.
Proof.
  pose proof (plan_normal cfg rows n) as Hplan. split.
  - intros Hin.
    destruct (concatMapC_elem _ _ _ _ Hplan Hin) as (j & xs & Hj & Hxs & Hin').
    apply list_elem_of_In, filter_In in Hj as [Hj _]. apply in_seq in Hj.
    apply (rowPromises_elem _ _ _ _ inv Hxs) in Hin'
      as (k & row & t & Hrow & Hname & Ht & Hinv).
    exists j, k, row, t. split; [lia|]. split; [exact Hrow|].
    rewrite (rowPromises_row cfg rows j row Hrow) in Hxs.
    destruct (resolvable cfg row); [tauto | discriminate].
  - intros (j & k & row & t & Hj & Hrow & Hres & Hname & Ht & ->).
    pose proof (rowPromises_row cfg rows j row Hrow) as Hxs. rewrite Hres in Hxs.
    eapply (concatMapC_elem_2 _ _ _ _ j _ Hplan).
    + apply list_elem_of_In, filter_In. split; [apply in_seq; lia|].
      now rewrite Hxs.
    + exact Hxs.
    + apply (rowPromises_elem _ _ _ _ _ Hxs). exists k, row, t. tauto.
Qed.

Lemma plan_NoDup (cfg : ResearchConfig) (rows : list CsvRow) (n : nat) :
  NoDup (tag <$> plan cfg rows n).
Proof.
  eapply concatMapC_tags_NoDup; [|apply plan_normal].
  apply NoDup_ListNoDup, List.NoDup_filter, seq_NoDup.
Qed.

Lemma plan_prefix (cfg : ResearchConfig) (rows : list CsvRow) (f n : nat) :
  f <= n -> plan cfg rows f `prefix_of` plan cfg rows n.
Proof.
  intros Hf. replace n with (f + (n - f)) by lia. rewrite plan_app.
  now apply prefix_app_r.
Qed.

(** X1: in a run over a table that has rows, no step lowers the counter of
    processed rows, and the counter never exceeds the effective total. *)
Theorem progress_monotone_bounded (cfg : ResearchConfig) (s0 : AppState)
    (m : Machine) (ev : Event) (m' : Machine) :
  data s0 <> [] ->
  reachable cfg s0 m ->
  step m ev = Some m' ->
  processedCount (app m) <= processedCount (app m')
  /\ processedCount (app m') <= effectiveTotal cfg (length (data s0)).
Proof.
  intros Hne Hreach Hstep.
  destruct (step_run_inv cfg (data s0) m ev m'
              (reachable_on_schedule _ _ _ Hreach)
              (reachable_run_inv _ _ _ Hne Hreach) Hstep)
    as [(f & (_ & _ & Hn & Hf & _) & _) Hle].
  split; [exact Hle | lia].
Qed.

(** X2: in a run over a table that has rows, when the state is Completed the
    loop has returned, the counter equals the effective total, and the
    published table has as many rows as the initial one. *)
Theorem completed_means_all_rows (cfg : ResearchConfig) (s0 : AppState) (m : Machine) :
  data s0 <> [] ->
  reachable cfg s0 m ->
  status (app m) = COMPLETED ->
  pc m = Returned
  /\ processedCount (app m) = effectiveTotal cfg (length (data s0))
  /\ length (data (app m)) = length (data s0).
Proof.
  intros Hne Hreach Hs.
  destruct (reachable_run_inv _ _ _ Hne Hreach)
    as (f & (_ & Hl & _ & _ & _ & _ & Hdata & _) & Hcase).
  rewrite Hdata, Hl.
  destruct (pc m); try (destruct Hcase as (_ & _ & Hn); contradiction);
    [|contradiction].
  destruct Hcase as [_ Hc]. auto.
Qed.

(** X3: a completed run has called the invoker exactly once for every task
    and every row below the effective total that has a subject, and for
    nothing else; each call carries the subject and the context of the row as
    it was when the run started. *)
Theorem completed_run_calls (cfg : ResearchConfig) (s0 : AppState) (m : Machine) :
  data s0 <> [] ->
  reachable cfg s0 m ->
  status (app m) = COMPLETED ->
  NoDup (tag <$> fired m)
  /\ forall inv,
       inv ∈ fired m <->
       exists j k row t,
         j < effectiveTotal cfg (length (data s0))
         /\ data s0 !! j = Some row
         /\ nonempty (subject_kept cfg row) = true
         /\ tasks cfg !! k = Some t
         /\ inv = {| rowIndex := j; taskIndex := k;
                     inv_entityName := subject_kept cfg row;
                     inv_prompt := prompt t;
                     inv_context := contextStr cfg row;
                     inv_thinking := useThinkingModel cfg |}.
Proof.
  intros Hne Hreach Hs.
  destruct (reachable_run_inv _ _ _ Hne Hreach)
    as (f & (_ & _ & _ & Hf & _ & Hfired & _ & Hres) & Hcase).
  assert (Hfull : f = effectiveTotal cfg (length (data s0))).
  { destruct (pc m); try (destruct Hcase as (_ & _ & Hn); contradiction);
      [|contradiction].
    destruct Hcase as [-> Hc]. auto. }
  rewrite Hfired, Hfull. rewrite Hfull in Hres. split.
  - apply plan_NoDup.
  - intros inv. rewrite elem_of_plan. split.
    + intros (j & k & row & t & Hj & Hrow & _ & H). exists j, k, row, t. tauto.
    + intros (j & k & row & t & Hj & Hrow & H). exists j, k, row, t.
      split; [exact Hj|]. split; [exact Hrow|].
      split; [exact (Hres j row Hj Hrow) | exact H].
Qed.

(** X4: at every point of a run the calls made so far are an initial part
    of the calls of the completed run, in the same order, and no (row, task)
    pair is called twice. *)
Theorem calls_follow_plan (cfg : ResearchConfig) (s0 : AppState) (m : Machine) :
  data s0 <> [] ->
  reachable cfg s0 m ->
  fired m `prefix_of` plan cfg (data s0) (effectiveTotal cfg (length (data s0)))
  /\ NoDup (tag <$> fired m).
Proof.
  intros Hne Hreach.
  destruct (reachable_run_inv _ _ _ Hne Hreach)
    as (f & (_ & _ & _ & Hf & _ & Hfired & _) & _).
  rewrite Hfired. split.
  - now apply plan_prefix.
  - apply plan_NoDup.
Qed.

(** X5: at every point of a run the published table has the rows of the
    initial table from the counter on: only rows below the counter of
    processed rows can differ, and the number of rows never changes. *)
Theorem unprocessed_rows_unchanged (cfg : ResearchConfig) (s0 : AppState) (m : Machine) :
  data s0 <> [] ->
  reachable cfg s0 m ->
  length (data (app m)) = length (data s0)
  /\ forall j, processedCount (app m) <= j -> data (app m) !! j = data s0 !! j.
Proof.
  intros Hne Hreach.
  destruct (reachable_run_inv _ _ _ Hne Hreach)
    as (f & (_ & Hl & _ & _ & Hrows & _ & Hdata & _) & _).
  rewrite Hdata. split; [exact Hl | exact Hrows].
Qed.

(** ** What a step leaves alone *)

Lemma publish_cellSources (k : Machine -> Machine) i rest m :
  (forall m0, cellSources (app (k m0)) = cellSources (app m0)) ->
  cellSources (app (publish k i rest m)) = cellSources (app m).
Proof.
  intros Hk. unfold publish. destruct (_ <? _); [reflexivity|]. now rewrite Hk.
Qed.

Lemma fire_cellSources (k : Machine -> Machine) i rest m :
  (forall m0, cellSources (app (k m0)) = cellSources (app m0)) ->
  cellSources (app (fire k i rest m)) = cellSources (app m).
Proof.
  intros Hk. unfold fire.
  destruct (batchPromises _ _ _) as [[|inv invs]|e]; [|reflexivity..].
  now apply publish_cellSources.
Qed.

Lemma forLoop_cellSources (starts : list nat) (m : Machine) :
  cellSources (app (forLoop starts m)) = cellSources (app m).
Proof.
  revert m. induction starts as [|i rest IH]; intros m; simpl; [reflexivity|].
  unfold iteration.
  destruct (isCancelledRef (app m)); [reflexivity|].
  destruct (isPausedRef (app m)); [reflexivity|].
  now apply fire_cellSources.
Qed.

Lemma release_frame (m : Machine) :
  control_frame m (release m)
  /\ cellSources (app (release m)) = cellSources (app m).
Proof.
  unfold release. destruct (resumeResolverRef (app m));
    [|split; [apply control_frame_refl | reflexivity]].
  destruct (pc m) as [i rest| | | |];
    try (split; [unfold control_frame; simpl; tauto | reflexivity]).
  unfold afterWake. simpl.
  destruct (isCancelledRef (app m));
    [split; [unfold control_frame; simpl; tauto | reflexivity]|].
  split.
  - eapply control_frame_trans;
      [|apply fire_control_frame, forLoop_control_frame].
    unfold control_frame; simpl; tauto.
  - rewrite fire_cellSources by apply forLoop_cellSources. reflexivity.
Qed.

(** A step other than the settling of a batch changes neither the working
    copy nor the sources nor the header nor the active config. *)
Lemma step_quiet (m : Machine) (ev : Event) (m' : Machine) :
  step m ev = Some m' ->
  (forall results, ev <> EvBatchSettled results) ->
  newData m' = newData m
  /\ cellSources (app m') = cellSources (app m)
  /\ columns (app m') = columns (app m)
  /\ activeConfig (app m') = activeConfig (app m)
  /\ config m' = config m.
Proof.
  intros Hstep Hev. destruct ev as [| | |results|e|]; simpl in Hstep.
  - injection Hstep as <-. simpl. tauto.
  - injection Hstep as <-. unfold handleResume.
    match goal with |- context [release ?m1] =>
      destruct (release_frame m1) as ((A & _ & _ & D & E & N & _) & S) end.
    rewrite N, S, D, A, E. simpl. tauto.
  - injection Hstep as <-. unfold handleCancel.
    match goal with |- context [release ?m1] =>
      destruct (release_frame m1) as ((A & _ & _ & D & E & N & _) & S) end.
    rewrite N, S, D, A, E. simpl. tauto.
  - now destruct (Hev results).
  - destruct (pc m); try discriminate. injection Hstep as <-. simpl. tauto.
  - destruct (pc m) as [| |i rest| |]; try discriminate. injection Hstep as <-.
    destruct (forLoop_control_frame rest m) as (A & _ & _ & D & E & N & _).
    rewrite N, (forLoop_cellSources rest m), D, A, E. tauto.
Qed.

(** What the settling of a batch does to the sources, the header and the
    active config. *)
Lemma settle_frame (m : Machine) (i : nat) (rest : list nat)
    (invs : list Invocation) (results : list ResearchResult)
    (merged : list CsvRow) (newSources : gmap (nat * jsstring) (list Source)) :
  mergeResults (config m) (newData m, ∅) (zip invs results)
    = Normal (merged, newSources) ->
  let m' := settle (forLoop rest) i rest invs results m in
  newData m' = merged
  /\ cellSources (app m') = newSources ∪ cellSources (app m)
  /\ columns (app m') = columns (app m)
  /\ activeConfig (app m') = activeConfig (app m)
  /\ config m' = config m.
Proof.
  intros Hm. cbv zeta. unfold settle. rewrite Hm.
  match goal with |- context [publish _ _ _ ?m2] =>
    destruct (publish_control_frame (forLoop rest) i rest m2
                (forLoop_control_frame rest)) as (A & _ & _ & D & E & N & _);
    pose proof (publish_cellSources (forLoop rest) i rest m2
                  (forLoop_cellSources rest)) as S
  end.
  rewrite N, S, D, A, E. simpl. tauto.
Qed.

Lemma step_activeConfig (m : Machine) (ev : Event) (m' : Machine) :
  step m ev = Some m' ->
  activeConfig (app m') = activeConfig (app m) /\ columns (app m') = columns (app m).
Proof.
  intros Hstep.
  destruct ev as [| | |results|e|];
    try (destruct (step_quiet m _ m' Hstep) as (_ & _ & C & A & _);
         [intros results; discriminate | tauto]).
  simpl in Hstep. destruct (pc m) as [|i rest| | |]; try discriminate.
  destruct (batchPromises _ _ _) as [invs|]; [|discriminate].
  destruct (decide _); [|discriminate]. injection Hstep as <-.
  destruct (mergeResults (config m) (newData m, ∅) (zip invs results))
    as [[merged ns]|err] eqn:Hm.
  - destruct (settle_frame m i rest invs results merged ns Hm) as (_ & _ & C & A & _).
    tauto.
  - unfold settle. rewrite Hm. simpl. tauto.
Qed.

Lemma reachable_activeConfig (cfg : ResearchConfig) (s0 : AppState) (m : Machine) :
  data s0 <> [] -> reachable cfg s0 m -> activeConfig (app m) = Some cfg.
Proof.
  intros Hne Hreach. induction Hreach as [|m ev m' _ IH Hstep].
  - rewrite handleStartResearch_rows by exact Hne.
    match goal with |- context [forLoop ?st ?m0] =>
      destruct (forLoop_control_frame st m0) as (A & _) end.
    rewrite A. simpl. apply prologue_fields.
  - destruct (step_activeConfig _ _ _ Hstep) as [A _]. now rewrite A.
Qed.

(** X6: in a run the published table changes only when a batch settles:
    pause, resume, cancel, a rejected batch and the end of a sleep leave every
    row as it was. *)
Theorem table_changes_only_on_settle (cfg : ResearchConfig) (s0 : AppState)
    (m : Machine) (ev : Event) (m' : Machine) :
  data s0 <> [] ->
  reachable cfg s0 m ->
  step m ev = Some m' ->
  (forall results, ev <> EvBatchSettled results) ->
  data (app m') = data (app m).
Proof.
  intros Hne Hreach Hstep Hev.
  destruct (reachable_run_inv _ _ _ Hne Hreach) as (f & (_ & _ & _ & _ & _ & _ & Hd & _) & _).
  destruct (reachable_run_inv _ _ _ Hne (reach_step _ _ _ _ _ Hreach Hstep))
    as (f' & (_ & _ & _ & _ & _ & _ & Hd' & _) & _).
  destruct (step_quiet _ _ _ Hstep Hev) as (Hn & _).
  congruence.
Qed.

Lemma displayTotal_active (cfg : ResearchConfig) (s : AppState) :
  activeConfig s = Some cfg ->
  displayTotal s =
    if isActiveOrComplete s then effectiveTotal cfg (length (data s))
    else length (data s).
Proof.
  intros Hc. unfold displayTotal, effectiveTotal, limit. rewrite Hc.
  destruct (isActiveOrComplete s); [|reflexivity].
  destruct (rowLimit cfg) as [l|]; [|lia].
  destruct (0 <? l)%Z; [reflexivity | lia].
Qed.

(** X7: the progress bar never overflows.  At every point of a run over a
    table that has rows the counter of processed rows is at most the total on
    display, and while the state is Processing, Paused or Completed that total
    is the effective total of the loop. *)
Theorem progress_within_display_total (cfg : ResearchConfig) (s0 : AppState)
    (m : Machine) :
  data s0 <> [] ->
  reachable cfg s0 m ->
  processedCount (app m) <= displayTotal (app m)
  /\ (status (app m) <> IDLE ->
      displayTotal (app m) = effectiveTotal cfg (length (data s0))).
Proof.
  intros Hne Hreach.
  pose proof (reachable_activeConfig _ _ _ Hne Hreach) as Hc.
  destruct (reachable_run_inv _ _ _ Hne Hreach)
    as (f & (_ & Hl & Hn & Hf & _ & _ & Hd & _) & _).
  rewrite (displayTotal_active cfg (app m) Hc), Hd, Hl.
  pose proof (effectiveTotal_le cfg (length (data s0))).
  unfold isActiveOrComplete. split.
  - destruct (status (app m)); lia.
  - intros Hs. destruct (status (app m)); [congruence | reflexivity..].
Qed.

(** ** The sources of the cells *)

Lemma mergeResult_sources (cfg : ResearchConfig)
    (acc acc' : list CsvRow * gmap (nat * jsstring) (list Source))
    (res : Invocation * ResearchResult) (t : ResearchTask) :
  mergeResult cfg acc res = Normal acc' ->
  tasks cfg !! taskIndex res.1 = Some t ->
  acc'.2 = if decide (sources res.2 = []) then acc.2
           else <[(rowIndex res.1, newColumnName t) := sources res.2]> acc.2.
Proof.
  unfold mergeResult. intros H Ht. rewrite Ht in H. now injection H as <-.
Qed.

(** A cell no result of the batch is written to gets no new sources. *)
Lemma mergeResults_sources_other (cfg : ResearchConfig)
    (rs : list (Invocation * ResearchResult))
    (acc acc' : list CsvRow * gmap (nat * jsstring) (list Source))
    (key : nat * jsstring) :
  mergeResults cfg acc rs = Normal acc' ->
  (forall res t, res ∈ rs -> tasks cfg !! taskIndex res.1 = Some t ->
     (rowIndex res.1, newColumnName t) <> key) ->
  acc'.2 !! key = acc.2 !! key.
Proof.
  revert acc. induction rs as [|res rs IH]; simpl; intros acc H Hne.
  - now injection H as <-.
  - destruct (mergeResult cfg acc res) as [acc1|] eqn:H1; [|discriminate].
    simpl in H.
    rewrite (IH _ H) by (intros r t Hr; apply Hne; now apply list_elem_of_further).
    destruct (mergeResult_inv _ _ _ _ H1) as (t & Ht & _).
    rewrite (mergeResult_sources _ _ _ _ _ H1 Ht).
    destruct (decide _); [reflexivity|].
    apply lookup_insert_ne. apply (Hne res t); [apply list_elem_of_here | exact Ht].
Qed.

(** The sources a batch records for the cell of a result no other result of
    the batch is written to: the sources of the result, and nothing when it
    has none. *)
Lemma mergeResults_sources_written (cfg : ResearchConfig)
    (rs : list (Invocation * ResearchResult))
    (acc acc' : list CsvRow * gmap (nat * jsstring) (list Source))
    (k : nat) (res : Invocation * ResearchResult) (t : ResearchTask) :
  mergeResults cfg acc rs = Normal acc' ->
  rs !! k = Some res ->
  tasks cfg !! taskIndex res.1 = Some t ->
  (forall k' res' t', k' <> k -> rs !! k' = Some res' ->
     tasks cfg !! taskIndex res'.1 = Some t' ->
     (rowIndex res'.1, newColumnName t') <> (rowIndex res.1, newColumnName t)) ->
  acc'.2 !! (rowIndex res.1, newColumnName t) =
    if decide (sources res.2 = []) then acc.2 !! (rowIndex res.1, newColumnName t)
    else Some (sources res.2).
Proof.
  revert acc k. induction rs as [|res0 rs IH]; intros acc k H Hk Ht Hother.
  - discriminate Hk.
  - simpl in H. destruct (mergeResult cfg acc res0) as [acc1|] eqn:H1; [|discriminate].
    simpl in H. destruct (mergeResult_inv _ _ _ _ H1) as (t0 & Ht0 & _).
    pose proof (mergeResult_sources _ _ _ _ _ H1 Ht0) as Hs1.
    destruct k as [|k]; simpl in Hk.
    + injection Hk as ->. rewrite Ht in Ht0. injection Ht0 as <-.
      rewrite (mergeResults_sources_other _ _ _ _ _ H).
      * rewrite Hs1. destruct (decide _); [reflexivity | apply lookup_insert_eq].
      * intros r t' Hr Ht'. apply list_elem_of_lookup_1 in Hr as [k' Hk'].
        apply (Hother (S k') r t'); [lia | exact Hk' | exact Ht'].
    + rewrite (IH acc1 k H Hk Ht).
      * rewrite Hs1.
        assert (Hne : (rowIndex res0.1, newColumnName t0)
                      <> (rowIndex res.1, newColumnName t))
          by (apply (Hother 0 res0 t0); [lia | reflexivity | exact Ht0]).
        destruct (decide (sources res.2 = [])); [|reflexivity].
        destruct (decide (sources res0.2 = [])); [reflexivity|].
        now apply lookup_insert_ne.
      * intros k' r t' Hne Hk' Ht'.
        apply (Hother (S k') r t'); [lia | exact Hk' | exact Ht'].
Qed.

Lemma step_sources_kept (m : Machine) (ev : Event) (m' : Machine)
    (key : nat * jsstring) :
  step m ev = Some m' ->
  is_Some (cellSources (app m) !! key) -> is_Some (cellSources (app m') !! key).
Proof.
  intros Hstep Hkey.
  destruct ev as [| | |results|e|];
    try (destruct (step_quiet m _ m' Hstep) as (_ & S & _);
         [intros results; discriminate | now rewrite S]).
  simpl in Hstep. destruct (pc m) as [|i rest| | |]; try discriminate.
  destruct (batchPromises _ _ _) as [invs|]; [|discriminate].
  destruct (decide _); [|discriminate]. injection Hstep as <-.
  destruct (mergeResults (config m) (newData m, ∅) (zip invs results))
    as [[merged ns]|err] eqn:Hm.
  - destruct (settle_frame m i rest invs results merged ns Hm) as (_ & S & _).
    rewrite S. apply lookup_union_is_Some. now right.
  - unfold settle. rewrite Hm. exact Hkey.
Qed.

(** X8: the map of sources only grows.  Whatever events follow, a cell that
    has sources keeps an entry: entries are added or overwritten, never
    removed. *)
Theorem sources_never_removed (m : Machine) (evs : list Event) (m' : Machine)
    (key : nat * jsstring) :
  run m evs = Some m' ->
  is_Some (cellSources (app m) !! key) ->
  is_Some (cellSources (app m') !! key).
Proof.
  revert m. induction evs as [|ev evs IH]; simpl; intros m Hrun Hkey.
  - now injection Hrun as <-.
  - destruct (step m ev) as [m1|] eqn:Hstep; [|discriminate].
    apply (IH m1 Hrun). eapply step_sources_kept; eassumption.
Qed.

(** X9: when a batch of a config with distinct task column names settles,
    the cell of each result gets the sources of that result; a result without
    sources leaves the entry of its cell as it was, so a cell whose text is
    overwritten by such a result keeps the sources recorded earlier. *)
Theorem sources_recorded (m : Machine) (i : nat) (rest : list nat)
    (invs : list Invocation) (results : list ResearchResult)
    (k : nat) (inv : Invocation) (r : ResearchResult) (t : ResearchTask) :
  NoDup (newColumnName <$> tasks (config m)) ->
  pc m = AwaitBatch i rest ->
  batchPromises (config m) (newData m) i = Normal invs ->
  length results = length invs ->
  invs !! k = Some inv -> results !! k = Some r ->
  tasks (config m) !! taskIndex inv = Some t ->
  exists m',
    step m (EvBatchSettled results) = Some m'
    /\ cellSources (app m') !! (rowIndex inv, newColumnName t) =
         if decide (sources r = [])
         then cellSources (app m) !! (rowIndex inv, newColumnName t)
         else Some (sources r).
Proof.
  intros Hnames Hpc Hb Hlen Hinv Hr Ht.
  exists (settle (forLoop rest) i rest invs results m). split.
  { simpl. rewrite Hpc, Hb. now rewrite decide_True. }
  destruct (mergeResults_normal (config m) (zip invs results) (newData m, ∅))
    as [[merged ns] Hm].
  { intros [inv' r'] Hin. simpl. apply elem_of_zip_l in Hin.
    apply (tagged_in_range (config m) (newData m) i inv').
    now apply (batchPromises_tags _ _ _ invs). }
  destruct (settle_frame m i rest invs results merged ns Hm) as (_ & S & _).
  rewrite S.
  assert (Hk : zip invs results !! k = Some (inv, r)) by now apply lookup_zip_Some.
  pose proof (mergeResults_sources_written _ _ _ _ k (inv, r) t Hm Hk Ht) as Hns.
  simpl in Hns.
  assert (Hother : forall k' res' t', k' <> k -> zip invs results !! k' = Some res' ->
            tasks (config m) !! taskIndex res'.1 = Some t' ->
            (rowIndex res'.1, newColumnName t') <> (rowIndex inv, newColumnName t)).
  { intros k' [inv' r'] t' Hne Hk' Ht' Heq. simpl in *.
    apply lookup_zip_Some in Hk' as [Hinv' _].
    injection Heq as Hrow Hname.
    assert (Htask : taskIndex inv' = taskIndex inv).
    { apply (NoDup_lookup _ _ _ (newColumnName t) Hnames);
        rewrite list_lookup_fmap; [rewrite Ht' | rewrite Ht]; simpl; congruence. }
    apply Hne.
    apply (NoDup_lookup _ _ _ (tag inv) (batchPromises_NoDup _ _ _ _ Hb));
      rewrite list_lookup_fmap; [rewrite Hinv' | rewrite Hinv]; simpl;
      unfold tag; congruence. }
  specialize (Hns Hother).
  destruct (decide (sources r = [])).
  - rewrite lookup_empty in Hns. now apply lookup_union_r.
  - now apply lookup_union_Some_l.
Qed.

(** ** Calls while the run is held *)

Lemma publish_fired (k : Machine -> Machine) i rest m :
  (forall m0, isCancelledRef (app m0) = isCancelledRef (app m) ->
              isPausedRef (app m0) = isPausedRef (app m) ->
              fired (k m0) = fired m0) ->
  fired (publish k i rest m) = fired m.
Proof.
  intros Hk. unfold publish. destruct (_ <? _); [reflexivity|].
  rewrite Hk; reflexivity.
Qed.

(** With the cancel flag or the pause flag set the loop fires nothing. *)
Lemma forLoop_held (starts : list nat) (m : Machine) :
  isCancelledRef (app m) = true \/ isPausedRef (app m) = true ->
  fired (forLoop starts m) = fired m.
Proof.
  intros H. destruct starts as [|i rest]; simpl; [reflexivity|].
  unfold iteration.
  destruct (isCancelledRef (app m)); [reflexivity|].
  destruct (isPausedRef (app m)); [reflexivity|].
  destruct H; discriminate.
Qed.

Lemma settle_held (i : nat) (rest : list nat) (invs : list Invocation)
    (results : list ResearchResult) (m : Machine) :
  isCancelledRef (app m) = true \/ isPausedRef (app m) = true ->
  fired (settle (forLoop rest) i rest invs results m) = fired m.
Proof.
  intros H. unfold settle.
  destruct (mergeResults _ _ _) as [[merged ns]|err]; [|reflexivity].
  rewrite publish_fired; [reflexivity|].
  intros m0 Hc Hp. apply forLoop_held. simpl in Hc, Hp. rewrite Hc, Hp. exact H.
Qed.

Lemma step_cancelled (m : Machine) (ev : Event) (m' : Machine) :
  isCancelledRef (app m) = true ->
  step m ev = Some m' ->
  fired m' = fired m /\ isCancelledRef (app m') = true.
Proof.
  intros Hc Hstep. destruct ev as [| | |results|e|]; simpl in Hstep.
  - injection Hstep as <-. simpl. tauto.
  - injection Hstep as <-. unfold handleResume, release. simpl.
    destruct (resumeResolverRef (app m)); [|simpl; tauto].
    destruct (pc m); simpl; try tauto.
    unfold afterWake. simpl. rewrite Hc. simpl. tauto.
  - injection Hstep as <-. unfold handleCancel, release. simpl.
    destruct (resumeResolverRef (app m)); [|simpl; tauto].
    destruct (pc m); simpl; try tauto.
  - destruct (pc m) as [|i rest| | |]; try discriminate.
    destruct (batchPromises _ _ _) as [invs|]; [|discriminate].
    destruct (decide _); [|discriminate]. injection Hstep as <-.
    split; [apply settle_held; now left|].
    unfold settle. destruct (mergeResults _ _ _) as [[merged ns]|err]; [|exact Hc].
    match goal with |- context [publish _ _ _ ?m2] =>
      destruct (publish_control_frame (forLoop rest) i rest m2
                  (forLoop_control_frame rest)) as (_ & B & _) end.
    rewrite B. exact Hc.
  - destruct (pc m); try discriminate. injection Hstep as <-. simpl. tauto.
  - destruct (pc m) as [| |i rest| |]; try discriminate. injection Hstep as <-.
    split; [apply forLoop_held; now left|].
    destruct (forLoop_control_frame rest m) as (_ & B & _). now rewrite B.
Qed.

(** X10: once the cancel flag is set, and as long as nothing resets it,
    the run never calls the invoker again: whatever events of the run and
    whatever other updates of the application state follow, if each update
    leaves a set cancel flag set, the log of calls stays as it was and the
    flag stays set.  (A further start of research is an update that resets
    the flag: [restart_revives_cancelled_call].) *)
Theorem no_calls_after_cancel (m : Machine) (l : list Action) (m' : Machine) :
  isCancelledRef (app m) = true ->
  Forall keeps_cancel l ->
  acts m l = Some m' ->
  fired m' = fired m /\ isCancelledRef (app m') = true.
Proof.
  revert m. induction l as [|a l IH]; simpl; intros m Hc Hall Hrun.
  - injection Hrun as <-. tauto.
  - apply Forall_cons in Hall as [Ha Hall].
    destruct (act m a) as [m1|] eqn:Hact; [|discriminate].
    assert (H1 : fired m1 = fired m /\ isCancelledRef (app m1) = true).
    { destruct a as [ev|g]; simpl in Hact.
      - exact (step_cancelled _ _ _ Hc Hact).
      - injection Hact as <-. simpl. split; [reflexivity | now apply Ha]. }
    destruct H1 as [Hf Hc1].
    destruct (IH m1 Hc1 Hall Hrun) as [Hf' Hc']. split; [congruence | exact Hc'].
Qed.

(** The condition on the updates is needed: the prologue of a further
    start resets the cancel flag, and the cancelled call, still asleep,
    then goes on to its next batch. *)
Example restart_revives_cancelled_call :
  let cancelled :=
    default machine_pair
      (acts machine_pair [RunEvent EvCancel;
                          RunEvent (EvBatchSettled [result_bob; result_bob])]) in
  let revived :=
    default cancelled
      (acts cancelled [Outside (prologue config_thinking); RunEvent EvTimer]) in
  isCancelledRef (app cancelled) = true
  /\ status (app cancelled) = IDLE
  /\ length (fired cancelled) = 2
  /\ option_map pc (acts cancelled [RunEvent EvTimer]) = Some Returned
  /\ pc revived = AwaitBatch 1 []
  /\ length (fired revived) = 4.
Proof. vm_compute. repeat split; reflexivity. Qed.

(** X11: while the pause flag is set only a resume makes the run call the
    invoker: a batch that settles, the end of a sleep, a pause, a cancel or a
    rejected batch fire nothing. *)
Theorem no_calls_while_paused (m : Machine) (ev : Event) (m' : Machine) :
  isPausedRef (app m) = true ->
  ev <> EvResume ->
  step m ev = Some m' ->
  fired m' = fired m.
Proof.
  intros Hp Hev Hstep. destruct ev as [| | |results|e|]; simpl in Hstep.
  - now injection Hstep as <-.
  - congruence.
  - injection Hstep as <-. unfold handleCancel, release. simpl.
    destruct (resumeResolverRef (app m)); [|reflexivity].
    destruct (pc m); try reflexivity.
  - destruct (pc m) as [|i rest| | |]; try discriminate.
    destruct (batchPromises _ _ _) as [invs|]; [|discriminate].
    destruct (decide _); [|discriminate]. injection Hstep as <-.
    apply settle_held. now right.
  - destruct (pc m); try discriminate. now injection Hstep as <-.
  - destruct (pc m) as [| |i rest| |]; try discriminate. injection Hstep as <-.
    apply forLoop_held. now right.
Qed.

(** ** A rejected batch *)

Lemma step_threw (m : Machine) (ev : Event) (m' : Machine) (e : JsError) :
  pc m = Threw e ->
  step m ev = Some m' ->
  pc m' = Threw e
  /\ data (app m') = data (app m)
  /\ processedCount (app m') = processedCount (app m)
  /\ fired m' = fired m
  /\ (status (app m) <> COMPLETED -> status (app m') <> COMPLETED).
Proof.
  intros Hpc Hstep. destruct ev as [| | |results|e'|]; simpl in Hstep;
    try (rewrite Hpc in Hstep; discriminate Hstep).
  - injection Hstep as <-. simpl. repeat split; try assumption. discriminate.
  - injection Hstep as <-. unfold handleResume, release. simpl. rewrite Hpc.
    destruct (resumeResolverRef (app m)); simpl;
      (repeat split; try assumption; discriminate).
  - injection Hstep as <-. unfold handleCancel, release. simpl. rewrite Hpc.
    destruct (resumeResolverRef (app m)); simpl;
      (repeat split; try assumption; discriminate).
Qed.

(** X12: a rejected invocation ends the run without a final state.  When
    the batch in flight rejects (the invoker throws, as it does without an API
    key), the call of [handleStartResearch] ends with that exception; whatever
    events follow, nothing of the batch is merged or published, the counter
    and the log of calls stay as they are, and the state never becomes
    Completed. *)
Theorem rejected_batch_never_completes (cfg : ResearchConfig) (s0 : AppState)
    (m : Machine) (i : nat) (rest : list nat) (e : JsError)
    (evs : list Event) (m' : Machine) :
  data s0 <> [] ->
  reachable cfg s0 m ->
  pc m = AwaitBatch i rest ->
  run m (EvBatchRejected e :: evs) = Some m' ->
  pc m' = Threw e
  /\ data (app m') = data (app m)
  /\ processedCount (app m') = processedCount (app m)
  /\ fired m' = fired m
  /\ status (app m') <> COMPLETED.
Proof.
  intros Hne Hreach Hpc Hrun. simpl in Hrun. rewrite Hpc in Hrun.
  assert (Hs : status (app m) <> COMPLETED).
  { destruct (reachable_run_inv _ _ _ Hne Hreach) as (f & _ & Hcase).
    rewrite Hpc in Hcase. tauto. }
  change (status (app m)) with (status (app (withPc (Threw e) m))) in Hs.
  assert (Hgen : forall m1, pc m1 = Threw e -> status (app m1) <> COMPLETED ->
            run m1 evs = Some m' ->
            pc m' = Threw e /\ data (app m') = data (app m1)
            /\ processedCount (app m') = processedCount (app m1)
            /\ fired m' = fired m1 /\ status (app m') <> COMPLETED).
  { clear. induction evs as [|ev evs IH]; simpl; intros m1 Hpc Hs Hrun.
    - injection Hrun as <-. tauto.
    - destruct (step m1 ev) as [m2|] eqn:Hstep; [|discriminate].
      destruct (step_threw _ _ _ _ Hpc Hstep) as (P & D & C & F & St).
      destruct (IH m2 P (St Hs) Hrun) as (P' & D' & C' & F' & St').
      repeat split; congruence. }
  exact (Hgen (withPc (Threw e) m) eq_refl Hs Hrun).
Qed.

(** ** An undisturbed run ends *)

Lemma autoRun_returned (oracle : Invocation -> ResearchResult) (fuel : nat)
    (m : Machine) :
  pc m = Returned -> autoRun oracle fuel m = m.
Proof.
  intros Hpc. destruct fuel; simpl; [reflexivity|].
  unfold respond. now rewrite Hpc.
Qed.

Lemma autoRun_reachable (cfg : ResearchConfig) (s0 : AppState)
    (oracle : Invocation -> ResearchResult) (fuel : nat) (m : Machine) :
  reachable cfg s0 m -> reachable cfg s0 (autoRun oracle fuel m).
Proof.
  revert m. induction fuel as [|fuel IH]; simpl; intros m Hm; [exact Hm|].
  destruct (respond oracle m) as [ev|]; [|exact Hm].
  destruct (step m ev) as [m'|] eqn:Hstep; [|exact Hm].
  apply IH. eapply reach_step; eassumption.
Qed.

Lemma set_resolvable (cfg : ResearchConfig) (row : CsvRow) (col value : jsstring) :
  resolvable cfg row = true -> resolvable cfg (Row.set row col value) = true.
Proof.
  unfold resolvable. rewrite !forallb_forall. intros H c Hc.
  destruct (decide (col = c)) as [<-|Hne].
  - now rewrite get_set_same.
  - rewrite get_set_other by exact Hne. now apply H.
Qed.

(** Merging results keeps the rows resolvable: a write adds an own key. *)
Lemma mergeResults_resolvable (cfg : ResearchConfig)
    (rs : list (Invocation * ResearchResult))
    (acc acc' : list CsvRow * gmap (nat * jsstring) (list Source)) :
  mergeResults cfg acc rs = Normal acc' ->
  rows_resolvable cfg acc.1 = true -> rows_resolvable cfg acc'.1 = true.
Proof.
  revert acc. induction rs as [|res rs IH]; simpl; intros acc Hm Hres.
  - now injection Hm as <-.
  - destruct (mergeResult cfg acc res) as [acc1|] eqn:H1; [|discriminate]. simpl in Hm.
    apply (IH acc1 Hm). unfold mergeResult in H1.
    destruct (tasks cfg !! taskIndex res.1) as [t|]; [|discriminate].
    injection H1 as <-. simpl.
    rewrite rows_resolvable_lookup in *. rewrite length_insert.
    intros j row Hj Hrow.
    destruct (decide (rowIndex res.1 = j)) as [Heq|Hne].
    + subst j.
      pose proof (lookup_lt_Some _ _ _ Hrow) as Hlt. rewrite length_insert in Hlt.
      rewrite list_lookup_insert_eq in Hrow by exact Hlt. injection Hrow as <-.
      destruct (lookup_lt_is_Some_2 acc.1 (rowIndex res.1) Hlt) as [row0 Hrow0].
      rewrite Hrow0. simpl. apply set_resolvable.
      now apply (Hres (rowIndex res.1)).
    + rewrite list_lookup_insert_ne in Hrow by exact Hne. now apply (Hres j).
Qed.

Lemma autoRun_publish (oracle : Invocation -> ResearchResult)
    (i : nat) (rest : list nat) (m : Machine) (fuel : nat) :
  (forall m0 fuel0,
     isCancelledRef (app m0) = false -> isPausedRef (app m0) = false ->
     rows_resolvable (config m0) (newData m0) = true ->
     2 * length rest <= fuel0 ->
     finished (autoRun oracle fuel0 (forLoop rest m0))) ->
  isCancelledRef (app m) = false -> isPausedRef (app m) = false ->
  rows_resolvable (config m) (newData m) = true ->
  1 + 2 * length rest <= fuel ->
  finished (autoRun oracle fuel (publish (forLoop rest) i rest m)).
Proof.
  intros IH Hc Hp Hres Hfuel. unfold publish.
  destruct (_ <? _).
  - destruct fuel as [|fuel]; [lia|]. simpl.
    apply IH; [exact Hc | exact Hp | exact Hres | lia].
  - apply IH; [exact Hc | exact Hp | exact Hres | lia].
Qed.

Lemma autoRun_step (oracle : Invocation -> ResearchResult) (fuel : nat)
    (m m' : Machine) (ev : Event) :
  respond oracle m = Some ev -> step m ev = Some m' ->
  autoRun oracle (S fuel) m = autoRun oracle fuel m'.
Proof. intros Hr Hs. simpl. now rewrite Hr, Hs. Qed.

Lemma respond_batch (oracle : Invocation -> ResearchResult) (m : Machine)
    (i : nat) (rest : list nat) (invs : list Invocation) :
  pc m = AwaitBatch i rest ->
  batchPromises (config m) (newData m) i = Normal invs ->
  respond oracle m = Some (EvBatchSettled (oracle <$> invs))
  /\ step m (EvBatchSettled (oracle <$> invs))
     = Some (settle (forLoop rest) i rest invs (oracle <$> invs) m).
Proof.
  intros Hpc Hb. unfold respond. simpl. rewrite Hpc, Hb.
  split; [reflexivity|]. now rewrite decide_True by apply length_fmap.
Qed.

Lemma autoRun_forLoop (oracle : Invocation -> ResearchResult)
    (rest : list nat) (m : Machine) (fuel : nat) :
  isCancelledRef (app m) = false -> isPausedRef (app m) = false ->
  rows_resolvable (config m) (newData m) = true ->
  2 * length rest <= fuel ->
  finished (autoRun oracle fuel (forLoop rest m)).
Proof.
  revert m fuel. induction rest as [|i rest IH]; intros m fuel Hc Hp Hres Hfuel.
  - simpl forLoop. rewrite autoRun_returned by reflexivity. split; reflexivity.
  - simpl forLoop. unfold iteration. rewrite Hc, Hp. unfold fire.
    destruct (batchPromises_normal (config m) (newData m) i Hres) as [invs Hb].
    rewrite Hb. simpl in Hfuel. destruct invs as [|inv invs].
    + apply autoRun_publish; [exact IH | exact Hc | exact Hp | exact Hres | lia].
    + destruct fuel as [|fuel]; [lia|].
      set (mb := withPc (AwaitBatch i rest) (withFired (fired m ++ inv :: invs) m)).
      destruct (respond_batch oracle mb i rest (inv :: invs) eq_refl Hb) as [Hr Hs].
      rewrite (autoRun_step oracle fuel mb _ _ Hr Hs).
      unfold settle.
      destruct (mergeResults_normal (config mb)
                  (zip (inv :: invs) (oracle <$> inv :: invs)) (newData mb, ∅))
        as [[merged ns] Hm].
      { intros [inv' r'] Hin. simpl. apply elem_of_zip_l in Hin.
        apply (tagged_in_range (config m) (newData m) i inv').
        now apply (batchPromises_tags _ _ _ (inv :: invs)). }
      rewrite Hm.
      apply autoRun_publish; [exact IH | exact Hc | exact Hp | | lia].
      apply (mergeResults_resolvable _ _ _ _ Hm). exact Hres.
Qed.

Lemma starts_from_length (fuel i b total : nat) :
  length (starts_from fuel i b total) <= fuel.
Proof.
  revert i. induction fuel as [|fuel IH]; intros i; simpl; [lia|].
  destruct (i <? total); simpl; [|lia]. specialize (IH (i + b)). lia.
Qed.

Lemma batch_starts_length (size : jsnum) (total : nat) :
  length (batch_starts size total) <= total.
Proof.
  destruct size as [b|]; simpl; [apply starts_from_length|].
  destruct (0 <? total) eqn:H; simpl; [apply Nat.ltb_lt in H|]; lia.
Qed.

Lemma batchPromises_throws (cfg : ResearchConfig) (rows : list CsvRow) (i : nat)
    (e : JsError) :
  batchPromises cfg rows i = Throw e -> e = TypeError.
Proof.
  unfold batchPromises. intros Hb.
  destruct (pushedC_throw _ _ _ Hb) as (before & x & after & ys & _ & _ & Hx & _).
  exact (rowPromises_throws _ _ _ _ Hx).
Qed.

Lemma autoRun_threw (oracle : Invocation -> ResearchResult) (fuel : nat)
    (m : Machine) (e : JsError) :
  pc m = Threw e -> autoRun oracle fuel m = m.
Proof.
  intros Hpc. destruct fuel; simpl; [reflexivity|].
  unfold respond. now rewrite Hpc.
Qed.

Lemma autoRun_publish_ends (oracle : Invocation -> ResearchResult)
    (i : nat) (rest : list nat) (m : Machine) (fuel : nat) :
  (forall m0 fuel0,
     isCancelledRef (app m0) = false -> isPausedRef (app m0) = false ->
     2 * length rest <= fuel0 ->
     finished (autoRun oracle fuel0 (forLoop rest m0))
     \/ pc (autoRun oracle fuel0 (forLoop rest m0)) = Threw TypeError) ->
  isCancelledRef (app m) = false -> isPausedRef (app m) = false ->
  1 + 2 * length rest <= fuel ->
  finished (autoRun oracle fuel (publish (forLoop rest) i rest m))
  \/ pc (autoRun oracle fuel (publish (forLoop rest) i rest m)) = Threw TypeError.
Proof.
  intros IH Hc Hp Hfuel. unfold publish.
  destruct (_ <? _).
  - destruct fuel as [|fuel]; [lia|]. simpl. apply IH; [exact Hc | exact Hp | lia].
  - apply IH; [exact Hc | exact Hp | lia].
Qed.

(** Whatever the rows are, an undisturbed run ends: Completed, or with the
    [TypeError] of the resolver. *)
Lemma autoRun_forLoop_ends (oracle : Invocation -> ResearchResult)
    (rest : list nat) (m : Machine) (fuel : nat) :
  isCancelledRef (app m) = false -> isPausedRef (app m) = false ->
  2 * length rest <= fuel ->
  finished (autoRun oracle fuel (forLoop rest m))
  \/ pc (autoRun oracle fuel (forLoop rest m)) = Threw TypeError.
Proof.
  revert m fuel. induction rest as [|i rest IH]; intros m fuel Hc Hp Hfuel.
  - left. simpl forLoop. rewrite autoRun_returned by reflexivity. split; reflexivity.
  - simpl forLoop. unfold iteration. rewrite Hc, Hp. unfold fire.
    simpl in Hfuel.
    destruct (batchPromises (config m) (newData m) i) as [[|inv invs]|e] eqn:Hb.
    + apply autoRun_publish_ends; [exact IH | exact Hc | exact Hp | lia].
    + destruct fuel as [|fuel]; [lia|].
      set (mb := withPc (AwaitBatch i rest) (withFired (fired m ++ inv :: invs) m)).
      destruct (respond_batch oracle mb i rest (inv :: invs) eq_refl Hb) as [Hr Hs].
      rewrite (autoRun_step oracle fuel mb _ _ Hr Hs).
      unfold settle.
      destruct (mergeResults_normal (config mb)
                  (zip (inv :: invs) (oracle <$> inv :: invs)) (newData mb, ∅))
        as [[merged ns] Hm].
      { intros [inv' r'] Hin. simpl. apply elem_of_zip_l in Hin.
        apply (tagged_in_range (config m) (newData m) i inv').
        now apply (batchPromises_tags _ _ _ (inv :: invs)). }
      rewrite Hm.
      apply autoRun_publish_ends; [exact IH | exact Hc | exact Hp | lia].
    + right. rewrite (autoRun_threw _ _ _ e) by reflexivity. simpl.
      now rewrite (batchPromises_throws _ _ _ _ Hb).
Qed.

(** X13: an undisturbed run ends.  For every table that has rows, every
    config and every way the invocations answer, when no invocation rejects
    and nobody pauses or cancels, the run ends after at most two events per
    row (a batch settling, a sleep ending).  It reaches Completed, with the
    counter at the effective total, when the rows below the effective total
    resolve (no target column that such a row lacks names a property of
    [Object.prototype]); otherwise the call ends with the [TypeError] of the
    resolver and the state never becomes Completed. *)
Theorem undisturbed_run_completes (cfg : ResearchConfig) (s0 : AppState)
    (oracle : Invocation -> ResearchResult) :
  data s0 <> [] ->
  let m := autoRun oracle (2 * effectiveTotal cfg (length (data s0)))
             (handleStartResearch cfg s0) in
  reachable cfg s0 m
  /\ (rows_resolvable cfg (data s0) = true ->
      pc m = Returned
      /\ status (app m) = COMPLETED
      /\ processedCount (app m) = effectiveTotal cfg (length (data s0)))
  /\ (rows_resolvable cfg (data s0) = false ->
      pc m = Threw TypeError /\ status (app m) <> COMPLETED).
Proof.
  intros Hne. cbv zeta.
  set (m := autoRun oracle (2 * effectiveTotal cfg (length (data s0)))
              (handleStartResearch cfg s0)).
  assert (Hreach : reachable cfg s0 m) by apply autoRun_reachable, reach_start.
  assert (Hfuel : 2 * length (batch_starts (BATCH_SIZE cfg)
                                (effectiveTotal cfg (length (data s0))))
                  <= 2 * effectiveTotal cfg (length (data s0))).
  { pose proof (batch_starts_length (BATCH_SIZE cfg)
                  (effectiveTotal cfg (length (data s0)))). lia. }
  destruct (reachable_run_inv _ _ _ Hne Hreach)
    as (f & (_ & _ & _ & _ & _ & _ & _ & Hrows) & Hcase).
  split; [exact Hreach|]. split.
  - intros Hres.
    assert (Hfin : finished m).
    { subst m. rewrite handleStartResearch_rows by exact Hne.
      apply autoRun_forLoop; simpl; try apply prologue_fields; [exact Hres|].
      exact Hfuel. }
    destruct Hfin as [Hpc Hs]. split; [exact Hpc|]. split; [exact Hs|].
    rewrite Hpc in Hcase. now apply Hcase.
  - intros Hres.
    assert (Hends : finished m \/ pc m = Threw TypeError).
    { subst m. rewrite handleStartResearch_rows by exact Hne.
      apply autoRun_forLoop_ends; simpl; try apply prologue_fields. exact Hfuel. }
    destruct Hends as [[Hpc Hs]|Hpc]; rewrite Hpc in Hcase.
    + exfalso. destruct Hcase as [-> Hdone]. rewrite (Hdone Hs) in Hrows.
      apply not_true_iff_false in Hres. apply Hres.
      apply rows_resolvable_lookup. exact Hrows.
    + split; [exact Hpc | exact Hcase].
Qed.

(** ** The size of a batch *)

Lemma concatMapC_length {A B} (f : A -> Completion (list B)) (l : list A)
    (ys : list B) (c : nat) :
  (forall x xs, x ∈ l -> f x = Normal xs -> length xs <= c) ->
  concatMapC f l = Normal ys ->
  length ys <= length l * c.
Proof.
  revert ys. induction l as [|x l IH]; simpl; intros ys Hf H.
  - injection H as <-. simpl. lia.
  - destruct (f x) as [xs|] eqn:Hx; [|discriminate]. simpl in H.
    destruct (concatMapC f l) as [zs|] eqn:Hl; [|discriminate]. simpl in H.
    injection H as <-. rewrite length_app.
    pose proof (Hf x xs (list_elem_of_here _ _) Hx).
    pose proof (IH zs (fun y ys' Hy => Hf y ys' (list_elem_of_further _ _ _ Hy)) eq_refl).
    lia.
Qed.

Lemma rowPromises_length (cfg : ResearchConfig) (rows : list CsvRow) (j : nat)
    (invs : list Invocation) :
  rowPromises cfg rows j = Normal invs -> length invs <= length (tasks cfg).
Proof.
  unfold rowPromises. destruct (rows !! j) as [row|].
  - rewrite entityName_resolves. destruct (resolvable _ row) eqn:Hres; [|discriminate]. simpl. destruct (nonempty _); intros H; injection H as <-.
    + now rewrite length_imap.
    + simpl. lia.
  - destruct (targetColumns cfg); [|discriminate]. intros H; injection H as <-.
    simpl. lia.
Qed.

(** X14: the concurrency of a batch is bounded.  The number of invocations
    fired together is at most the concurrency limit (2 with the thinking
    model, 10 without), or the number of tasks of one row when that is larger;
    and a batch never spans more rows than the batch size. *)
Theorem batch_within_budget (cfg : ResearchConfig) (rows : list CsvRow) (i : nat)
    (invs : list Invocation) :
  batchPromises cfg rows i = Normal invs ->
  length invs <= Nat.max (if useThinkingModel cfg then 2 else 10) (length (tasks cfg))
  /\ match BATCH_SIZE cfg with
     | Fin b => forall inv, inv ∈ invs -> i <= rowIndex inv < i + b
     | Infinity => invs = []
     end.
Proof.
  intros Hb. split.
  - pose proof (concatMapC_length _ _ _ (length (tasks cfg))
                  (fun j xs _ H => rowPromises_length cfg rows j xs H) Hb) as Hlen.
    rewrite length_seq in Hlen.
    set (total := effectiveTotal cfg (length rows)) in *.
    unfold batchEnd, BATCH_SIZE in Hlen.
    destruct (length (tasks cfg)) as [|n] eqn:Ht; [lia|].
    rewrite planBatchSize_div in Hlen.
    set (budget := if useThinkingModel cfg then 2 else 10) in *.
    pose proof (Nat.Div0.mul_div_le budget (S n)) as Hdiv.
    destruct (Nat.max_spec 1 (budget / S n)) as [[H1 ->]|[H1 ->]] in Hlen.
    + assert (Hrows : Nat.min (i + budget / S n) total - i <= budget / S n) by lia.
      nia.
    + assert (Hrows : Nat.min (i + 1) total - i <= 1) by lia. nia.
  - destruct (BATCH_SIZE cfg) as [b|] eqn:HB.
    + intros inv Hin.
      pose proof (batchPromises_tags _ _ _ _ _ Hb Hin) as (Hge & Hlt & _).
      rewrite HB in Hlt. simpl in Hlt. lia.
    + unfold BATCH_SIZE in HB.
      destruct (length (tasks cfg)) as [|n] eqn:Ht; [|discriminate HB].
      pose proof (concatMapC_length _ _ _ (length (tasks cfg))
                    (fun j xs _ H => rowPromises_length cfg rows j xs H) Hb) as Hlen.
      rewrite Ht, Nat.mul_0_r in Hlen. destruct invs; [reflexivity | simpl in Hlen; lia].
Qed.

(** ** Cell edits *)

(** X15: an edit of a cell of an existing row gives an array without
    holes and of the same length, in which the edited cell reads the new
    value and every other cell reads what it read before. *)
Theorem cell_edit_in_range (rowIndex : nat) (column value : jsstring)
    (prevData : list CsvRow) :
  rowIndex < length prevData ->
  exists newData,
    handleCellUpdate rowIndex column value prevData = Some <$> newData
    /\ length newData = length prevData
    /\ cell newData rowIndex column = Str value
    /\ (forall j col, ~ (rowIndex = j /\ column = col) ->
          cell newData j col = cell prevData j col)
    /\ (forall j, j <> rowIndex -> newData !! j = prevData !! j).
Proof.
  intros Hlt. unfold handleCellUpdate. rewrite decide_True by exact Hlt.
  eexists. split; [reflexivity|].
  split; [apply length_insert|].
  split; [now apply cell_write_same|].
  split; [intros j col Hne; now apply cell_write_other|].
  intros j Hj. apply list_lookup_insert_ne. congruence.
Qed.

Lemma cell_edit_in_range_witness :
  exists newData,
    handleCellUpdate 0 (js "CEO") (js "Ann") [row_acme] = Some <$> newData
    /\ length newData = length [row_acme]
    /\ cell newData 0 (js "CEO") = Str (js "Ann")
    /\ (forall j col, ~ (0 = j /\ js "CEO" = col) ->
          cell newData j col = cell [row_acme] j col)
    /\ (forall j, j <> 0 -> newData !! j = [row_acme] !! j).
Proof.
  apply (cell_edit_in_range 0 (js "CEO") (js "Ann") [row_acme]). simpl. lia.
Defined.

(** X16: an edit at a row index at or past the end of the table extends
    the array up to that index: the old rows stay, the new last element is
    a row with the edited cell only, and the indices in between are
    holes. *)
Theorem cell_edit_past_end (rowIndex : nat) (column value : jsstring)
    (prevData : list CsvRow) :
  length prevData <= rowIndex ->
  let out := handleCellUpdate rowIndex column value prevData in
  length out = S rowIndex
  /\ out !! rowIndex = Some (Some [(column, value)])
  /\ (forall j, j < length prevData -> out !! j = Some <$> (prevData !! j))
  /\ (forall j, length prevData <= j < rowIndex -> out !! j = Some None).
Proof.
  intros Hge out. subst out. unfold handleCellUpdate.
  rewrite decide_False by lia.
  rewrite (lookup_ge_None_2 prevData rowIndex) by lia. simpl.
  assert (Hlen : length (Some <$> prevData) = length prevData)
    by apply length_fmap.
  split; [|split; [|split]].
  - rewrite !length_app, Hlen, length_replicate. simpl. lia.
  - rewrite lookup_app_r by lia. rewrite Hlen.
    rewrite lookup_app_r by (rewrite length_replicate; lia).
    rewrite length_replicate.
    replace (rowIndex - length prevData - (rowIndex - length prevData)) with 0 by lia.
    reflexivity.
  - intros j Hj. rewrite lookup_app_l by lia. apply list_lookup_fmap.
  - intros j Hj. rewrite lookup_app_r by lia. rewrite Hlen.
    rewrite lookup_app_l by (rewrite length_replicate; lia).
    apply lookup_replicate_2. lia.
Qed.

Lemma cell_edit_past_end_witness :
  let out := handleCellUpdate 3 (js "CEO") (js "Ann") [row_acme] in
  length out = 4
  /\ out !! 3 = Some (Some [(js "CEO", js "Ann")])
  /\ (forall j, j < length [row_acme] -> out !! j = Some <$> ([row_acme] !! j))
  /\ (forall j, length [row_acme] <= j < 3 -> out !! j = Some None).
Proof.
  apply (cell_edit_past_end 3 (js "CEO") (js "Ann") [row_acme]). simpl. lia.
Defined.

(** X17: an edit made while a batch is in flight is lost when the batch
    settles: the state after the settle is the one reached without the
    edit, and it shows the working copy of the run. *)
Theorem edit_during_batch_overwritten (m : Machine) (i : nat) (rest : list nat)
    (invs : list Invocation) (results : list ResearchResult)
    (rowIndex : nat) (column value : jsstring) (edited : list CsvRow) :
  pc m = AwaitBatch i rest ->
  batchPromises (config m) (newData m) i = Normal invs ->
  length results = length invs ->
  handleCellUpdate rowIndex column value (data (app m)) = Some <$> edited ->
  exists m',
    step m (EvBatchSettled results) = Some m'
    /\ step (withApp (setData edited) m) (EvBatchSettled results) = Some m'
    /\ data (app m') = newData m'.
Proof.
  intros Hpc Hb Hlen _.
  exists (settle (forLoop rest) i rest invs results m).
  destruct (settle_merges m i rest invs results Hb Hlen)
    as ((merged & ns & Hm & _) & _ & Hdata & _).
  split; [|split; [|exact Hdata]].
  - unfold step. rewrite Hpc, Hb, decide_True by exact Hlen. reflexivity.
  - unfold step. simpl. rewrite Hpc, Hb, decide_True by exact Hlen. f_equal.
    unfold settle. simpl. rewrite Hm. reflexivity.
Qed.

(** ** The properties on the example runs *)

Lemma machine_two_reachable : reachable config_ceo app_two machine_two.
Proof. apply reach_start. Qed.

Lemma progress_monotone_bounded_witness :
  processedCount (app (handleStartResearch config_limit2 app_three))
    <= processedCount (app machine_done)
  /\ processedCount (app machine_done)
     <= effectiveTotal config_limit2 (length (data app_three)).
Proof.
  apply (progress_monotone_bounded config_limit2 app_three
           (handleStartResearch config_limit2 app_three)
           (EvBatchSettled [result_bob]) machine_done).
  - discriminate.
  - apply reach_start.
  - vm_compute. reflexivity.
Defined.

Lemma completed_means_all_rows_witness :
  pc machine_done = Returned
  /\ processedCount (app machine_done)
     = effectiveTotal config_limit2 (length (data app_three))
  /\ length (data (app machine_done)) = length (data app_three).
Proof.
  apply (completed_means_all_rows config_limit2 app_three machine_done).
  - discriminate.
  - exact machine_done_reachable.
  - vm_compute. reflexivity.
Defined.

Lemma completed_run_calls_witness :
  NoDup (tag <$> fired machine_done)
  /\ forall inv,
       inv ∈ fired machine_done <->
       exists j k row t,
         j < effectiveTotal config_limit2 (length (data app_three))
         /\ data app_three !! j = Some row
         /\ nonempty (subject_kept config_limit2 row) = true
         /\ tasks config_limit2 !! k = Some t
         /\ inv = {| rowIndex := j; taskIndex := k;
                     inv_entityName := subject_kept config_limit2 row;
                     inv_prompt := prompt t;
                     inv_context := contextStr config_limit2 row;
                     inv_thinking := useThinkingModel config_limit2 |}.
Proof.
  apply (completed_run_calls config_limit2 app_three machine_done).
  - discriminate.
  - exact machine_done_reachable.
  - vm_compute. reflexivity.
Defined.

Lemma calls_follow_plan_witness :
  fired machine_two
    `prefix_of` plan config_ceo (data app_two)
                  (effectiveTotal config_ceo (length (data app_two)))
  /\ NoDup (tag <$> fired machine_two).
Proof.
  apply (calls_follow_plan config_ceo app_two machine_two).
  - discriminate.
  - apply reach_start.
Defined.

Lemma unprocessed_rows_unchanged_witness :
  length (data (app machine_done)) = length (data app_three)
  /\ forall j, processedCount (app machine_done) <= j ->
       data (app machine_done) !! j = data app_three !! j.
Proof.
  apply (unprocessed_rows_unchanged config_limit2 app_three machine_done).
  - discriminate.
  - exact machine_done_reachable.
Defined.

Lemma table_changes_only_on_settle_witness :
  data (app (handlePause machine_two)) = data (app machine_two).
Proof.
  apply (table_changes_only_on_settle config_ceo app_two machine_two EvPause
           (handlePause machine_two)).
  - discriminate.
  - apply reach_start.
  - reflexivity.
  - discriminate.
Defined.

Lemma progress_within_display_total_witness :
  processedCount (app machine_done) <= displayTotal (app machine_done)
  /\ (status (app machine_done) <> IDLE ->
      displayTotal (app machine_done)
      = effectiveTotal config_limit2 (length (data app_three))).
Proof.
  apply (progress_within_display_total config_limit2 app_three machine_done).
  - discriminate.
  - exact machine_done_reachable.
Defined.

Lemma sources_never_removed_witness :
  is_Some (cellSources
             (app (default machine_sourced (run machine_sourced [EvCancel; EvResume])))
           !! (0, js "CEO")).
Proof.
  apply (sources_never_removed machine_sourced [EvCancel; EvResume]
           (default machine_sourced (run machine_sourced [EvCancel; EvResume]))
           (0, js "CEO")).
  - vm_compute. reflexivity.
  - exists (sources result_sourced). vm_compute. reflexivity.
Defined.

Lemma sources_recorded_witness :
  exists m',
    step machine_two (EvBatchSettled [result_sourced; result_bob]) = Some m'
    /\ cellSources (app m') !! (0, js "CEO") = Some (sources result_sourced).
Proof.
  assert (Hinv : exists inv, invs_two !! 0 = Some inv /\ rowIndex inv = 0
                             /\ taskIndex inv = 0).
  { eexists. split; [vm_compute; reflexivity|]. split; reflexivity. }
  destruct Hinv as (inv & Hinv & Hrow & Htask).
  assert (Ht : tasks (config machine_two) !! taskIndex inv = Some task_ceo)
    by (rewrite Htask; reflexivity).
  destruct (sources_recorded machine_two 0 [] invs_two [result_sourced; result_bob]
              0 inv result_sourced task_ceo) as (m' & Hstep & Hsrc).
  - vm_compute. repeat constructor. apply not_elem_of_nil.
  - vm_compute. reflexivity.
  - vm_compute. reflexivity.
  - vm_compute. reflexivity.
  - exact Hinv.
  - reflexivity.
  - exact Ht.
  - exists m'. split; [exact Hstep|]. rewrite Hrow in Hsrc. exact Hsrc.
Defined.

Lemma no_calls_after_cancel_witness :
  let m := handleCancel machine_pair in
  let m' := default m
              (acts m [RunEvent (EvBatchSettled [result_bob; result_bob]);
                       Outside (setData [row_blank; row_acme]);
                       RunEvent EvTimer; RunEvent EvResume]) in
  fired m' = fired m /\ isCancelledRef (app m') = true.
Proof.
  apply (no_calls_after_cancel (handleCancel machine_pair)
           [RunEvent (EvBatchSettled [result_bob; result_bob]);
            Outside (setData [row_blank; row_acme]);
            RunEvent EvTimer; RunEvent EvResume]).
  - vm_compute. reflexivity.
  - repeat constructor. intros s Hs. exact Hs.
  - vm_compute. reflexivity.
Defined.

Lemma no_calls_while_paused_witness :
  fired (default machine_suspended (step machine_suspended EvCancel))
  = fired machine_suspended.
Proof.
  apply (no_calls_while_paused machine_suspended EvCancel).
  - vm_compute. reflexivity.
  - discriminate.
  - vm_compute. reflexivity.
Defined.

Lemma rejected_batch_never_completes_witness :
  let m' := default machine_two
              (run machine_two [EvBatchRejected TypeError; EvCancel]) in
  pc m' = Threw TypeError
  /\ data (app m') = data (app machine_two)
  /\ processedCount (app m') = processedCount (app machine_two)
  /\ fired m' = fired machine_two
  /\ status (app m') <> COMPLETED.
Proof.
  apply (rejected_batch_never_completes config_ceo app_two machine_two 0 []
           TypeError [EvCancel]).
  - discriminate.
  - apply reach_start.
  - vm_compute. reflexivity.
  - vm_compute. reflexivity.
Defined.

Lemma undisturbed_run_completes_witness :
  let m := autoRun oracle_bob (2 * effectiveTotal config_limit2 (length (data app_three)))
             (handleStartResearch config_limit2 app_three) in
  reachable config_limit2 app_three m
  /\ pc m = Returned
  /\ status (app m) = COMPLETED
  /\ processedCount (app m) = effectiveTotal config_limit2 (length (data app_three)).
Proof.
  destruct (undisturbed_run_completes config_limit2 app_three oracle_bob)
    as (Hreach & Hdone & _); [discriminate|].
  split; [exact Hreach|]. apply Hdone. vm_compute. reflexivity.
Defined.

(** A run over a row that lacks the target column [constructor]: the first
    batch raises while its promises are collected, no call is made, and the
    state stays Processing. *)
Example unresolvable_run_throws :
  let m := autoRun oracle_bob 2
             (handleStartResearch config_constructor (app_of [row_acme] [js "Name"] IDLE 0)) in
  pc m = Threw TypeError
  /\ status (app m) = PROCESSING
  /\ processedCount (app m) = 0
  /\ fired m = [].
Proof. vm_compute. repeat split; reflexivity. Qed.

Lemma batch_within_budget_witness :
  length invs_two
    <= Nat.max (if useThinkingModel config_ceo then 2 else 10)
               (length (tasks config_ceo))
  /\ match BATCH_SIZE config_ceo with
     | Fin b => forall inv, inv ∈ invs_two -> 0 <= rowIndex inv < 0 + b
     | Infinity => invs_two = []
     end.
Proof.
  apply (batch_within_budget config_ceo [row_acme; row_acme] 0 invs_two).
  vm_compute. reflexivity.
Defined.

Lemma edit_during_batch_overwritten_witness :
  exists m',
    step machine_two (EvBatchSettled [result_bob; result_bob]) = Some m'
    /\ step (withApp (setData [Row.set row_acme (js "Name") (js "Zed"); row_acme])
               machine_two)
         (EvBatchSettled [result_bob; result_bob]) = Some m'
    /\ data (app m') = newData m'.
Proof.
  apply (edit_during_batch_overwritten machine_two 0 [] invs_two
           [result_bob; result_bob] 0 (js "Name") (js "Zed")).
  - vm_compute. reflexivity.
  - vm_compute. reflexivity.
  - vm_compute. reflexivity.
  - vm_compute. reflexivity.
Defined.

(** ** The control panel *)

Lemma filter_ne_elem (col : jsstring) (l : list jsstring) (c : jsstring) :
  c ∈ List.filter (fun c => negb (bool_decide (c = col))) l <-> c ∈ l /\ c <> col.
Proof.
  rewrite !list_elem_of_In, filter_In, negb_true_iff, bool_decide_eq_false.
  reflexivity.
Qed.

Lemma filter_NoDup {A : Type} (f : A -> bool) (l : list A) :
  NoDup l -> NoDup (List.filter f l).
Proof.
  induction 1 as [|x l Hx _ IH]; simpl; [constructor|].
  destruct (f x); [|exact IH].
  constructor; [|exact IH].
  rewrite list_elem_of_In, filter_In, <- list_elem_of_In. tauto.
Qed.

(** X18: toggling a target column keeps the selection duplicate-free and
    never empties it; it changes the membership of no other column, and it
    flips the membership of the toggled column unless a run is processing
    or the column is the only one selected. *)
Theorem toggle_keeps_selection (isProcessing : bool) (col : jsstring)
    (prev : list jsstring) :
  NoDup prev ->
  prev <> [] ->
  let next := Panel.toggleTargetColumn isProcessing col prev in
  NoDup next
  /\ next <> []
  /\ (forall c, c <> col -> c ∈ next <-> c ∈ prev)
  /\ (isProcessing = true \/ prev = [col] -> next = prev)
  /\ (isProcessing = false -> prev <> [col] -> col ∈ next <-> col ∉ prev).
Proof.
  intros Hnd Hne next. subst next. unfold Panel.toggleTargetColumn, includes.
  destruct isProcessing.
  { split; [exact Hnd|]. split; [exact Hne|]. split; [tauto|].
    split; [tauto | discriminate]. }
  destruct (bool_decide_reflect (col ∈ prev)) as [Hin|Hnin].
  - destruct (decide (length prev = 1)) as [Hone|Hmany].
    + assert (Hprev : prev = [col]).
      { destruct prev as [|x [|y prev]]; try discriminate Hone.
        apply list_elem_of_singleton in Hin. now subst. }
      split; [exact Hnd|]. split; [exact Hne|]. split; [tauto|].
      split; [tauto | intros _ H; contradiction].
    + assert (Hother : exists c, c ∈ prev /\ c <> col).
      { destruct prev as [|x [|y prev]]; [contradiction | simpl in Hmany; lia |].
        destruct (decide (x = col)) as [->|Hx].
        - exists y. split; [apply list_elem_of_further, list_elem_of_here|].
          intros ->. apply NoDup_cons in Hnd as [Hnd _].
          apply Hnd, list_elem_of_here.
        - exists x. split; [apply list_elem_of_here | exact Hx]. }
      split; [now apply filter_NoDup|].
      split.
      { destruct Hother as (c & Hc & Hcne).
        intros Hnil. assert (Hcin : c ∈ List.filter
                               (fun c => negb (bool_decide (c = col))) prev)
          by (apply filter_ne_elem; tauto).
        rewrite Hnil in Hcin. now apply elem_of_nil in Hcin. }
      split; [intros c Hc; rewrite filter_ne_elem; tauto|].
      split.
      { intros [H|H]; [discriminate | subst prev; simpl in Hmany; lia]. }
      intros _ _. rewrite filter_ne_elem. tauto.
  - split.
    { apply NoDup_app. split; [exact Hnd|]. split; [|apply NoDup_singleton].
      intros x Hx Hx'. apply list_elem_of_singleton in Hx'. now subst. }
    split; [destruct prev; discriminate|].
    split.
    { intros c Hc. rewrite elem_of_app, list_elem_of_singleton. tauto. }
    split.
    { intros [H|H]; [discriminate|]. subst prev. exfalso.
      apply Hnin, list_elem_of_here. }
    intros _ _. rewrite elem_of_app, list_elem_of_singleton. tauto.
Qed.

Lemma toggle_keeps_selection_witness :
  let next := Panel.toggleTargetColumn false (js "Name") [js "Name"; js "City"] in
  NoDup next
  /\ next <> []
  /\ (forall c, c <> js "Name" -> c ∈ next <-> c ∈ [js "Name"; js "City"])
  /\ (false = true \/ [js "Name"; js "City"] = [js "Name"] ->
      next = [js "Name"; js "City"])
  /\ (false = false -> [js "Name"; js "City"] <> [js "Name"] ->
      js "Name" ∈ next <-> js "Name" ∉ [js "Name"; js "City"]).
Proof.
  apply (toggle_keeps_selection false (js "Name") [js "Name"; js "City"]).
  - apply (bool_decide_unpack (NoDup [js "Name"; js "City"])). vm_compute. reflexivity.
  - discriminate.
Defined.

Lemma filter_includes_elem (columns prev : list jsstring) (c : jsstring) :
  c ∈ List.filter (includes columns) prev <-> c ∈ prev /\ c ∈ columns.
Proof.
  rewrite !list_elem_of_In, filter_In. unfold includes.
  rewrite bool_decide_eq_true, <- !list_elem_of_In. reflexivity.
Qed.

(** X19: whatever the test for a name-like column is, after the columns
    have changed the selection holds columns of the table only, is not
    empty when the table has a column, keeps every selected column that
    still exists, and has no duplicates if it had none. *)
Theorem sync_selects_existing_columns (nameLike : jsstring -> bool)
    (columns prev : list jsstring) :
  let next := Panel.syncTargetColumns nameLike columns prev in
  (forall c, c ∈ next -> c ∈ columns)
  /\ (columns <> [] -> next <> [])
  /\ (forall c, c ∈ prev -> c ∈ columns -> c ∈ next)
  /\ (NoDup prev -> NoDup next).
Proof.
  intros next. subst next. unfold Panel.syncTargetColumns.
  destruct (List.filter (includes columns) prev) as [|v vs] eqn:Hvalid.
  - assert (Hnone : forall c, c ∈ prev -> c ∈ columns -> False).
    { intros c Hp Hc.
      assert (H : c ∈ List.filter (includes columns) prev)
        by (apply filter_includes_elem; tauto).
      rewrite Hvalid in H. now apply elem_of_nil in H. }
    destruct columns as [|first columns].
    + split; [intros c Hc; now apply elem_of_nil in Hc|].
      split; [tauto|]. split; [intros c Hp Hc; now apply elem_of_nil in Hc|].
      intros _. constructor.
    + assert (Hpick : exists c, c ∈ first :: columns
                /\ match List.find nameLike (first :: columns) with
                   | Some nameCol => if nonempty nameCol then [nameCol] else [first]
                   | None => [first]
                   end = [c]).
      { destruct (List.find nameLike (first :: columns)) as [nameCol|] eqn:Hfind.
        - destruct (nonempty nameCol).
          + exists nameCol. split; [|reflexivity].
            apply find_some in Hfind as [Hin _]. now apply list_elem_of_In.
          + exists first. split; [apply list_elem_of_here | reflexivity].
        - exists first. split; [apply list_elem_of_here | reflexivity]. }
      destruct Hpick as (c & Hc & ->).
      split; [intros c' Hc'; apply list_elem_of_singleton in Hc'; now subst|].
      split; [discriminate|].
      split; [intros c' Hp Hc'; exfalso; eauto|].
      intros _. apply NoDup_singleton.
  - rewrite <- Hvalid.
    split; [intros c Hc; now apply filter_includes_elem in Hc|].
    split; [intros _; rewrite Hvalid; discriminate|].
    split; [intros c Hp Hc; apply filter_includes_elem; tauto|].
    apply filter_NoDup.
Qed.

(** X20: removing a task from a list with distinct ids never empties the
    list and keeps the ids distinct.  From a list of two or more it takes
    out the task of that id and no other; a single task is blanked and
    keeps its id, whatever id was asked for. *)
Theorem remove_task_keeps_one (taskId : jsstring) (tasks : list ResearchTask) :
  tasks <> [] ->
  NoDup (id <$> tasks) ->
  let next := Panel.handleRemoveTask taskId tasks in
  next <> []
  /\ NoDup (id <$> next)
  /\ (2 <= length tasks -> forall t, t ∈ next <-> t ∈ tasks /\ id t <> taskId)
  /\ (forall only, tasks = [only] ->
        next = [{| id := id only; newColumnName := []; prompt := [] |}]).
Proof.
  intros Hne Hnd next. subst next.
  destruct tasks as [|t1 [|t2 tasks]]; [contradiction | |].
  - simpl. split; [discriminate|]. split; [apply NoDup_singleton|].
    split; [simpl; lia|]. intros only [= <-]. reflexivity.
  - set (all := t1 :: t2 :: tasks) in *.
    assert (Hdef : Panel.handleRemoveTask taskId all
                   = List.filter (fun t => negb (bool_decide (id t = taskId))) all)
      by reflexivity.
    rewrite Hdef. clear Hdef.
    assert (Hin : forall t, t ∈ List.filter
                    (fun t => negb (bool_decide (id t = taskId))) all
                  <-> t ∈ all /\ id t <> taskId).
    { intros t. rewrite !list_elem_of_In, filter_In, negb_true_iff,
        bool_decide_eq_false. reflexivity. }
    split; [|split; [|split]].
    + assert (Hex : exists t, t ∈ all /\ id t <> taskId).
      { destruct (decide (id t1 = taskId)) as [H1|H1].
        - exists t2. split; [apply list_elem_of_further, list_elem_of_here|].
          intros H2. subst all. simpl in Hnd.
          apply NoDup_cons in Hnd as [Hnot _]. apply Hnot.
          rewrite H1, <- H2. apply list_elem_of_here.
        - exists t1. split; [apply list_elem_of_here | exact H1]. }
      destruct Hex as (t & Ht). apply Hin in Ht.
      intros Hnil. rewrite Hnil in Ht. now apply elem_of_nil in Ht.
    + clear Hin Hne. induction all as [|t all IH]; simpl; [constructor|].
      simpl in Hnd. apply NoDup_cons in Hnd as [Hnot Hnd].
      destruct (negb _); [|now apply IH].
      simpl. constructor; [|now apply IH].
      intros Hmem. apply Hnot.
      apply list_elem_of_fmap in Hmem as (t' & -> & Ht').
      apply list_elem_of_fmap. exists t'. split; [reflexivity|].
      apply list_elem_of_In, filter_In in Ht' as [Ht' _]. now apply list_elem_of_In.
    + intros _. exact Hin.
    + intros only Heq. discriminate Heq.
Qed.

Lemma remove_task_keeps_one_witness :
  let next := Panel.handleRemoveTask (js "1") [task_ceo; task_site] in
  next <> []
  /\ NoDup (id <$> next)
  /\ (2 <= length [task_ceo; task_site] ->
      forall t, t ∈ next <-> t ∈ [task_ceo; task_site] /\ id t <> js "1")
  /\ (forall only, [task_ceo; task_site] = [only] ->
        next = [{| id := id only; newColumnName := []; prompt := [] |}]).
Proof.
  apply (remove_task_keeps_one (js "1") [task_ceo; task_site]).
  - discriminate.
  - apply (bool_decide_unpack (NoDup (id <$> [task_ceo; task_site]))).
    vm_compute. reflexivity.
Defined.



(** ** The sheet *)

Lemma letterValue_snoc (s : jsstring) (c : N) :
  Sheet.letterValue (s ++ [c]) = (Sheet.letterValue s * 26 + (Z.of_N c - 64))%Z.
Proof. unfold Sheet.letterValue. now rewrite fold_left_app. Qed.

(** What the loop prepends to [letter]: capital letters that spell
    [index + 1]. *)
Lemma columnLetterLoop_value (fuel : nat) :
  forall (index : Z) (letter : jsstring),
    (-1 <= index)%Z -> (index < Z.of_nat fuel)%Z ->
    exists pre,
      Sheet.columnLetterLoop fuel index letter = pre ++ letter
      /\ Sheet.letterValue pre = (index + 1)%Z
      /\ Forall (fun c => (65 <= c <= 90)%N) pre.
Proof.
  induction fuel as [|fuel IH]; intros index letter Hlo Hhi.
  { exists []. split; [reflexivity|].
    split; [unfold Sheet.letterValue; simpl in *; lia | constructor]. }
  simpl. destruct (0 <=? index)%Z eqn:Hsign.
  - apply Z.leb_le in Hsign.
    pose proof (Z.mod_pos_bound index 26 ltac:(lia)) as Hmod.
    pose proof (Z.div_mod index 26 ltac:(lia)) as Hdiv.
    assert (Hq : (0 <= index / 26 <= index)%Z).
    { split; [apply Z.div_pos; lia|]. apply Z.div_le_upper_bound; lia. }
    destruct (IH (index / 26 - 1)%Z (Z.to_N (index mod 26 + 65) :: letter))
      as (pre & Heq & Hval & Hall); [lia | lia |].
    exists (pre ++ [Z.to_N (index mod 26 + 65)]).
    split; [rewrite Heq, <- app_assoc; reflexivity|].
    split.
    + rewrite letterValue_snoc, Hval, Z2N.id by lia. lia.
    + apply Forall_app. split; [exact Hall|]. constructor; [lia | constructor].
  - apply Z.leb_gt in Hsign. exists []. split; [reflexivity|].
    split; [unfold Sheet.letterValue; simpl; lia | constructor].
Qed.

(** Every fuel above the index gives the same letters. *)
Lemma columnLetterLoop_fuel (fuel : nat) :
  forall (fuel' : nat) (index : Z) (letter : jsstring),
    (index < Z.of_nat fuel)%Z -> (index < Z.of_nat fuel')%Z ->
    Sheet.columnLetterLoop fuel index letter
    = Sheet.columnLetterLoop fuel' index letter.
Proof.
  induction fuel as [|fuel IH]; intros fuel' index letter H H'.
  - destruct fuel' as [|fuel']; [reflexivity|]. simpl.
    destruct (0 <=? index)%Z eqn:Hsign; [apply Z.leb_le in Hsign; lia | reflexivity].
  - simpl. destruct (0 <=? index)%Z eqn:Hsign.
    + pose proof (proj1 (Z.leb_le _ _) Hsign) as Hle.
      destruct fuel' as [|fuel']; [lia|].
      simpl. rewrite Hsign.
      assert (Hq : (index / 26 <= index)%Z) by (apply Z.div_le_upper_bound; lia).
      apply IH; lia.
    + destruct fuel' as [|fuel']; [reflexivity|]. simpl. now rewrite Hsign.
Qed.

Lemma columnLetterLoop_app (fuel : nat) :
  forall (index : Z) (letter : jsstring),
    Sheet.columnLetterLoop fuel index letter
    = Sheet.columnLetterLoop fuel index [] ++ letter.
Proof.
  induction fuel as [|fuel IH]; intros index letter; [reflexivity|]. simpl.
  destruct (0 <=? index)%Z; [|reflexivity].
  rewrite IH, (IH _ [_]), <- app_assoc. reflexivity.
Qed.

(** X22: the column name of a non-negative index is made of capital
    letters and, read in base 26 with A = 1 .. Z = 26, spells the index
    plus one; it is the name of [index / 26 - 1] (empty below 26) followed
    by the letter number [index mod 26] of the alphabet. *)
Theorem column_letter_value (index : Z) :
  (0 <= index)%Z ->
  Sheet.letterValue (Sheet.getColumnLetter index) = (index + 1)%Z
  /\ Forall (fun c => (65 <= c <= 90)%N) (Sheet.getColumnLetter index)
  /\ Sheet.getColumnLetter index
     = Sheet.getColumnLetter (index / 26 - 1) ++ [Z.to_N (index mod 26 + 65)].
Proof.
  intros Hpos. unfold Sheet.getColumnLetter.
  destruct (columnLetterLoop_value (Z.to_nat (index + 1)) index [])
    as (pre & Heq & Hval & Hall); [lia | lia |].
  rewrite app_nil_r in Heq. rewrite Heq.
  split; [exact Hval|]. split; [exact Hall|].
  rewrite <- Heq.
  assert (Hq : (0 <= index / 26 <= index)%Z).
  { split; [apply Z.div_pos; lia|]. apply Z.div_le_upper_bound; lia. }
  destruct (Z.to_nat (index + 1)) as [|fuel] eqn:Hfuel; [lia|].
  simpl. rewrite (proj2 (Z.leb_le 0 index) Hpos).
  rewrite columnLetterLoop_app. f_equal.
  apply columnLetterLoop_fuel; lia.
Qed.

Lemma column_letter_value_witness :
  Sheet.letterValue (Sheet.getColumnLetter 27) = (27 + 1)%Z
  /\ Forall (fun c => (65 <= c <= 90)%N) (Sheet.getColumnLetter 27)
  /\ Sheet.getColumnLetter 27
     = Sheet.getColumnLetter (27 / 26 - 1) ++ [Z.to_N (27 mod 26 + 65)].
Proof.
  apply (column_letter_value 27). lia.
Defined.

(** X23: two different non-negative indices never get the same column
    name. *)
Theorem column_letters_distinct (i j : Z) :
  (0 <= i)%Z -> (0 <= j)%Z -> i <> j ->
  Sheet.getColumnLetter i <> Sheet.getColumnLetter j.
Proof.
  intros Hi Hj Hne Heq. unfold Sheet.getColumnLetter in Heq.
  destruct (columnLetterLoop_value (Z.to_nat (i + 1)) i [])
    as (pi & Hpi & Hvi & _); [lia | lia |].
  destruct (columnLetterLoop_value (Z.to_nat (j + 1)) j [])
    as (pj & Hpj & Hvj & _); [lia | lia |].
  rewrite Hpi, Hpj, !app_nil_r in Heq. subst pj. lia.
Qed.

Lemma column_letters_distinct_witness :
  Sheet.getColumnLetter 25 <> Sheet.getColumnLetter 701.
Proof.
  apply (column_letters_distinct 25 701); lia.
Defined.

(** X24: a full rebuild of the sheet is skipped exactly when the previous
    header is an initial part of the new one. *)
Theorem rebuild_unless_columns_appended (prevColumns columns : list jsstring) :
  Sheet.columnsRequireRebuild prevColumns columns = false
  <-> prevColumns `prefix_of` columns.
Proof.
  unfold Sheet.columnsRequireRebuild.
  assert (Hdiff : forall p c, Sheet.differsAt p c = false <-> p `prefix_of` c).
  { induction p as [|x p IH]; intros c; simpl.
    - split; [intros _; apply prefix_nil | reflexivity].
    - destruct c as [|y c].
      + split; [discriminate|]. intros [k Hk]. discriminate Hk.
      + destruct (decide (x = y)) as [->|Hne].
        * rewrite IH. split; [apply prefix_cons|]. apply prefix_cons_inv_2.
        * split; [discriminate|]. intros H. apply prefix_cons_inv_1 in H.
          contradiction. }
  destruct (length columns <? length prevColumns) eqn:Hlen.
  - apply Nat.ltb_lt in Hlen. split; [discriminate|].
    intros H. apply prefix_length in H. lia.
  - apply Hdiff.
Qed.

(** What the loop of [handleRemoveDuplicates] adds to [uniqueData], and
    what the loop of [calculateDuplicates] counts on the same rows. *)
Lemma uniqueRows_spec (selectedColumns : list jsstring) (data : list CsvRow) :
  forall (seen : gset jsstring) (acc : list CsvRow) (d : nat),
    exists kept,
      (Sheet.uniqueRows selectedColumns data seen acc).2 = acc ++ kept
      /\ kept `sublist_of` data
      /\ NoDup (Sheet.duplicateKey selectedColumns <$> kept)
      /\ (forall row, row ∈ kept -> Sheet.duplicateKey selectedColumns row ∉ seen)
      /\ (forall row, row ∈ data -> Sheet.duplicateKey selectedColumns row ∈ seen \/ Sheet.duplicateKey selectedColumns row ∈ (Sheet.duplicateKey selectedColumns <$> kept))
      /\ (forall before row after,
            data = before ++ row :: after ->
            Sheet.duplicateKey selectedColumns row ∉ seen -> Sheet.duplicateKey selectedColumns row ∉ (Sheet.duplicateKey selectedColumns <$> before) -> row ∈ kept)
      /\ Sheet.countDuplicates selectedColumns data seen d + length kept
         = d + length data.
Proof.
  induction data as [|row data IH]; intros seen acc d; simpl.
  - exists []. rewrite app_nil_r. split; [reflexivity|].
    split; [reflexivity|]. split; [constructor|].
    split; [intros r Hr; now apply elem_of_nil in Hr|].
    split; [intros r Hr; now apply elem_of_nil in Hr|].
    split; [|simpl; lia].
    intros before r after Heq. destruct before; discriminate Heq.
  - destruct (decide (Sheet.duplicateKey selectedColumns row ∈ seen)) as [Hseen|Hnew].
    + destruct (IH seen acc (S d))
        as (kept & Heq & Hsub & Hnd & Hfresh & Hcover & Hfirst & Hcount).
      exists kept. split; [exact Heq|].
      split; [now apply sublist_cons|]. split; [exact Hnd|].
      split; [exact Hfresh|].
      split.
      { intros r Hr. apply elem_of_cons in Hr as [->|Hr];
          [now left | now apply Hcover]. }
      split; [|lia].
      intros before r after Hdata Hr Hbefore.
      destruct before as [|b before]; simpl in Hdata; injection Hdata as Hb Hdata.
      * subst r. contradiction.
      * subst b. apply (Hfirst before r after Hdata Hr).
        intros Hin. apply Hbefore. simpl. now apply list_elem_of_further.
    + destruct (IH ({[Sheet.duplicateKey selectedColumns row]} ∪ seen) (acc ++ [row]) d)
        as (kept & Heq & Hsub & Hnd & Hfresh & Hcover & Hfirst & Hcount).
      exists (row :: kept).
      split; [rewrite Heq, <- app_assoc; reflexivity|].
      split; [now apply sublist_skip|].
      split.
      { simpl. constructor; [|exact Hnd].
        intros Hin. apply list_elem_of_fmap in Hin as (r & Hkey & Hr).
        apply (Hfresh r Hr). rewrite <- Hkey. set_solver. }
      split.
      { intros r Hr. apply elem_of_cons in Hr as [->|Hr]; [exact Hnew|].
        specialize (Hfresh r Hr). set_solver. }
      split.
      { intros r Hr. simpl. apply elem_of_cons in Hr as [->|Hr];
          [right; apply list_elem_of_here|].
        destruct (Hcover r Hr) as [Hin|Hin];
          [|right; now apply list_elem_of_further].
        apply elem_of_union in Hin as [Hin|Hin]; [|now left].
        apply elem_of_singleton in Hin. rewrite Hin.
        right. apply list_elem_of_here. }
      split; [|simpl; lia].
      intros before r after Hdata Hr Hbefore.
      destruct before as [|b before]; simpl in Hdata; injection Hdata as Hb Hdata.
      * subst r. apply list_elem_of_here.
      * subst b. apply list_elem_of_further.
        apply (Hfirst before r after Hdata).
        -- intros Hin. apply elem_of_union in Hin as [Hin|Hin]; [|contradiction].
           apply elem_of_singleton in Hin. apply Hbefore. simpl.
           rewrite Hin. apply list_elem_of_here.
        -- intros Hin. apply Hbefore. simpl. now apply list_elem_of_further.
Qed.

(** On rows with distinct fresh keys the loop keeps every row. *)
Lemma uniqueRows_distinct (selectedColumns : list jsstring) (data : list CsvRow) :
  forall (seen : gset jsstring) (acc : list CsvRow),
    NoDup (Sheet.duplicateKey selectedColumns <$> data) ->
    (forall row, row ∈ data -> Sheet.duplicateKey selectedColumns row ∉ seen) ->
    (Sheet.uniqueRows selectedColumns data seen acc).2 = acc ++ data.
Proof.
  induction data as [|row data IH]; intros seen acc Hnd Hfresh; simpl.
  - now rewrite app_nil_r.
  - simpl in Hnd. apply NoDup_cons in Hnd as [Hrow Hnd].
    rewrite decide_False by (apply Hfresh, list_elem_of_here).
    rewrite IH, <- app_assoc; [reflexivity | exact Hnd |].
    intros r Hr Hin. apply elem_of_union in Hin as [Hin|Hin].
    + apply elem_of_singleton in Hin. apply Hrow. rewrite <- Hin.
      apply list_elem_of_fmap. eauto.
    + apply (Hfresh r); [now apply list_elem_of_further | exact Hin].
Qed.

(** X25: removing duplicates keeps, in their order, exactly the rows that
    are the first of their key: the kept rows are a sublist of the table
    with pairwise different keys, and every row with a key that no earlier
    row has is kept. *)
Theorem remove_duplicates_keeps_first (selectedColumns : list jsstring)
    (data uniqueData : list CsvRow)
    (removed : nat) :
  Sheet.handleRemoveDuplicates selectedColumns data = Some (uniqueData, removed) ->
  uniqueData `sublist_of` data
  /\ NoDup (Sheet.duplicateKey selectedColumns <$> uniqueData)
  /\ (forall row, row ∈ data -> Sheet.duplicateKey selectedColumns row ∈ (Sheet.duplicateKey selectedColumns <$> uniqueData))
  /\ (forall before row after,
        data = before ++ row :: after ->
        Sheet.duplicateKey selectedColumns row ∉ (Sheet.duplicateKey selectedColumns <$> before) -> row ∈ uniqueData).
Proof.
  unfold Sheet.handleRemoveDuplicates. intros Hrun.
  destruct selectedColumns as [|c cs] eqn:Hsel; [discriminate|].
  rewrite <- Hsel in *.
  destruct (uniqueRows_spec selectedColumns data ∅ [] 0)
    as (kept & Heq & Hsub & Hnd & _ & Hcover & Hfirst & _).
  simpl in Heq. injection Hrun as Hu _. rewrite Heq in Hu. subst uniqueData.
  split; [exact Hsub|]. split; [exact Hnd|].
  split.
  - intros row Hrow. destruct (Hcover row Hrow) as [Hin|Hin]; [|exact Hin].
    now apply elem_of_empty in Hin.
  - intros before row after Hdata Hbefore.
    apply (Hfirst before row after Hdata); [apply not_elem_of_empty | exact Hbefore].
Qed.

(** X26: the number of duplicates announced for a selection is the number
    of rows a removal takes out, and the rows kept and the rows removed add
    up to the table. *)
Theorem duplicate_count_is_rows_removed (selectedColumns : list jsstring)
    (data uniqueData : list CsvRow)
    (removed : nat) :
  Sheet.handleRemoveDuplicates selectedColumns data = Some (uniqueData, removed) ->
  Sheet.calculateDuplicates selectedColumns data = Some removed
  /\ length uniqueData + removed = length data.
Proof.
  unfold Sheet.handleRemoveDuplicates, Sheet.calculateDuplicates. intros Hrun.
  destruct selectedColumns as [|c cs] eqn:Hsel; [discriminate|].
  rewrite <- Hsel in *.
  destruct (uniqueRows_spec selectedColumns data ∅ [] 0)
    as (kept & Heq & Hsub & _ & _ & _ & _ & Hcount).
  simpl in Heq. injection Hrun as Hu Hr. rewrite Heq in Hu, Hr. subst uniqueData.
  apply sublist_length in Hsub.
  split; [f_equal; lia | lia].
Qed.

(** X27: removing duplicates twice removes nothing the second time. *)
Theorem remove_duplicates_idempotent (selectedColumns : list jsstring)
    (data uniqueData : list CsvRow)
    (removed : nat) :
  Sheet.handleRemoveDuplicates selectedColumns data = Some (uniqueData, removed) ->
  Sheet.handleRemoveDuplicates selectedColumns uniqueData = Some (uniqueData, 0).
Proof.
  unfold Sheet.handleRemoveDuplicates. intros Hrun.
  destruct selectedColumns as [|c cs] eqn:Hsel; [discriminate|].
  rewrite <- Hsel in *.
  destruct (uniqueRows_spec selectedColumns data ∅ [] 0) as (kept & Heq & _ & Hnd & _).
  simpl in Heq. injection Hrun as Hu _. rewrite Heq in Hu. subst uniqueData.
  rewrite (uniqueRows_distinct selectedColumns kept ∅ [] Hnd)
    by (intros; apply not_elem_of_empty).
  simpl. now rewrite Nat.sub_diag.
Qed.

Lemma remove_duplicates_keeps_first_witness :
  [row_acme; row_blank] `sublist_of` [row_acme; row_blank; row_acme]
  /\ NoDup (Sheet.duplicateKey [js "Name"] <$> [row_acme; row_blank])
  /\ (forall row, row ∈ [row_acme; row_blank; row_acme] ->
        Sheet.duplicateKey [js "Name"] row
          ∈ (Sheet.duplicateKey [js "Name"] <$> [row_acme; row_blank]))
  /\ (forall before row after,
        [row_acme; row_blank; row_acme] = before ++ row :: after ->
        Sheet.duplicateKey [js "Name"] row
          ∉ (Sheet.duplicateKey [js "Name"] <$> before) ->
        row ∈ [row_acme; row_blank]).
Proof.
  apply (remove_duplicates_keeps_first [js "Name"]
           [row_acme; row_blank; row_acme] [row_acme; row_blank] 1).
  vm_compute. reflexivity.
Defined.

Lemma duplicate_count_is_rows_removed_witness :
  Sheet.calculateDuplicates [js "Name"] [row_acme; row_blank; row_acme] = Some 1
  /\ length [row_acme; row_blank] + 1 = length [row_acme; row_blank; row_acme].
Proof.
  apply (duplicate_count_is_rows_removed [js "Name"]
           [row_acme; row_blank; row_acme] [row_acme; row_blank] 1).
  vm_compute. reflexivity.
Defined.

Lemma remove_duplicates_idempotent_witness :
  Sheet.handleRemoveDuplicates [js "Name"] [row_acme; row_blank]
  = Some ([row_acme; row_blank], 0).
Proof.
  apply (remove_duplicates_idempotent [js "Name"]
           [row_acme; row_blank; row_acme] [row_acme; row_blank] 1).
  vm_compute. reflexivity.
Defined.

(** ** The run with the invoker *)

Lemma publish_in_flight (k : Machine -> Machine) i rest m :
  (forall m0, in_flight (k m0)) -> in_flight (publish k i rest m).
Proof.
  intros Hk. unfold publish. destruct (_ <? _); [|apply Hk].
  intros i' rest' Hpc. discriminate Hpc.
Qed.

Lemma fire_in_flight (k : Machine -> Machine) i rest m :
  (forall m0, in_flight (k m0)) -> in_flight (fire k i rest m).
Proof.
  intros Hk. unfold fire.
  destruct (batchPromises (config m) (newData m) i) as [[|inv invs]|e] eqn:Hb.
  - now apply publish_in_flight.
  - intros i' rest' Hpc. simpl in Hpc. injection Hpc as <- <-. simpl. eauto.
  - intros i' rest' Hpc. discriminate Hpc.
Qed.

Lemma forLoop_in_flight (starts : list nat) (m : Machine) :
  in_flight (forLoop starts m).
Proof.
  revert m. induction starts as [|i rest IH]; intros m; simpl.
  - intros i' rest' Hpc. discriminate Hpc.
  - unfold iteration.
    destruct (isCancelledRef (app m)); [intros i' rest' Hpc; discriminate Hpc|].
    destruct (isPausedRef (app m)); [intros i' rest' Hpc; discriminate Hpc|].
    now apply fire_in_flight.
Qed.

Lemma release_in_flight (m : Machine) (g : AppState -> AppState) :
  in_flight m -> in_flight (release (withApp g m)).
Proof.
  intros Hm. unfold release.
  destruct (resumeResolverRef (app (withApp g m))); [|exact Hm].
  simpl. destruct (pc m) as [i rest|i rest|i rest| |e] eqn:Hpc;
    try (intros i' rest' Hpc'; simpl in Hpc'; rewrite Hpc in Hpc';
         first [discriminate Hpc' | apply (Hm i' rest'); congruence]).
  unfold afterWake.
  destruct (isCancelledRef _); [intros i' rest' Hpc'; discriminate Hpc'|].
  apply fire_in_flight, forLoop_in_flight.
Qed.

Lemma step_in_flight (m m' : Machine) (ev : Event) :
  step m ev = Some m' -> in_flight m -> in_flight m'.
Proof.
  intros Hstep Hm. destruct ev as [| | |results|e|]; simpl in Hstep.
  - injection Hstep as <-. exact Hm.
  - injection Hstep as <-. now apply release_in_flight.
  - injection Hstep as <-. now apply release_in_flight.
  - destruct (pc m) as [|i rest| | |]; try discriminate.
    destruct (batchPromises _ _ _) as [invs|]; [|discriminate].
    destruct (decide _); [|discriminate]. injection Hstep as <-.
    unfold settle. destruct (mergeResults _ _ _) as [[nd ns]|e'].
    + apply publish_in_flight, forLoop_in_flight.
    + intros i' rest' Hpc. discriminate Hpc.
  - destruct (pc m); try discriminate. injection Hstep as <-.
    intros i' rest' Hpc. discriminate Hpc.
  - destruct (pc m); try discriminate. injection Hstep as <-.
    apply forLoop_in_flight.
Qed.

Lemma reachable_in_flight (cfg : ResearchConfig) (s0 : AppState) (m : Machine) :
  reachable cfg s0 m -> in_flight m.
Proof.
  induction 1 as [|m ev m' _ IH Hstep]; [|exact (step_in_flight _ _ _ Hstep IH)].
  unfold handleStartResearch. destruct (data s0).
  - intros i rest Hpc. discriminate Hpc.
  - apply forLoop_in_flight.
Qed.

Lemma promiseAll_fulfilled (f : Invocation -> Completion ResearchResult)
    (g : Invocation -> ResearchResult) (invs : list Invocation) :
  (forall inv, f inv = Normal (g inv)) ->
  promiseAll (f <$> invs) = Normal (g <$> invs).
Proof.
  intros Hf. induction invs as [|inv invs IH]; [reflexivity|].
  rewrite !fmap_cons. cbn [promiseAll]. rewrite Hf, IH. reflexivity.
Qed.

Lemma invoke_with_key (apiKey : jsstring)
    (generateContent : Invocation -> Invoker.GenerateContentRequest
                       -> Invoker.ProviderOutcome) (inv : Invocation) :
  nonempty apiKey = true ->
  invoke apiKey generateContent inv
  = Normal (invokeResult apiKey generateContent inv).
Proof.
  intros Hkey. unfold invokeResult, invoke, Invoker.researchEntity.
  rewrite Hkey. simpl. destruct (generateContent inv _); reflexivity.
Qed.

Lemma serviceRun_with_key (apiKey : jsstring)
    (generateContent : Invocation -> Invoker.GenerateContentRequest
                       -> Invoker.ProviderOutcome) (fuel : nat) (m : Machine) :
  nonempty apiKey = true ->
  serviceRun apiKey generateContent fuel m
  = autoRun (invokeResult apiKey generateContent) fuel m.
Proof.
  intros Hkey. revert m. induction fuel as [|fuel IH]; intros m; [reflexivity|].
  simpl.
  assert (Hev : serviceEvent apiKey generateContent m
                = respond (invokeResult apiKey generateContent) m).
  { unfold serviceEvent, respond. destruct (pc m); try reflexivity.
    destruct (batchPromises _ _ _) as [invs|]; [|reflexivity].
    rewrite (promiseAll_fulfilled _ (invokeResult apiKey generateContent));
      [reflexivity|].
    intros inv. now apply invoke_with_key. }
  rewrite Hev. destruct (respond _ m) as [ev|]; [|reflexivity].
  destruct (step m ev); [apply IH | reflexivity].
Qed.

(** X28: with an API key configured, a run over rows that resolve (no
    target column that a row below the effective total lacks names a
    property of [Object.prototype]) that nobody pauses or cancels reaches
    Completed whatever the provider does on each call (answer, empty
    answer, failure), after at most two events per row, with the counter at
    the effective total. *)
Theorem run_with_key_completes (apiKey : jsstring)
    (generateContent : Invocation -> Invoker.GenerateContentRequest
                       -> Invoker.ProviderOutcome)
    (cfg : ResearchConfig) (s0 : AppState) :
  nonempty apiKey = true ->
  data s0 <> [] ->
  rows_resolvable cfg (data s0) = true ->
  let m := serviceRun apiKey generateContent
             (2 * effectiveTotal cfg (length (data s0)))
             (handleStartResearch cfg s0) in
  reachable cfg s0 m
  /\ pc m = Returned
  /\ status (app m) = COMPLETED
  /\ processedCount (app m) = effectiveTotal cfg (length (data s0)).
Proof.
  intros Hkey Hne Hres. cbv zeta. rewrite serviceRun_with_key by exact Hkey.
  set (oracle := invokeResult apiKey generateContent).
  assert (Hreach : reachable cfg s0
            (autoRun oracle (2 * effectiveTotal cfg (length (data s0)))
               (handleStartResearch cfg s0)))
    by apply autoRun_reachable, reach_start.
  assert (Hfin : finished
            (autoRun oracle (2 * effectiveTotal cfg (length (data s0)))
               (handleStartResearch cfg s0))).
  { rewrite handleStartResearch_rows by exact Hne.
    apply autoRun_forLoop; simpl; try apply prologue_fields; [exact Hres|].
    pose proof (batch_starts_length (BATCH_SIZE cfg)
                  (effectiveTotal cfg (length (data s0)))). lia. }
  destruct Hfin as [Hpc Hs].
  split; [exact Hreach|]. split; [exact Hpc|]. split; [exact Hs|].
  destruct (reachable_run_inv _ _ _ Hne Hreach) as (f & _ & Hcase).
  rewrite Hpc in Hcase. now apply Hcase.
Qed.

Lemma run_with_key_completes_witness :
  let m := serviceRun (js "key") provider_down
             (2 * effectiveTotal config_limit2 (length (data app_three)))
             (handleStartResearch config_limit2 app_three) in
  reachable config_limit2 app_three m
  /\ pc m = Returned
  /\ status (app m) = COMPLETED
  /\ processedCount (app m) = effectiveTotal config_limit2 (length (data app_three)).
Proof.
  apply (run_with_key_completes (js "key") provider_down config_limit2 app_three).
  - reflexivity.
  - discriminate.
  - vm_compute. reflexivity.
Defined.

(** X29: without an API key, a run ends at the first batch that has an
    invocation.  The batch rejects with the missing-key error, the call of
    [handleStartResearch] ends with it, and the state is left as it was:
    the table, the counter, the status (Processing unless paused) and the
    calls made. *)
Theorem run_without_key_stops (apiKey : jsstring)
    (generateContent : Invocation -> Invoker.GenerateContentRequest
                       -> Invoker.ProviderOutcome)
    (cfg : ResearchConfig) (s0 : AppState) (m : Machine)
    (i : nat) (rest : list nat) (fuel : nat) :
  nonempty apiKey = false ->
  reachable cfg s0 m ->
  pc m = AwaitBatch i rest ->
  let m' := serviceRun apiKey generateContent (S fuel) m in
  pc m' = Threw (ErrorMsg Invoker.missing_key_message)
  /\ app m' = app m
  /\ fired m' = fired m
  /\ status (app m') <> COMPLETED.
Proof.
  intros Hkey Hreach Hpc. cbv zeta.
  destruct (reachable_in_flight _ _ _ Hreach i rest Hpc) as (inv & invs & Hb).
  assert (Hev : serviceEvent apiKey generateContent m
                = Some (EvBatchRejected (ErrorMsg Invoker.missing_key_message))).
  { unfold serviceEvent. rewrite Hpc, Hb. simpl.
    unfold invoke at 1, Invoker.researchEntity at 1. now rewrite Hkey. }
  simpl. rewrite Hev. simpl. rewrite Hpc.
  assert (Hstop : forall m1, pc m1 = Threw (ErrorMsg Invoker.missing_key_message) ->
            serviceRun apiKey generateContent fuel m1 = m1).
  { intros m1 H1. destruct fuel; simpl; [reflexivity|].
    unfold serviceEvent. now rewrite H1. }
  rewrite Hstop by reflexivity. simpl.
  split; [reflexivity|]. split; [reflexivity|]. split; [reflexivity|].
  intros Hs.
  assert (Hcase : data s0 = [] \/ data s0 <> [])
    by (destruct (data s0); [left; reflexivity | right; discriminate]).
  destruct Hcase as [Hempty|Hne].
  - assert (Hkeys : forall row, row ∈ data s0 -> Row.keys row ⊆ columns s0).
    { rewrite Hempty. intros row Hrow. now apply elem_of_nil in Hrow. }
    destruct (reachable_tables cfg s0 m Hkeys Hreach) as [[_ Hm]|[Hne _]];
      [|contradiction].
    destruct Hm as (_ & Hnew & _).
    destruct (batchPromises_tags _ _ _ _ inv Hb (list_elem_of_here _ _))
      as (_ & _ & row & t & Hrow & _).
    rewrite Hnew in Hrow. discriminate Hrow.
  - destruct (reachable_run_inv _ _ _ Hne Hreach) as (f & _ & Hcase).
    rewrite Hpc in Hcase. tauto.
Qed.

Lemma run_without_key_stops_witness :
  let m' := serviceRun [] provider_down 3 machine_two in
  pc m' = Threw (ErrorMsg Invoker.missing_key_message)
  /\ app m' = app machine_two
  /\ fired m' = fired machine_two
  /\ status (app m') <> COMPLETED.
Proof.
  apply (run_without_key_stops [] provider_down config_ceo app_two machine_two 0 [] 2).
  - reflexivity.
  - apply reach_start.
  - vm_compute. reflexivity.
Defined.

(** ** The table of a completed run *)

(** Up to its next [await] the loop either makes no call or leaves the
    counter where it is. *)
Lemma forLoop_no_skip (cfg : ResearchConfig) (rows0 : list CsvRow)
    (starts : list nat) (m : Machine) :
  loop_ready cfg rows0 starts m ->
  newData (forLoop starts m) = newData m
  /\ config (forLoop starts m) = config m
  /\ (fired (forLoop starts m) = fired m
      \/ processedCount (app (forLoop starts m)) = processedCount (app m)).
Proof.
  intros (Hstand & Hs & Hsched & Hcount).
  destruct (forLoop_control_frame starts m) as (_ & _ & _ & _ & Hcfg & Hnew & _).
  split; [exact Hnew|]. split; [exact Hcfg|].
  destruct Hstand as (Hc & Hl & _).
  destruct starts as [|i rest]; [left; reflexivity|].
  destruct Hsched as [Hsched|(i0 & Hi & Hsched)]; [discriminate Hsched|].
  injection Hsched as <- Hrest.
  simpl. unfold iteration.
  destruct (isCancelledRef (app m)); [left; reflexivity|].
  destruct (isPausedRef (app m)); [left; reflexivity|].
  unfold fire.
  destruct (batchPromises (config m) (newData m) i) as [[|inv invs]|e];
    [|right; reflexivity | right; reflexivity].
  unfold publish. rewrite Hc, Hl.
  destruct (_ <? _) eqn:Hlt; [left; reflexivity|].
  apply Nat.ltb_ge in Hlt.
  assert (Hnil : rest = []) by (rewrite Hrest; apply following_last; assumption).
  rewrite Hnil. left. reflexivity.
Qed.

Lemma settle_fields (m : Machine) (i : nat) (rest : list nat)
    (invs : list Invocation) (results : list ResearchResult)
    (merged : list CsvRow) (ns : gmap (nat * jsstring) (list Source)) :
  mergeResults (config m) (newData m, ∅) (zip invs results) = Normal (merged, ns) ->
  i < effectiveTotal (config m) (length (newData m)) ->
  rest = following (config m) (effectiveTotal (config m) (length (newData m))) i ->
  let m' := settle (forLoop rest) i rest invs results m in
  let total := effectiveTotal (config m) (length (newData m)) in
  let stop := batchEnd (BATCH_SIZE (config m)) i total in
  newData m' = merged /\ fired m' = fired m /\ config m' = config m
  /\ processedCount (app m') = stop
  /\ isCancelledRef (app m') = isCancelledRef (app m)
  /\ isPausedRef (app m') = isPausedRef (app m)
  /\ (total <= stop -> pc m' = Returned /\ status (app m') = COMPLETED)
  /\ (stop < total -> pc m' = AwaitSleep i rest /\ status (app m') = status (app m)).
Proof.
  intros Hmerge Hi Hrest. cbv zeta. unfold settle. rewrite Hmerge.
  pose proof (mergeResults_length _ _ _ _ Hmerge) as Hmlen. simpl in Hmlen.
  unfold publish. simpl. rewrite Hmlen.
  destruct (_ <? _) eqn:Hlt.
  - apply Nat.ltb_lt in Hlt. simpl. repeat split; try reflexivity; lia.
  - apply Nat.ltb_ge in Hlt.
    assert (Hnil : rest = []) by (rewrite Hrest; apply following_last; assumption).
    rewrite Hnil. simpl. repeat split; try reflexivity; lia.
Qed.

Lemma plan_rows (cfg : ResearchConfig) (rows : list CsvRow) (n n' : nat)
    (inv : Invocation) :
  inv ∈ plan cfg rows n -> rowIndex inv < n' -> inv ∈ plan cfg rows n'.
Proof.
  intros Hin Hlt.
  apply elem_of_plan in Hin as (j & k & row & t & Hj & H).
  apply elem_of_plan. exists j, k, row, t.
  destruct H as (H1 & H2 & H3 & H4 & ->). simpl in Hlt. tauto.
Qed.

Lemma plan_row_below (cfg : ResearchConfig) (rows : list CsvRow) (n : nat)
    (inv : Invocation) :
  inv ∈ plan cfg rows n -> rowIndex inv < n.
Proof.
  intros Hin.
  apply elem_of_plan in Hin as (j & k & row & t & Hj & _ & _ & _ & _ & ->).
  exact Hj.
Qed.

(** An answered event of the run keeps the answers in place. *)
Lemma respond_answered (cfg : ResearchConfig) (s0 : AppState)
    (oracle : Invocation -> ResearchResult) (m : Machine) (ev : Event) (m' : Machine) :
  data s0 <> [] ->
  NoDup (newColumnName <$> tasks cfg) ->
  reachable cfg s0 m ->
  answered oracle m ->
  respond oracle m = Some ev ->
  step m ev = Some m' ->
  answered oracle m'.
Proof.
  intros Hne Hnames Hreach Hans Hresp Hstep.
  pose proof (reachable_on_schedule _ _ _ Hreach) as Hsched.
  pose proof (reachable_run_inv _ _ _ Hne Hreach) as Hinv.
  pose proof (effectiveTotal_le cfg (length (data s0))) as Htot.
  destruct (step_run_inv cfg (data s0) m ev m' Hsched Hinv Hstep) as [Hinv' _].
  unfold respond in Hresp.
  destruct (pc m) as [|i rest|i rest| |] eqn:Hpc; try discriminate.
  - (* the batch settles *)
    destruct (batchPromises (config m) (newData m) i) as [invs|] eqn:Hb;
      [|discriminate].
    injection Hresp as <-. simpl in Hstep. rewrite Hpc, Hb in Hstep.
    rewrite decide_True in Hstep by apply length_fmap. injection Hstep as <-.
    destruct Hinv as (f & Hstand & Hcase). rewrite Hpc in Hcase.
    destruct Hcase as (Hcount & -> & Hs).
    destruct (on_schedule_total cfg (data s0) _ m i rest Hsched Hstand
                (or_intror (or_introl Hpc))) as (Hi & Hrest & _).
    destruct Hstand as (Hc & Hl & Hn & Hf & Hrows & Hfired & Hdata & Hres).
    destruct (mergeResults_normal (config m) (zip invs (oracle <$> invs))
                (newData m, ∅)) as [[merged ns] Hmerge].
    { intros [inv r] Hin. simpl. apply elem_of_zip_l in Hin.
      apply (tagged_in_range (config m) (newData m) i inv).
      now apply (batchPromises_tags _ _ _ invs). }
    destruct (settle_fields m i rest invs (oracle <$> invs) merged ns Hmerge)
      as (Hnew' & Hfired' & Hcfg' & _);
      [rewrite Hc, Hl; exact Hi | rewrite Hc, Hl; exact Hrest|].
    intros inv t Hin _ Ht. rewrite Hfired' in Hin. rewrite Hcfg' in Ht.
    rewrite Hfired in Hin.
    rewrite Hc in Hb.
    rewrite (plan_batch cfg (data s0) (newData m) i invs Hl ltac:(lia)) in Hin;
      [|rewrite <- Hcount; exact Hrows | exact Hb].
    apply elem_of_app in Hin as [Hin|Hin].
    + pose proof (plan_row_below cfg (data s0) i inv Hin) as Hrow.
      rewrite Hnew'.
      rewrite <- (Hans inv t); [| | lia | exact Ht].
      * apply (mergeResults_other_cell _ _ _ _ (rowIndex inv) (newColumnName t) Hmerge).
        intros [inv' r'] t' Hin' _ [Hsame _]. simpl in Hsame.
        apply elem_of_zip_l in Hin'.
        rewrite <- Hc in Hb.
        pose proof (batchPromises_tags _ _ _ _ _ Hb Hin') as (Hge & _). lia.
      * rewrite Hfired.
        apply (plan_rows cfg (data s0) i); [exact Hin | lia].
    + apply list_elem_of_lookup_1 in Hin as [k Hk].
      rewrite <- Hc in Hb.
      apply (settle_distinct_columns m i rest invs (oracle <$> invs) k inv
               (oracle inv) t); try assumption.
      * now rewrite Hc.
      * apply length_fmap.
      * rewrite list_lookup_fmap, Hk. reflexivity.
  - (* the sleep ends *)
    injection Hresp as <-. simpl in Hstep. rewrite Hpc in Hstep.
    injection Hstep as <-.
    destruct Hinv as (f & Hstand & Hcase). rewrite Hpc in Hcase.
    destruct Hcase as (Hcount & -> & Hs).
    destruct (on_schedule_total cfg (data s0) _ m i rest Hsched Hstand
                (or_intror (or_intror Hpc))) as (Hi & Hrest & Hmore).
    specialize (Hmore Hpc).
    assert (Hready : loop_ready cfg (data s0) rest m).
    { unfold loop_ready.
      split; [exact Hstand|]. split; [exact Hs|].
      split; [rewrite Hrest; apply following_scheduled|].
      rewrite Hcount, Hrest.
      pose proof (following_unfold cfg (effectiveTotal cfg (length (data s0))) i) as Hfu.
      unfold batchEnd in *.
      destruct (BATCH_SIZE cfg) as [b|]; [|lia].
      rewrite Hfu. destruct (i + b <? _) eqn:Hlt; [lia|].
      apply Nat.ltb_ge in Hlt. lia. }
    destruct (forLoop_no_skip cfg (data s0) rest m Hready) as (Hnew' & Hcfg' & Hcase).
    destruct Hstand as (Hc & Hl & Hn & Hf & Hrows & Hfired & Hdata & Hres).
    destruct Hinv' as (f' & (_ & _ & Hn' & Hf' & _ & Hfired' & _) & _).
    intros inv t Hin Hlt Ht. rewrite Hnew'. rewrite Hcfg' in Ht.
    apply Hans; [| |exact Ht].
    + destruct Hcase as [Hsame|Hsame]; [now rewrite <- Hsame|].
      rewrite Hfired. rewrite Hfired' in Hin.
      apply (plan_rows cfg (data s0) f'); [exact Hin | lia].
    + destruct Hcase as [Hsame|Hsame]; [|lia].
      rewrite Hsame, Hfired in Hin.
      apply (plan_row_below cfg (data s0) (processedCount (app m)) inv).
      exact Hin.
Qed.

Lemma autoRun_answered (cfg : ResearchConfig) (s0 : AppState)
    (oracle : Invocation -> ResearchResult) (fuel : nat) (m : Machine) :
  data s0 <> [] ->
  NoDup (newColumnName <$> tasks cfg) ->
  reachable cfg s0 m ->
  answered oracle m ->
  answered oracle (autoRun oracle fuel m).
Proof.
  intros Hne Hnames. revert m.
  induction fuel as [|fuel IH]; simpl; intros m Hreach Hans; [exact Hans|].
  destruct (respond oracle m) as [ev|] eqn:Hresp; [|exact Hans].
  destruct (step m ev) as [m'|] eqn:Hstep; [|exact Hans].
  apply IH; [eapply reach_step; eassumption|].
  eapply respond_answered; eassumption.
Qed.

(** X30: the table of an undisturbed run.  When the task columns have
    distinct names and the rows below the effective total resolve (no
    target column that such a row lacks names a property of
    [Object.prototype]), the run ends Completed and its table holds, for
    every row below the effective total that has a subject and for every
    task, the text returned by the call made for that row and task, in the
    column of the task. *)
Theorem completed_table_has_answers (cfg : ResearchConfig) (s0 : AppState)
    (oracle : Invocation -> ResearchResult) :
  data s0 <> [] ->
  NoDup (newColumnName <$> tasks cfg) ->
  rows_resolvable cfg (data s0) = true ->
  let m := autoRun oracle (2 * effectiveTotal cfg (length (data s0)))
             (handleStartResearch cfg s0) in
  status (app m) = COMPLETED
  /\ forall j k row t,
       j < effectiveTotal cfg (length (data s0)) ->
       data s0 !! j = Some row ->
       nonempty (subject_kept cfg row) = true ->
       tasks cfg !! k = Some t ->
       cell (data (app m)) j (newColumnName t)
       = Str (text (oracle {| rowIndex := j; taskIndex := k;
                              inv_entityName := subject_kept cfg row;
                              inv_prompt := prompt t;
                              inv_context := contextStr cfg row;
                              inv_thinking := useThinkingModel cfg |})).
Proof.
  intros Hne Hnames Hresolve. cbv zeta.
  set (fuel := 2 * effectiveTotal cfg (length (data s0))).
  assert (Hreach : reachable cfg s0 (autoRun oracle fuel (handleStartResearch cfg s0)))
    by apply autoRun_reachable, reach_start.
  assert (Hfin : finished (autoRun oracle fuel (handleStartResearch cfg s0))).
  { rewrite handleStartResearch_rows by exact Hne.
    apply autoRun_forLoop; simpl; try apply prologue_fields; [exact Hresolve|].
    pose proof (batch_starts_length (BATCH_SIZE cfg)
                  (effectiveTotal cfg (length (data s0)))). subst fuel. lia. }
  assert (Hans : answered oracle (autoRun oracle fuel (handleStartResearch cfg s0))).
  { apply (autoRun_answered cfg s0); [exact Hne | exact Hnames | apply reach_start |].
    rewrite handleStartResearch_rows by exact Hne.
    destruct (forLoop_no_skip cfg (data s0) _ _ (start_loop_ready cfg s0 Hne))
      as (_ & _ & Hcase).
    destruct (prologue_fields cfg s0) as (Hzero & _).
    intros inv t Hin Hlt _. exfalso.
    destruct Hcase as [Hsame|Hsame].
    - rewrite Hsame in Hin. simpl in Hin. now apply elem_of_nil in Hin.
    - rewrite Hsame in Hlt. simpl in Hlt. rewrite Hzero in Hlt. lia. }
  destruct Hfin as [Hpc Hs]. split; [exact Hs|].
  destruct (reachable_run_inv _ _ _ Hne Hreach)
    as (f & (Hc & Hl & Hn & Hf & Hrows & Hfired & Hdata & Hres) & Hcase).
  rewrite Hpc in Hcase. destruct Hcase as [-> Hdone]. specialize (Hdone Hs).
  intros j k row t Hj Hrow Hsub Ht. rewrite Hdata.
  set (inv := {| rowIndex := j; taskIndex := k;
                 inv_entityName := subject_kept cfg row;
                 inv_prompt := prompt t;
                 inv_context := contextStr cfg row;
                 inv_thinking := useThinkingModel cfg |}).
  apply (Hans inv t).
  - rewrite Hfired, Hdone. apply elem_of_plan.
    exists j, k, row, t. rewrite Hdone in Hres.
    split; [exact Hj|]. split; [exact Hrow|].
    split; [exact (Hres j row Hj Hrow) | tauto].
  - simpl. rewrite Hdone. exact Hj.
  - rewrite Hc. exact Ht.
Qed.

Lemma completed_table_has_answers_witness :
  let m := autoRun oracle_bob (2 * effectiveTotal config_limit2 (length (data app_three)))
             (handleStartResearch config_limit2 app_three) in
  status (app m) = COMPLETED
  /\ forall j k row t,
       j < effectiveTotal config_limit2 (length (data app_three)) ->
       data app_three !! j = Some row ->
       nonempty (subject_kept config_limit2 row) = true ->
       tasks config_limit2 !! k = Some t ->
       cell (data (app m)) j (newColumnName t)
       = Str (text (oracle_bob {| rowIndex := j; taskIndex := k;
                                  inv_entityName := subject_kept config_limit2 row;
                                  inv_prompt := prompt t;
                                  inv_context := contextStr config_limit2 row;
                                  inv_thinking := useThinkingModel config_limit2 |})).
Proof.
  apply (completed_table_has_answers config_limit2 app_three oracle_bob).
  - discriminate.
  - apply (bool_decide_unpack (NoDup (newColumnName <$> tasks config_limit2))).
    vm_compute. reflexivity.
  - vm_compute. reflexivity.
Defined.

(** ** A batch with a failed invocation *)

(** A loop that awaits a batch runs over a table that has rows. *)
Lemma awaiting_batch_rows (cfg : ResearchConfig) (s0 : AppState) (m : Machine)
    (i : nat) (rest : list nat) :
  reachable cfg s0 m -> pc m = AwaitBatch i rest -> data s0 <> [].
Proof.
  intros Hreach Hpc Hempty.
  destruct (reachable_in_flight _ _ _ Hreach i rest Hpc) as (inv & invs & Hb).
  assert (Hkeys : forall row, row ∈ data s0 -> Row.keys row ⊆ columns s0).
  { rewrite Hempty. intros row Hrow. now apply elem_of_nil in Hrow. }
  destruct (reachable_tables cfg s0 m Hkeys Hreach) as [[_ Hm]|[Hne _]];
    [|contradiction].
  destruct Hm as (_ & Hnew & _).
  destruct (batchPromises_tags _ _ _ _ inv Hb (list_elem_of_here _ _))
    as (_ & _ & row & t & Hrow & _).
  rewrite Hnew in Hrow. discriminate Hrow.
Qed.

(** The iteration for the batch at [i], on schedule: the calls it makes,
    and where it suspends when the batch has a promise. *)
Lemma fire_calls (m : Machine) (i : nat) :
  let total := effectiveTotal (config m) (length (newData m)) in
  let rest := following (config m) total i in
  i < total ->
  fired (fire (forLoop rest) i rest m)
  = fired m ++ batchCalls (config m) (newData m) i
  /\ (forall inv invs,
        batchPromises (config m) (newData m) i = Normal (inv :: invs) ->
        pc (fire (forLoop rest) i rest m) = AwaitBatch i rest).
Proof.
  cbv zeta. intros Hi. unfold fire.
  destruct (batchPromises (config m) (newData m) i) as [[|inv invs]|e] eqn:Hb.
  - rewrite (batchPromises_calls _ _ _ _ Hb), app_nil_r. split; [|discriminate].
    unfold publish. destruct (_ <? _) eqn:Hlt; [reflexivity|].
    apply Nat.ltb_ge in Hlt.
    rewrite (proj2 (following_last (config m) _ i Hi) Hlt). reflexivity.
  - rewrite (batchPromises_calls _ _ _ _ Hb). split; reflexivity.
  - split; [reflexivity | discriminate].
Qed.

(** C6: for every batch of N invocations a run awaits, if one of them
    returns the sentinel [{text: "Error", sources: []}], the batch still
    settles.  The text of every other result is written into its row's
    task column: it is what that cell of the working copy and of the
    published table holds afterwards, unless a later result of the same
    batch is written to the same cell, which takes two tasks with one
    column name.  The counter moves to the end of the batch, and the run
    goes on to the next batch: when rows remain, the loop sleeps and, at the
    end of the sleep, unless it was paused or cancelled meanwhile, makes
    the calls of the batch that starts where this one ended and awaits
    them; when no row remains, the run ends Completed. *)
Theorem C6_isolated_failure (cfg : ResearchConfig) (s0 : AppState) (m : Machine)
    (i : nat) (rest : list nat) (invs : list Invocation)
    (results : list ResearchResult) (k : nat) :
  reachable cfg s0 m ->
  pc m = AwaitBatch i rest ->
  batchPromises cfg (newData m) i = Normal invs ->
  length results = length invs ->
  results !! k = Some {| text := js "Error"; sources := [] |} ->
  let total := effectiveTotal cfg (length (data s0)) in
  let stop := batchEnd (BATCH_SIZE cfg) i total in
  exists m',
    step m (EvBatchSettled results) = Some m'
    /\ (forall k' inv r t,
          k' <> k ->
          invs !! k' = Some inv -> results !! k' = Some r ->
          tasks cfg !! taskIndex inv = Some t ->
          (forall k'' inv'' t'', k' < k'' -> invs !! k'' = Some inv'' ->
             tasks cfg !! taskIndex inv'' = Some t'' ->
             ~ (rowIndex inv'' = rowIndex inv /\ newColumnName t'' = newColumnName t)) ->
          cell (newData m') (rowIndex inv) (newColumnName t) = Str (text r)
          /\ cell (data (app m')) (rowIndex inv) (newColumnName t) = Str (text r))
    /\ processedCount (app m') = stop
    /\ fired m' = fired m
    /\ (total <= stop -> pc m' = Returned /\ status (app m') = COMPLETED)
    /\ (stop < total ->
        pc m' = AwaitSleep i rest
        /\ status (app m') = status (app m)
        /\ exists m'',
             step m' EvTimer = Some m''
             /\ (isCancelledRef (app m) = false -> isPausedRef (app m) = false ->
                 fired m'' = fired m' ++ batchCalls cfg (newData m') stop
                 /\ forall inv' invs',
                      batchPromises cfg (newData m') stop = Normal (inv' :: invs') ->
                      pc m'' = AwaitBatch stop (following cfg total stop))).
Proof.
  intros Hreach Hpc Hb Hlen _. cbv zeta.
  pose proof (awaiting_batch_rows _ _ _ _ _ Hreach Hpc) as Hne.
  pose proof (reachable_on_schedule _ _ _ Hreach) as Hsched.
  destruct (reachable_run_inv _ _ _ Hne Hreach) as (f & Hstand & Hcase).
  rewrite Hpc in Hcase. destruct Hcase as (Hcount & -> & Hs).
  destruct (on_schedule_total cfg (data s0) _ m i rest Hsched Hstand
              (or_intror (or_introl Hpc))) as (Hi & Hrest & _).
  destruct Hstand as (Hc & Hl & _).
  set (total := effectiveTotal cfg (length (data s0))) in *.
  set (stop := batchEnd (BATCH_SIZE cfg) i total) in *.
  rewrite <- Hc in Hb.
  destruct (settle_merges m i rest invs results Hb Hlen)
    as ((merged & ns & Hm & _) & _ & Hpub & Hcells).
  destruct (settle_fields m i rest invs results merged ns Hm)
    as (Hnew' & Hfired' & Hcfg' & Hcount' & Hcan & Hpau & Hdone & Hmore);
    [rewrite Hc, Hl; exact Hi | rewrite Hc, Hl; exact Hrest|].
  rewrite Hc, Hl in Hcount', Hdone, Hmore. fold total stop in Hcount', Hdone, Hmore.
  set (m' := settle (forLoop rest) i rest invs results m) in *.
  exists m'. split; [|split; [|split; [|split; [|split]]]].
  - simpl. rewrite Hpc, Hb. now rewrite decide_True.
  - intros k' inv r t _ Hinv Hr Ht Hlater. rewrite <- Hc in Ht.
    rewrite Hpub. split; apply (Hcells k' inv r t Hinv Hr Ht);
      intros k'' inv'' t'' Hlt Hinv'' Ht''; rewrite Hc in Ht'';
      now apply (Hlater k'' inv'' t'').
  - exact Hcount'.
  - exact Hfired'.
  - exact Hdone.
  - intros Hlt. destruct (Hmore Hlt) as [Hpc' Hs']. split; [exact Hpc'|].
    split; [exact Hs'|].
    exists (forLoop rest m'). split; [simpl; now rewrite Hpc'|].
    intros Hcan0 Hpau0.
    assert (Hlen' : length (newData m') = length (data s0)).
    { rewrite Hnew'. apply mergeResults_length in Hm. simpl in Hm. congruence. }
    assert (Hrest' : rest = stop :: following cfg total stop).
    { rewrite Hrest. pose proof (following_unfold cfg total i) as Hfu.
      subst stop. unfold batchEnd in *.
      destruct (BATCH_SIZE cfg) as [b|]; [|lia].
      rewrite Hfu. destruct (i + b <? total) eqn:Hb'.
      - apply Nat.ltb_lt in Hb'. now rewrite Nat.min_l by lia.
      - apply Nat.ltb_ge in Hb'. lia. }
    rewrite Hrest'. simpl forLoop. unfold iteration.
    rewrite Hcan, Hcan0, Hpau, Hpau0.
    pose proof (fire_calls m' stop) as Hfire. cbv zeta in Hfire.
    rewrite Hcfg', Hc, Hlen' in Hfire. fold total in Hfire.
    exact (Hfire Hlt).
Qed.

Lemma C6_isolated_failure_witness :
  exists m' m'',
    step machine_pair (EvBatchSettled [result_error; result_bob]) = Some m'
    /\ cell (data (app m')) 0 (js "Website") = Str (js "Bob")
    /\ processedCount (app m') = 1
    /\ step m' EvTimer = Some m''
    /\ pc m'' = AwaitBatch 1 []
    /\ length (fired m'') = 4.
Proof.
  assert (Hpc : pc machine_pair = AwaitBatch 0 [1]) by (vm_compute; reflexivity).
  assert (Hb : batchPromises config_thinking (newData machine_pair) 0
               = Normal invs_pair) by (vm_compute; reflexivity).
  assert (Hlen : length [result_error; result_bob] = length invs_pair)
    by (vm_compute; reflexivity).
  assert (Herr : [result_error; result_bob] !! 0
                 = Some {| text := js "Error"; sources := [] |}) by reflexivity.
  destruct (C6_isolated_failure config_thinking app_pair machine_pair 0 [1]
              invs_pair [result_error; result_bob] 0
              (reach_start config_thinking app_pair) Hpc Hb Hlen Herr)
    as (m' & Hstep & Hcells & Hcount & Hfired & _ & Hnext).
  destruct Hnext as (_ & _ & m'' & Htimer & Hgo); [vm_compute; lia|].
  destruct Hgo as [Hcalls Hawait];
    [vm_compute; reflexivity | vm_compute; reflexivity |].
  exists m', m''. split; [exact Hstep|].
  assert (Hm' : option_map newData (Some m')
                = Some [Row.set (Row.set row_acme (js "CEO") (js "Error"))
                                (js "Website") (js "Bob"); row_acme]).
  { rewrite <- Hstep. vm_compute. reflexivity. }
  simpl in Hm'. injection Hm' as Hnew.
  split.
  { destruct (invs_pair !! 1) as [inv|] eqn:Hinv; [|vm_compute in Hinv; discriminate Hinv].
    assert (Htag : rowIndex inv = 0 /\ taskIndex inv = 1).
    { vm_compute in Hinv. injection Hinv as <-. split; reflexivity. }
    destruct Htag as [Hrow Htask].
    assert (Ht : tasks config_thinking !! taskIndex inv = Some task_site)
      by (rewrite Htask; reflexivity).
    destruct (Hcells 1 inv result_bob task_site ltac:(lia) Hinv eq_refl Ht) as [_ Hcell].
    - intros k'' inv'' t'' Hlt Hlook. exfalso.
      destruct k'' as [|[|k'']]; [lia | lia |].
      vm_compute in Hlook. discriminate Hlook.
    - rewrite Hrow in Hcell. exact Hcell. }
  split; [exact Hcount|]. split; [exact Htimer|].
  rewrite Hnew in Hcalls, Hawait.
  split.
  - eapply Hawait. vm_compute. reflexivity.
  - rewrite Hcalls, Hfired. vm_compute. reflexivity.
Defined.
